(** * Tic-tac-toe engine: shallow embedding and verified properties

    The repository holds two implementations of the same engine:

    - the multi-file variant ([board.py], [player.py], [game.py]), which
      signals every invalid move by raising an exception;
    - the single-script variant ([revised_tictactoe_onescript.py]), whose
      [Player.make_move] translates placement failures into a [False]
      return value.

    Python objects are mutable and methods may raise.  Methods that assign
    to [self] are embedded in a state-and-exception monad [M S A]: running a
    method on a state yields an outcome (a raised exception or a returned
    value) together with the state at that point, so that "raises without
    mutating" is a property to be proved rather than a consequence of the
    encoding.  Methods whose body contains no assignment are embedded as
    functions from the object to an outcome.

    Python [str] values are modelled by [string], one character per code
    point below 128: the text functions ([str.upper], [str.isspace],
    [str.strip], [str.split], [int]) are those of Python on ASCII text
    ([ascii_text]), and say nothing of text with other characters, where
    Python knows further spaces, letters and digits.  A statement that
    shows what these functions return is made for ASCII text. *)

From Stdlib Require Import ZArith String Ascii List Lia.
From stdpp Require Import base numbers list strings gmap.

Local Open Scope Z_scope.
Local Open Scope string_scope.

(** ** Python runtime fragment *)

Module Py.

(** The message templates of the exceptions raised in the sources, named
    after the error kinds of the design document.  [MissingPlayerName] is
    the factory's complaint about an absent second name,
    [SubscriptOutOfRange] is
    the interpreter's own [IndexError] for [l[i]] with [i] out of range,
    [UnpackMismatch] its [ValueError] for [a, b, c = l] when [l] does not
    have three elements. *)
Inductive ErrorKind : Set :=
| CoordinateOutOfRange
| InvalidSymbol
| CellOccupied
| GameAlreadyOver
| InvalidPlayerSetup
| NoMovesAvailable
| MissingPlayerName
| SubscriptOutOfRange
| UnpackMismatch.

(** An exception: its Python class and its message template. *)
Inductive exn : Set :=
| ValueError (k : ErrorKind)
| IndexError (k : ErrorKind)
| RuntimeError (k : ErrorKind).

Inductive result (A : Type) : Type :=
| Raise (e : exn)
| Return (a : A).
Arguments Raise {A} e.
Arguments Return {A} a.

Definition rbind {A B} (r : result A) (k : A -> result B) : result B :=
  match r with
  | Raise e => Raise e
  | Return a => k a
  end.

(** A method on an object of type [S]: outcome and final state. *)
Definition M (S A : Type) : Type := S -> result A * S.

Definition ret {S A} (a : A) : M S A := fun s => (Return a, s).

Definition raise {S A} (e : exn) : M S A := fun s => (Raise e, s).

Definition bind {S A B} (m : M S A) (k : A -> M S B) : M S B :=
  fun s =>
    match m s with
    | (Raise e, s') => (Raise e, s')
    | (Return a, s') => k a s'
    end.

(** Run a method that contains no assignment. *)
Definition query {S A} (f : S -> result A) : M S A := fun s => (f s, s).

Definition get {S} : M S S := fun s => (Return s, s).

Definition put {S} (s : S) : M S unit := fun _ => (Return tt, s).

(** [try: m except (...): h], for the handlers of the sources, which catch
    every exception the body can raise. *)
Definition try_except {S A} (m : M S A) (h : exn -> M S A) : M S A :=
  fun s =>
    match m s with
    | (Raise e, s') => h e s'
    | (Return a, s') => (Return a, s')
    end.

(** Run a method of a member object: [self.member.method(...)]. *)
Definition on_member {S T A} (proj : S -> T) (upd : T -> S -> S)
    (m : M T A) : M S A :=
  fun s =>
    match m (proj s) with
    | (r, t') => (r, upd t' s)
    end.

(** [for x in xs: body]. *)
Fixpoint for_ {S A} (xs : list A) (body : A -> M S unit) : M S unit :=
  match xs with
  | [] => ret tt
  | x :: xs' => bind (body x) (fun _ => for_ xs' body)
  end.

(** [[f(x) for x in xs]] where [f] may raise. *)
Fixpoint comprehension {A B} (xs : list A) (f : A -> result B)
    : result (list B) :=
  match xs with
  | [] => Return []
  | x :: xs' =>
      rbind (f x) (fun y =>
      rbind (comprehension xs' f) (fun ys => Return (y :: ys)))
  end.

(** [range(n)]. *)
Definition range (n : Z) : list Z := seqZ 0 n.

(** Position designated by subscript [i] in a sequence of length [n]:
    negative subscripts count from the end. *)
Definition subscript (n : nat) (i : Z) : option nat :=
  if bool_decide (0 <= i < Z.of_nat n) then Some (Z.to_nat i)
  else if bool_decide (- Z.of_nat n <= i < 0) then Some (Z.to_nat (i + Z.of_nat n))
  else None.

(** [l[i]]. *)
Definition getitem {A} (l : list A) (i : Z) : result A :=
  match subscript (length l) i with
  | Some k =>
      match l !! k with
      | Some x => Return x
      | None => Raise (IndexError SubscriptOutOfRange)
      end
  | None => Raise (IndexError SubscriptOutOfRange)
  end.

(** [l[i] = v]. *)
Definition setitem {A} (l : list A) (i : Z) (v : A) : result (list A) :=
  match subscript (length l) i with
  | Some k => Return (<[k := v]> l)
  | None => Raise (IndexError SubscriptOutOfRange)
  end.

(** [l[i][j]] and [l[i][j] = v] on a list of lists. *)
Definition getitem2 {A} (l : list (list A)) (i j : Z) : result A :=
  rbind (getitem l i) (fun row => getitem row j).

Definition setitem2 {A} (l : list (list A)) (i j : Z) (v : A)
    : result (list (list A)) :=
  rbind (getitem l i) (fun row =>
  rbind (setitem row j v) (fun row' => setitem l i row')).

(** [[x for x in xs if p(x)]] where [p] may raise. *)
Fixpoint comprehension_if {A} (xs : list A) (p : A -> result bool)
    : result (list A) :=
  match xs with
  | [] => Return []
  | x :: xs' =>
      rbind (p x) (fun b =>
      rbind (comprehension_if xs' p) (fun ys =>
      Return (if b then x :: ys else ys)))
  end.

(** [random.choice(seq)] is [seq[randbelow(len(seq))]], where the
    generator's [randbelow(n)] yields some [k] with [0 <= k < n]; an empty
    [seq] raises [IndexError]. *)
Definition choice {A} (randbelow : Z -> Z) (seq : list A) : result A :=
  if bool_decide (length seq = 0%nat)
  then Raise (IndexError SubscriptOutOfRange)
  else
    match subscript (length seq) (randbelow (Z.of_nat (length seq))) with
    | Some k =>
        match seq !! k with
        | Some x => Return x
        | None => Raise (IndexError SubscriptOutOfRange)
        end
    | None => Raise (IndexError SubscriptOutOfRange)
    end.

(** [all(p(x) for x in xs)] where [p] may raise: stops at the first
    falsy element. *)
Fixpoint all_ {A} (xs : list A) (p : A -> result bool) : result bool :=
  match xs with
  | [] => Return true
  | x :: xs' =>
      rbind (p x) (fun b => if b then all_ xs' p else Return false)
  end.

(** The line-feed string. *)
Definition newline : string := String (ascii_of_nat 10) "".

(** [sep.join(parts)]. *)
Fixpoint join (sep : string) (parts : list string) : string :=
  match parts with
  | [] => ""
  | [p] => p
  | p :: ps => p +:+ sep +:+ join sep ps
  end.

(** [str.upper] on an ASCII character. *)
Definition upper_char (c : ascii) : ascii :=
  let n := nat_of_ascii c in
  if bool_decide (97 <= n <= 122)%nat then ascii_of_nat (n - 32) else c.

Definition upper (s : string) : string :=
  string_of_list_ascii (map upper_char (list_ascii_of_string s)).

(** [str.isspace] on an ASCII character: tab, line feed, vertical tab, form
    feed, carriage return, the four separators 28..31 and the space. *)
Definition isspace (c : ascii) : bool :=
  let n := nat_of_ascii c in
  bool_decide (9 <= n <= 13)%nat || bool_decide (28 <= n <= 32)%nat.

Fixpoint lstrip_chars (l : list ascii) : list ascii :=
  match l with
  | [] => []
  | c :: l' => if isspace c then lstrip_chars l' else l
  end.

(** [str.strip()]. *)
Definition strip (s : string) : string :=
  string_of_list_ascii
    (rev (lstrip_chars (rev (lstrip_chars (list_ascii_of_string s))))).

(** Text of ASCII characters only, the text the functions above model. *)
Definition ascii_text (s : string) : Prop :=
  Forall (fun c => (nat_of_ascii c < 128)%nat) (list_ascii_of_string s).

End Py.

Import Py.

Notation "'do' x <- m ; k" := (bind m (fun x => k))
  (at level 10, x name, m at level 100, k at level 200).
Notation "'do_' m ; k" := (bind m (fun _ => k))
  (at level 10, m at level 100, k at level 200).
Notation "'val' x <- r ; k" := (rbind r (fun x => k))
  (at level 10, x name, r at level 100, k at level 200).

(** ** board.py *)

Module board.

(** A cell holds [None] or a symbol. *)
Record Board : Type := mkBoard { _grid : list (list (option string)) }.

Definition SIZE : Z := 3.

Definition VALID_SYMBOLS : gset string := {[ "X"; "O" ]}.

Definition __init__ : Board :=
  mkBoard ((fun _ => replicate (Z.to_nat SIZE) None) <$> range SIZE).

Definition _validate_coords (row col : Z) : M Board unit :=
  if negb (bool_decide (0 <= row < SIZE) && bool_decide (0 <= col < SIZE))
  then raise (ValueError CoordinateOutOfRange)
  else ret tt.

Definition _validate_symbol (symbol : string) : M Board unit :=
  if negb (bool_decide (symbol ∈ VALID_SYMBOLS))
  then raise (ValueError InvalidSymbol)
  else ret tt.

Definition grid_get (row col : Z) : M Board (option string) :=
  query (fun self => getitem2 (_grid self) row col).

Definition grid_set (row col : Z) (v : option string) : M Board unit :=
  do self <- get;
  match setitem2 (_grid self) row col v with
  | Raise e => raise e
  | Return g => put (mkBoard g)
  end.

Definition reset : M Board unit :=
  for_ (range SIZE) (fun r =>
    for_ (range SIZE) (fun c => grid_set r c None)).

Definition is_cell_empty (row col : Z) : M Board bool :=
  do_ _validate_coords row col;
  do v <- grid_get row col;
  ret (bool_decide (v = None)).

Definition place_mark (row col : Z) (symbol : string) : M Board unit :=
  do_ _validate_coords row col;
  do_ _validate_symbol symbol;
  do empty <- is_cell_empty row col;
  if negb empty then raise (ValueError CellOccupied)
  else grid_set row col (Some symbol).

Definition available_moves (self : Board) : result (list (Z * Z)) :=
  let loop : M (list (Z * Z)) unit :=
    for_ (range SIZE) (fun r =>
      for_ (range SIZE) (fun c =>
        match getitem2 (_grid self) r c with
        | Raise e => raise e
        | Return v =>
            if bool_decide (v = None)
            then (fun moves => (Return tt, (moves ++ [(r, c)])%list))
            else ret tt
        end)) in
  match loop [] with
  | (Raise e, _) => Raise e
  | (Return _, moves) => Return moves
  end.

Definition is_full (self : Board) : result bool :=
  all_ (r ← range SIZE; c ← range SIZE; [(r, c)])
       (fun rc =>
          val v <- getitem2 (_grid self) rc.1 rc.2;
          Return (bool_decide (v ≠ None))).

(** [x or " "] for a cell [x]: [None] and the empty string are falsy. *)
Definition or_blank (v : option string) : string :=
  match v with
  | Some s => if bool_decide (s = "") then " " else s
  | None => " "
  end.

Definition __str__ (self : Board) : result string :=
  let loop : M (list string) unit :=
    for_ (range SIZE) (fun r =>
      match comprehension (range SIZE)
              (fun c => val v <- getitem2 (_grid self) r c; Return (or_blank v)) with
      | Raise e => raise e
      | Return symbols =>
          fun rows =>
            (Return tt, (rows ++ [" " +:+ join " | " symbols +:+ " "])%list)
      end) in
  match loop [] with
  | (Raise e, _) => Raise e
  | (Return _, rows) =>
      Return (join (newline +:+ "---+---+---" +:+ newline) rows)
  end.

End board.

(** ** player.py *)

Module player.

Record Player : Type := mkPlayer { _name : string; _symbol : string }.

Definition __init__ (name symbol : string) : result Player :=
  let symbol := strip (upper symbol) in
  if negb (bool_decide (symbol ∈ board.VALID_SYMBOLS))
  then Raise (ValueError InvalidSymbol)
  else Return (mkPlayer name symbol).

Definition name (self : Player) : string := _name self.

Definition symbol (self : Player) : string := _symbol self.

Definition make_move (self : Player) (row col : Z) : M board.Board unit :=
  board.place_mark row col (_symbol self).

End player.

(** ** game.py *)

Module game.

Import board player.

Inductive GameState : Set := IN_PROGRESS | WIN | DRAW.

Global Instance GameState_eq_dec : EqDecision GameState.
Proof. solve_decision. Defined.

Record Game : Type := mkGame {
  _board : Board;
  _players : Player * Player;
  _turn_idx : Z;
  _state : GameState;
  _winner_symbol : option string
}.

Definition WIN_LINES : list (list (Z * Z)) :=
  [ [(0,0); (0,1); (0,2)];
    [(1,0); (1,1); (1,2)];
    [(2,0); (2,1); (2,2)];
    [(0,0); (1,0); (2,0)];
    [(0,1); (1,1); (2,1)];
    [(0,2); (1,2); (2,2)];
    [(0,0); (1,1); (2,2)];
    [(0,2); (1,1); (2,0)] ].

(** [Game(player_x, player_o, board)]; [board = None] stands for the
    omitted argument. *)
Definition __init__ (player_x player_o : Player) (board : option Board)
    : result Game :=
  if bool_decide (symbol player_x ≠ "X") || bool_decide (symbol player_o ≠ "O")
  then Raise (ValueError InvalidPlayerSetup)
  else
    Return (mkGame (match board with Some b => b | None => board.__init__ end)
                   (player_x, player_o) 0 IN_PROGRESS None).

Definition board (self : Game) : Board := _board self.
Definition state (self : Game) : GameState := _state self.
Definition winner_symbol (self : Game) : option string := _winner_symbol self.

Definition current_player (self : Game) : result Player :=
  getitem [(_players self).1; (_players self).2] (_turn_idx self).

Definition set_board (b : Board) (self : Game) : Game :=
  mkGame b (_players self) (_turn_idx self) (_state self) (_winner_symbol self).
Definition set_turn_idx (i : Z) (self : Game) : Game :=
  mkGame (_board self) (_players self) i (_state self) (_winner_symbol self).
Definition set_state (st : GameState) (self : Game) : Game :=
  mkGame (_board self) (_players self) (_turn_idx self) st (_winner_symbol self).
Definition set_winner_symbol (w : option string) (self : Game) : Game :=
  mkGame (_board self) (_players self) (_turn_idx self) (_state self) w.

Definition assign (f : Game -> Game) : M Game unit :=
  fun self => (Return tt, f self).

Definition _swap_turn : M Game unit :=
  do self <- get;
  assign (set_turn_idx (Z.lxor (_turn_idx self) 1)).

Definition _cell_symbol (self : Game) (r c : Z) : result (option string) :=
  getitem2 (_grid (_board self)) r c.

(** The loop of [_find_winner_symbol], which returns from inside. *)
Fixpoint scan_lines (grid : list (list (option string)))
    (lines : list (list (Z * Z))) : result (option string) :=
  match lines with
  | [] => Return None
  | line :: rest =>
      match line with
      | [a; b; c] =>
          val s1 <- getitem2 grid a.1 a.2;
          val s2 <- getitem2 grid b.1 b.2;
          val s3 <- getitem2 grid c.1 c.2;
          if bool_decide (s1 ≠ None) && (bool_decide (s1 = s2) && bool_decide (s2 = s3))
          then Return s1
          else scan_lines grid rest
      | _ => Raise (ValueError UnpackMismatch)
      end
  end.

Definition _find_winner_symbol (self : Game) : result (option string) :=
  val grid <- comprehension (range SIZE) (fun r =>
                comprehension (range SIZE) (fun c => _cell_symbol self r c));
  scan_lines grid WIN_LINES.

Definition _update_state_after_move : M Game unit :=
  do winner <- query _find_winner_symbol;
  if bool_decide (winner ≠ None) then
    do_ assign (set_state WIN);
    assign (set_winner_symbol winner)
  else
    do full <- query (fun self => is_full (_board self));
    if full then assign (set_state DRAW) else ret tt.

Definition apply_move (row col : Z) : M Game unit :=
  do self <- get;
  if bool_decide (_state self ≠ IN_PROGRESS)
  then raise (RuntimeError GameAlreadyOver)
  else
    do p <- query current_player;
    do_ on_member _board set_board (make_move p row col);
    do_ _update_state_after_move;
    do self <- get;
    if bool_decide (_state self = IN_PROGRESS) then _swap_turn else ret tt.

Definition legal_moves (self : Game) : result (list (Z * Z)) :=
  available_moves (_board self).

Definition reset : M Game unit :=
  do_ on_member _board set_board board.reset;
  do_ assign (set_turn_idx 0);
  do_ assign (set_state IN_PROGRESS);
  assign (set_winner_symbol None).

End game.

(** ** revised_tictactoe_onescript.py *)

Module onescript.

(** A cell holds the blank [" "] or a symbol. *)
Record Board : Type := mkBoard { size : Z; grid : list (list string) }.

(** [Board()], with the defaults of its two fields. *)
Definition Board_init : Board :=
  mkBoard 3 ((fun _ => (fun _ => " ") <$> range 3) <$> range 3).

Definition Board_display (self : Board) : string :=
  join newline (join " | " <$> grid self).

Definition Board_place_mark (row col : Z) (symbol : string) : M Board bool :=
  do self <- get;
  if negb (bool_decide (symbol ∈ ({[ "X"; "O" ]} : gset string)))
  then raise (ValueError InvalidSymbol)
  else if negb (bool_decide (0 <= row < size self)
                && bool_decide (0 <= col < size self))
  then raise (IndexError CoordinateOutOfRange)
  else
    match getitem2 (grid self) row col with
    | Raise e => raise e
    | Return v =>
        if bool_decide (v ≠ " ") then ret false
        else
          match setitem2 (grid self) row col symbol with
          | Raise e => raise e
          | Return g => do_ put (mkBoard (size self) g); ret true
          end
    end.

Definition Board_is_full (self : Board) : bool :=
  forallb (fun cell => bool_decide (cell ≠ " ")) (concat (grid self)).

Definition Board_reset : M Board unit :=
  do self0 <- get;
  for_ (range (size self0)) (fun r =>
    for_ (range (size self0)) (fun c =>
      do self <- get;
      match setitem2 (grid self) r c " " with
      | Raise e => raise e
      | Return g => put (mkBoard (size self) g)
      end)).

(** [ComputerPlayer] derives from [Player] without adding a field or
    overriding [make_move]; its instances are values of the same record. *)
Record Player : Type := mkPlayer { name : string; symbol : string }.

(** [Player(name, symbol)]: the generated initialiser, then
    [__post_init__]. *)
Definition Player_init (name symbol : string) : result Player :=
  if negb (bool_decide (symbol ∈ ({[ "X"; "O" ]} : gset string)))
  then Raise (ValueError InvalidSymbol)
  else Return (mkPlayer name symbol).

Definition Player_make_move (self : Player) (row col : Z) : M Board bool :=
  try_except (Board_place_mark row col (symbol self))
    (fun e =>
       match e with
       | IndexError _ | ValueError _ => ret false
       | RuntimeError _ => raise e
       end).

Record GameEngine : Type := mkGameEngine {
  player_one : Player;
  player_two : Player;
  board : Board;
  current_index : Z;
  winner : option Player;
  is_draw : bool
}.

(** [GameEngine(player_one, player_two)], the other fields at their
    defaults. *)
Definition GameEngine_init (p1 p2 : Player) : GameEngine :=
  mkGameEngine p1 p2 Board_init 0 None false.

Definition set_board (b : Board) (self : GameEngine) : GameEngine :=
  mkGameEngine (player_one self) (player_two self) b (current_index self)
               (winner self) (is_draw self).
Definition set_current_index (i : Z) (self : GameEngine) : GameEngine :=
  mkGameEngine (player_one self) (player_two self) (board self) i
               (winner self) (is_draw self).
Definition set_winner (w : option Player) (self : GameEngine) : GameEngine :=
  mkGameEngine (player_one self) (player_two self) (board self)
               (current_index self) w (is_draw self).
Definition set_is_draw (d : bool) (self : GameEngine) : GameEngine :=
  mkGameEngine (player_one self) (player_two self) (board self)
               (current_index self) (winner self) d.

Definition assign (f : GameEngine -> GameEngine) : M GameEngine unit :=
  fun self => (Return tt, f self).

Definition GameEngine_current_player (self : GameEngine) : result Player :=
  getitem [player_one self; player_two self] (current_index self).

Definition GameEngine_swap_turn : M GameEngine unit :=
  do self <- get;
  assign (set_current_index (1 - current_index self)).

(** The eight value lines built by [_check_winner]. *)
Definition GameEngine_lines (self : GameEngine) : result (list (list string)) :=
  let g := grid (board self) in
  let n := size (board self) in
  val cols <- comprehension (range n) (fun c =>
                comprehension (range n) (fun r => getitem2 g r c));
  val diag <- comprehension (range n) (fun i => getitem2 g i i);
  val anti <- comprehension (range n) (fun i => getitem2 g i (n - 1 - i));
  Return ((g ++ cols) ++ [diag] ++ [anti])%list.

Definition GameEngine_check_winner (symbol : string) (self : GameEngine)
    : result bool :=
  val lines <- GameEngine_lines self;
  Return (existsb (forallb (fun cell => bool_decide (cell = symbol))) lines).

Definition GameEngine_play_turn (row col : Z) : M GameEngine bool :=
  do self <- get;
  if bool_decide (winner self ≠ None) || is_draw self then ret false
  else
    do p <- query GameEngine_current_player;
    do placed <- on_member board set_board (Player_make_move p row col);
    if negb placed then ret false
    else
      do p <- query GameEngine_current_player;
      do won <- query (GameEngine_check_winner (symbol p));
      if won then
        do p <- query GameEngine_current_player;
        do_ assign (set_winner (Some p));
        ret true
      else
        do self <- get;
        if Board_is_full (board self) then
          do_ assign (set_is_draw true);
          ret true
        else
          do_ GameEngine_swap_turn;
          ret true.

(** [ComputerPlayer.choose_move], over the generator's [randbelow]. *)
Definition ComputerPlayer_choose_move (randbelow : Z -> Z) (b : Board)
    : result (Z * Z) :=
  val available <-
    comprehension_if (row ← range (size b); col ← range (size b); [(row, col)])
      (fun rc => val v <- getitem2 (grid b) rc.1 rc.2;
                 Return (bool_decide (v = " ")));
  if bool_decide (available = [])
  then Raise (RuntimeError NoMovesAvailable)
  else choice randbelow available.

(** [x or "Computer"] for an optional name. *)
Definition or_computer (n : option string) : string :=
  match n with
  | Some s => if bool_decide (s = "") then "Computer" else s
  | None => "Computer"
  end.

(** The engine that [create_console_game] builds and hands to the console
    loop. *)
Definition create_console_game (player_one_name : string)
    (player_two_name : option string) (vs_computer : bool)
    : result GameEngine :=
  val player_one <- Player_init player_one_name "X";
  val player_two <-
    (if vs_computer then Player_init (or_computer player_two_name) "O"
     else
       match player_two_name with
       | None => Raise (ValueError MissingPlayerName)
       | Some n => Player_init n "O"
       end);
  Return (GameEngine_init player_one player_two).

End onescript.

(** ** Specification vocabulary *)

Import board.

(** Coordinates are valid when both lie in [0, 3). *)
Definition in_range (p : Z * Z) : Prop := (0 <= p.1 < 3) ∧ (0 <= p.2 < 3).

(** The nine coordinates in row-major scan order. *)
Definition coords : list (Z * Z) :=
  [ (0,0); (0,1); (0,2); (1,0); (1,1); (1,2); (2,0); (2,1); (2,2) ].

(** A grid of three rows of three cells. *)
Definition wf_rows {A} (g : list (list A)) : Prop :=
  length g = 3%nat ∧ Forall (fun row => length row = 3%nat) g.

(** The content of the cell at a coordinate, if the grid has that cell. *)
Definition cell_at {A} (g : list (list A)) (p : Z * Z) : option A :=
  if decide (0 <= p.1 ∧ 0 <= p.2)
  then g !! Z.to_nat p.1 ≫= (fun row => row !! Z.to_nat p.2)
  else None.

(** The grid that differs from [g] at most at [(row, col)], which holds
    [v]. *)
Definition grid_update {A} (g : list (list A)) (row col : Z) (v : A)
    : list (list A) :=
  alter (fun r => <[Z.to_nat col := v]> r) (Z.to_nat row) g.

(** The eight lines: three rows, three columns, two diagonals. *)
Definition lines : list (list (Z * Z)) :=
  ((fun r => (fun c => (r, c)) <$> range 3) <$> range 3) ++
  ((fun c => (fun r => (r, c)) <$> range 3) <$> range 3) ++
  [ (fun i => (i, i)) <$> range 3; (fun i => (i, 2 - i)) <$> range 3 ].

(** Every cell of [line] holds [v]. *)
Definition holds_line {A} (g : list (list A)) (line : list (Z * Z)) (v : A)
    : Prop :=
  ∀ p, p ∈ line → cell_at g p = Some v.

Definition wf_board (b : Board) : Prop := wf_rows (_grid b).

(** Number of cells of a multi-file board that hold a symbol. *)
Definition occupied_count (b : Board) : nat :=
  length (filter (fun v => v ≠ None) (concat (_grid b))).

Definition wf_script_board (b : onescript.Board) : Prop :=
  onescript.size b = 3 ∧ wf_rows (onescript.grid b).

(** Status of a single-script engine, read off its [winner] and [is_draw]
    fields the way [ConsoleGame._announce_result] does. *)
Inductive Status : Set := InProgress | Won | Draw.

Global Instance Status_eq_dec : EqDecision Status.
Proof. solve_decision. Defined.

Definition status (e : onescript.GameEngine) : Status :=
  if bool_decide (onescript.winner e ≠ None) then Won
  else if onescript.is_draw e then Draw
  else InProgress.

(** States of a multi-file engine reachable from [g0] by calls of
    [apply_move] (whatever their outcome) and [reset]. *)
Inductive reachable (g0 : game.Game) : game.Game → Prop :=
| reachable_init : reachable g0 g0
| reachable_apply_move g row col :
    reachable g0 g → reachable g0 (game.apply_move row col g).2
| reachable_reset g :
    reachable g0 g → reachable g0 (game.reset g).2.

(** States of a single-script engine reachable from [e0] by calls of
    [play_turn]. *)
Inductive script_reachable (e0 : onescript.GameEngine)
    : onescript.GameEngine → Prop :=
| script_reachable_init : script_reachable e0 e0
| script_reachable_play_turn e row col :
    script_reachable e0 e →
    script_reachable e0 (onescript.GameEngine_play_turn row col e).2.

(** ** Sample states *)

(** A single-script board whose top-left cell holds X. *)
Definition script_board_x00 : onescript.Board :=
  onescript.mkBoard 3 [["X"; " "; " "]; [" "; " "; " "]; [" "; " "; " "]].

(** Players of the multi-file variant. *)
Definition ann : player.Player := player.mkPlayer "Ann" "X".
Definition bob : player.Player := player.mkPlayer "Bob" "O".

(** Players of the single-script variant; [script_bob_x] also holds X. *)
Definition script_ann : onescript.Player := onescript.mkPlayer "Ann" "X".
Definition script_bob : onescript.Player := onescript.mkPlayer "Bob" "O".
Definition script_bob_x : onescript.Player := onescript.mkPlayer "Bob" "X".

(** The multi-file game of Ann and Bob as constructed, and the
    single-script engine of Ann and Bob as constructed. *)
Definition game_fresh : game.Game :=
  game.mkGame board.__init__ (ann, bob) 0 game.IN_PROGRESS None.

Definition script_engine_fresh : onescript.GameEngine :=
  onescript.GameEngine_init script_ann script_bob.

(** The multi-file game one move before X completes the top row. *)
Definition game_before_win : game.Game :=
  game.mkGame
    (mkBoard [[Some "X"; Some "X"; None];
              [Some "O"; Some "O"; None];
              [None; None; None]])
    (ann, bob) 0 game.IN_PROGRESS None.

(** The single-script game one move before the board fills up without a
    line. *)
Definition script_engine_before_draw : onescript.GameEngine :=
  onescript.mkGameEngine script_ann script_bob
    (onescript.mkBoard 3 [["X"; "O"; "X"]; ["X"; "O"; "O"]; ["O"; "X"; " "]])
    0 None false.

(** A multi-file game that X has won on the top row, and a drawn
    single-script game. *)
Definition game_won : game.Game :=
  game.mkGame
    (mkBoard [[Some "X"; Some "X"; Some "X"];
              [Some "O"; Some "O"; None];
              [None; None; None]])
    (ann, bob) 0 game.WIN (Some "X").

Definition script_engine_drawn : onescript.GameEngine :=
  onescript.mkGameEngine script_ann script_bob
    (onescript.mkBoard 3 [["X"; "O"; "X"]; ["X"; "O"; "O"]; ["O"; "X"; "X"]])
    0 None true.

(** A multi-file board whose top-left cell holds X. *)
Definition board_x00 : Board :=
  mkBoard [[Some "X"; None; None]; [None; None; None]; [None; None; None]].

(** ** Lines and fullness *)

(** A line is three valid coordinates. *)
Definition line_shape (line : list (Z * Z)) : Prop :=
  ∃ a b c, line = [a; b; c] ∧ in_range a ∧ in_range b ∧ in_range c.

(** Multi-file grid: some line is held by symbol [s]; no line is held by
    any symbol; no cell is empty. *)
Definition line_of (g : list (list (option string))) (s : string) : Prop :=
  ∃ line, line ∈ lines ∧ holds_line g line (Some s).

Definition no_line (g : list (list (option string))) : Prop :=
  ∀ s, ¬ line_of g s.

Definition full (g : list (list (option string))) : Prop :=
  Forall (fun p => cell_at g p ≠ Some None) coords.

(** Single-script grid: the same notions, a cell being empty when it holds
    the blank [" "]. *)
Definition script_line_of (g : list (list string)) (s : string) : Prop :=
  s ≠ " " ∧ ∃ line, line ∈ lines ∧ holds_line g line s.

Definition script_no_line (g : list (list string)) : Prop :=
  ∀ s, ¬ script_line_of g s.

Definition script_full (g : list (list string)) : Prop :=
  Forall (fun p => cell_at g p ≠ Some " ") coords.

(** ** Engine invariants *)

(** What holds of every state of a multi-file engine built on a board
    without a completed line: the board is 3x3, the players hold X and O
    in this order, the turn index is 0 or 1, a game in progress has no
    completed line, a winning symbol is recorded exactly in state [WIN],
    and it is then the symbol of the player to move, who holds a line. *)
Definition game_inv (g : game.Game) : Prop :=
  wf_board (game._board g) ∧
  player.symbol (game._players g).1 = "X" ∧
  player.symbol (game._players g).2 = "O" ∧
  (game._turn_idx g = 0 ∨ game._turn_idx g = 1) ∧
  (game._state g = game.IN_PROGRESS → no_line (_grid (game._board g))) ∧
  (game._state g ≠ game.WIN → game._winner_symbol g = None) ∧
  (game._state g = game.WIN →
     ∃ p, game.current_player g = Return p ∧
          game._winner_symbol g = Some (player.symbol p) ∧
          line_of (_grid (game._board g)) (player.symbol p)).

(** A method of the multi-file engine that never rebinds [_players]. *)
Definition keeps_players {A} (m : M game.Game A) : Prop :=
  ∀ g, game._players (m g).2 = game._players g.

(** What holds of every state of a single-script engine started on an
    empty board: the board is 3x3, the turn index is 0 or 1, a game in
    progress has no completed line, and a recorded winner is the player to
    move, who holds a line. *)
Definition script_inv (e : onescript.GameEngine) : Prop :=
  wf_script_board (onescript.board e) ∧
  (onescript.current_index e = 0 ∨ onescript.current_index e = 1) ∧
  (status e = InProgress →
     script_no_line (onescript.grid (onescript.board e))) ∧
  (∀ w, onescript.winner e = Some w →
     onescript.GameEngine_current_player e = Return w ∧
     script_line_of (onescript.grid (onescript.board e)) (onescript.symbol w)).

(** The shape every state of a multi-file engine keeps, whatever board it
    was built on: a 3x3 board, players holding X and O in this order, and a
    turn index of 0 or 1. *)
Definition game_shape (g : game.Game) : Prop :=
  wf_board (game._board g) ∧
  player.symbol (game._players g).1 = "X" ∧
  player.symbol (game._players g).2 = "O" ∧
  (game._turn_idx g = 0 ∨ game._turn_idx g = 1).

(** A generator whose [randbelow] always answers 0. *)
Definition randbelow_zero (n : Z) : Z := 0.

(** ** Vocabulary of the further properties *)

(** A cell content the multi-file board can hold. *)
Definition valid_cell (v : option string) : Prop :=
  v = None ∨ v = Some "X" ∨ v = Some "O".

(** A 3x3 board all of whose cells hold nothing, X or O. *)
Definition valid_board (b : Board) : Prop :=
  wf_board b ∧
  ∀ p, in_range p → ∃ v, cell_at (_grid b) p = Some v ∧ valid_cell v.

(** Boards obtained from [Board()] by calls of [place_mark] (whatever their
    arguments and outcome) and [reset]. *)
Inductive board_reachable : Board → Prop :=
| board_reachable_init : board_reachable board.__init__
| board_reachable_place_mark b row col symbol :
    board_reachable b → board_reachable (place_mark row col symbol b).2
| board_reachable_reset b :
    board_reachable b → board_reachable (board.reset b).2.

(** Number of cells of a multi-file board that hold symbol [s]. *)
Definition count_symbol (s : string) (b : Board) : nat :=
  length (filter (fun v => v = Some s) (concat (_grid b))).

(** The character [__str__] shows for a cell holding nothing, X or O. *)
Definition glyph (v : option string) : ascii :=
  match v with
  | Some (String c _) => c
  | _ => " "%char
  end.

(** The text [__str__] produces for a row whose cells show the characters
    [x], [y] and [z], and the separator it puts between two rows. *)
Definition row_text (x y z : ascii) : string :=
  " " +:+ String x "" +:+ " | " +:+ String y "" +:+ " | " +:+ String z ""
  +:+ " ".

Definition row_separator : string := newline +:+ "---+---+---" +:+ newline.

(** [plays g0 n g]: the multi-file game [g] is reached from [g0] by calls of
    [apply_move] of which exactly [n] succeeded. *)
Inductive plays (g0 : game.Game) : nat → game.Game → Prop :=
| plays_start : plays g0 0 g0
| plays_accepted n g row col g' :
    plays g0 n g →
    game.apply_move row col g = (Return tt, g') →
    plays g0 (S n) g'
| plays_refused n g row col e g' :
    plays g0 n g →
    game.apply_move row col g = (Raise e, g') →
    plays g0 n g'.

(** A cell content the single-script board can hold. *)
Definition script_valid_cell (v : string) : Prop :=
  v = " " ∨ v = "X" ∨ v = "O".

(** A single-script 3x3 board all of whose cells hold the blank, X or O. *)
Definition script_valid_board (b : onescript.Board) : Prop :=
  wf_script_board b ∧
  ∀ p, in_range p →
       ∃ v, cell_at (onescript.grid b) p = Some v ∧ script_valid_cell v.

(** The character [display] shows for a cell holding the blank, X or O. *)
Definition script_glyph (v : string) : ascii :=
  match v with
  | String c _ => c
  | EmptyString => " "%char
  end.

(** The text [display] produces for a row whose cells show [x], [y], [z]. *)
Definition script_row_text (x y z : ascii) : string :=
  String x "" +:+ " | " +:+ String y "" +:+ " | " +:+ String z "".

(** ** Text fragment of the Python runtime, for the console drivers

    As for [upper] and [strip], the functions are modelled on ASCII
    text. *)

Module PyText.

(** [s.replace(old, new)] for one-character [old] and [new]. *)
Definition replace_char (old new : ascii) (s : string) : string :=
  string_of_list_ascii
    (map (fun c => if decide (c = old) then new else c)
         (list_ascii_of_string s)).

(** [s.split()]: the maximal runs of non-whitespace characters, in order;
    [cur] holds the current run, reversed. *)
Fixpoint split_chars (l : list ascii) (cur : list ascii)
    : list (list ascii) :=
  match l with
  | [] => match cur with [] => [] | _ => [rev cur] end
  | c :: l' =>
      if isspace c
      then match cur with
           | [] => split_chars l' []
           | _ => rev cur :: split_chars l' []
           end
      else split_chars l' (c :: cur)
  end.

Definition split (s : string) : list string :=
  map string_of_list_ascii (split_chars (list_ascii_of_string s) []).

Definition is_digit (c : ascii) : bool :=
  let n := nat_of_ascii c in bool_decide (48 <= n <= 57)%nat.

Definition digit_value (c : ascii) : Z := Z.of_nat (nat_of_ascii c) - 48.

(** The digits of a decimal literal, in which single underscores may
    separate digits; [after_digit] tells whether the previous character was
    a digit. *)
Fixpoint digits (l : list ascii) (acc : Z) (after_digit : bool) : option Z :=
  match l with
  | [] => if after_digit then Some acc else None
  | c :: l' =>
      if is_digit c then digits l' (10 * acc + digit_value c) true
      else if bool_decide (c = "_"%char) && after_digit
           then digits l' acc false
           else None
  end.

(** The whitespace [int] skips around a literal: tab, line feed, vertical
    tab, form feed, carriage return and the space (not the separators
    28..31, which [str.strip] removes). *)
Definition is_literal_space (c : ascii) : bool :=
  let n := nat_of_ascii c in
  bool_decide (9 <= n <= 13)%nat || bool_decide (n = 32)%nat.

Fixpoint lstrip_literal (l : list ascii) : list ascii :=
  match l with
  | [] => []
  | c :: l' => if is_literal_space c then lstrip_literal l' else l
  end.

(** [sys.get_int_max_str_digits()], at its default. *)
Definition int_max_str_digits : Z := 4300.

(** A literal without its sign: [int] refuses one of more than
    [int_max_str_digits] digits. *)
Definition unsigned (l : list ascii) : option Z :=
  if bool_decide (int_max_str_digits
                  < Z.of_nat (length (filter (fun c => is_digit c = true) l)))
  then None
  else digits l 0 false.

(** [int(s)] in base 10 on ASCII text: surrounding whitespace is ignored,
    one sign is allowed; [None] stands for the [ValueError] of [int]. *)
Definition int_ (s : string) : option Z :=
  match rev (lstrip_literal (rev (lstrip_literal (list_ascii_of_string s)))) with
  | c :: l =>
      if bool_decide (c = "+"%char) then unsigned l
      else if bool_decide (c = "-"%char) then Z.opp <$> unsigned l
      else unsigned (c :: l)
  | [] => None
  end.

End PyText.

(** ** The console

    Standard input is a list of lines still to be read, standard output
    the list of what has been written so far.  [input(prompt)] writes the
    prompt and takes the next line; at the end of the input it raises
    [EOFError], which neither driver catches. *)

Module console.

Record Console (O : Type) : Type :=
  mkConsole { stdin : list string; stdout : list O }.
Arguments mkConsole {O} stdin stdout.
Arguments stdin {O} c.
Arguments stdout {O} c.

End console.

(** ** main.py *)

Module main.

Import PyText.

(** The three [ValueError]s [parse_move] can raise: "Please enter two
    numbers (row col).", the one [int] raises, and "Row/Col must be in 0..2
    (or 1..3).". *)
Inductive ParseError : Set :=
| TwoNumbersExpected
| InvalidLiteral
| OutOfBoard.

Definition parse_move (raw : string) : ParseError + (Z * Z) :=
  let raw := replace_char "," " " (strip raw) in
  let parts := filter (fun p => p ≠ "") (split raw) in
  if bool_decide (length parts ≠ 2%nat) then inl TwoNumbersExpected
  else
    match parts !! 0%nat, parts !! 1%nat with
    | Some p0, Some p1 =>
        match int_ p0 with
        | None => inl InvalidLiteral
        | Some r =>
            match int_ p1 with
            | None => inl InvalidLiteral
            | Some c =>
                let rc :=
                  if bool_decide (r ∈ [1; 2; 3]) && bool_decide (c ∈ [1; 2; 3])
                  then (r - 1, c - 1) else (r, c) in
                if negb (bool_decide (0 <= rc.1 <= 2)
                         && bool_decide (0 <= rc.2 <= 2))
                then inl OutOfBoard
                else inr rc
            end
        end
    | _, _ => inl TwoNumbersExpected
    end.

(** What [play_once] writes.  [Text] carries the exact text of a prompt
    or of a [print] (without the final line feed).  The three lines whose
    text embeds an emoji are recorded by their content: [Reported e] for
    [print(f"❌ {e}")], [WinAnnounced symbol name] for the line
    [f"\n🎉 {symbol} wins! ({name})"] and [DrawAnnounced] for
    ["\n🤝 It's a draw!"]. *)
Inductive Caught : Set :=
| ParseFailure (e : ParseError)
| EngineFailure (e : exn).

Inductive Output : Set :=
| Text (s : string)
| Reported (e : Caught)
| WinAnnounced (symbol name : string)
| DrawAnnounced.

(** How [play_once] ends: it returns with the game it played, or an
    exception leaves it ([EOFError] from [input], or an exception of the
    engine raised outside the [try]). *)
Inductive Ended : Type :=
| Finished (g : game.Game)
| EOFError
| Raised (e : exn).

Definition print_board_with_coords (b : board.Board) (out : list Output)
    : result unit * list Output :=
  let out1 := (out ++ [Text (newline +:+ "Current board:")])%list in
  match board.__str__ b with
  | Raise e => (Raise e, out1)
  | Return text =>
      (Return tt,
       (out1 ++ [Text text;
                 Text (newline +:+ "Coordinates: rows/cols can be 0..2 or 1..3");
                 Text "  (row col) e.g., 0 2  or  1 3"])%list)
  end.

(** [x.strip() or default]. *)
Definition strip_or (default raw : string) : string :=
  let s := strip raw in if bool_decide (s = "") then default else s.

Definition turn_prompt (p : player.Player) : string :=
  newline +:+ player.name p +:+ "'s turn (" +:+ player.symbol p
  +:+ "). Enter row and column: ".

(** The statements after the loop of [play_once]. *)
Definition announce (px po : player.Player) (g : game.Game)
    (lines : list string) (out : list Output)
    : Ended * console.Console Output :=
  match print_board_with_coords (game.board g) out with
  | (Raise e, out1) => (Raised e, console.mkConsole lines out1)
  | (Return _, out1) =>
      if bool_decide (game.state g = game.WIN) then
        let name :=
          if bool_decide (game.winner_symbol g = Some "X")
          then player.name px else player.name po in
        (Finished g,
         console.mkConsole lines
           (out1 ++ [WinAnnounced
                       (match game.winner_symbol g with
                        | Some s => s
                        | None => "None"
                        end) name])%list)
      else (Finished g, console.mkConsole lines (out1 ++ [DrawAnnounced])%list)
  end.

(** The loop of [play_once] and what follows it; each round reads one
    line. *)
Fixpoint play_loop (px po : player.Player) (lines : list string)
    (g : game.Game) (out : list Output) : Ended * console.Console Output :=
  if bool_decide (game.state g = game.IN_PROGRESS) then
    match print_board_with_coords (game.board g) out with
    | (Raise e, out1) => (Raised e, console.mkConsole lines out1)
    | (Return _, out1) =>
        match game.current_player g with
        | Raise e => (Raised e, console.mkConsole lines out1)
        | Return p =>
            let out2 := (out1 ++ [Text (turn_prompt p)])%list in
            match lines with
            | [] => (EOFError, console.mkConsole [] out2)
            | raw :: rest =>
                match parse_move raw with
                | inl e =>
                    play_loop px po rest g
                      (out2 ++ [Reported (ParseFailure e)])%list
                | inr (r, c) =>
                    match game.apply_move r c g with
                    | (Raise e, g') =>
                        play_loop px po rest g'
                          (out2 ++ [Reported (EngineFailure e)])%list
                    | (Return _, g') => play_loop px po rest g' out2
                    end
                end
            end
        end
    end
  else announce px po g lines out.

Definition play_once (k : console.Console Output)
    : Ended * console.Console Output :=
  let out1 := (console.stdout k ++ [Text "Enter Player X name: "])%list in
  match console.stdin k with
  | [] => (EOFError, console.mkConsole [] out1)
  | raw_x :: lines1 =>
      match player.__init__ (strip_or "Player X" raw_x) "X" with
      | Raise e => (Raised e, console.mkConsole lines1 out1)
      | Return px =>
          let out2 := (out1 ++ [Text "Enter Player O name: "])%list in
          match lines1 with
          | [] => (EOFError, console.mkConsole [] out2)
          | raw_o :: lines2 =>
              match player.__init__ (strip_or "Player O" raw_o) "O" with
              | Raise e => (Raised e, console.mkConsole lines2 out2)
              | Return po =>
                  match game.__init__ px po None with
                  | Raise e => (Raised e, console.mkConsole lines2 out2)
                  | Return g => play_loop px po lines2 g out2
                  end
              end
          end
      end
  end.

End main.

(** ** revised_tictactoe_onescript.py, the console *)

Module console_game.

Import PyText onescript.

(** The text [_prompt_for_move] hands to [input]. *)
Definition move_prompt (player : Player) : string :=
  name player +:+ "'s turn (" +:+ symbol player
  +:+ "). Enter row and column: ".

(** One round of the loop of [_prompt_for_move], over the engine of the
    console game, on the line [input] returned: [inr] is the pair the
    method returns, [inl] the text printed before [continue]. *)
Definition prompt_round (engine : GameEngine) (line : string)
    : string + (Z * Z) :=
  let raw := strip line in
  let parts := split raw in
  if bool_decide (length parts ≠ 2%nat) then
    inl "Please enter exactly two numbers separated by space (e.g., '1 3')."
  else
    match parts !! 0%nat, parts !! 1%nat with
    | Some p0, Some p1 =>
        match int_ p0, int_ p1 with
        | Some row_input, Some col_input =>
            let row := row_input - 1 in
            let col := col_input - 1 in
            if negb (bool_decide (0 <= row < size (board engine))
                     && bool_decide (0 <= col < size (board engine)))
            then inl "Coordinates must be between 1 and 3. Please try again."
            else inr (row, col)
        | _, _ => inl "Only numeric input is accepted. Please try again."
        end
    | _, _ =>
        inl "Please enter exactly two numbers separated by space (e.g., '1 3')."
    end.

(** [ConsoleGame._prompt_for_move], over [self.engine]: the output is the
    list of the texts written, prompts and printed lines alike; [None]
    stands for the [EOFError] of [input] at the end of the input. *)
Fixpoint _prompt_for_move (engine : GameEngine) (player : Player)
    (lines : list string) (out : list string)
    : option (Z * Z) * console.Console string :=
  let out1 := (out ++ [move_prompt player])%list in
  match lines with
  | [] => (None, console.mkConsole [] out1)
  | line :: rest =>
      match prompt_round engine line with
      | inl message =>
          _prompt_for_move engine player rest (out1 ++ [message])%list
      | inr move => (Some move, console.mkConsole rest out1)
      end
  end.

End console_game.

(** ** Vocabulary for the console input *)

(** A non-empty piece of ASCII text without whitespace or comma. *)
Definition token (l : list ascii) : Prop :=
  l ≠ [] ∧
  Forall (fun c => (nat_of_ascii c < 128)%nat ∧ isspace c = false ∧
                   c ≠ ","%char) l.

(** A non-empty piece of text made of whitespace and commas only. *)
Definition separator (l : list ascii) : Prop :=
  l ≠ [] ∧ Forall (fun c => isspace c = true ∨ c = ","%char) l.




(** A console session: the two names, then moves of which one names an
    occupied cell and one is not a pair of numbers; X completes the top
    row. *)
Definition console_sample : console.Console main.Output :=
  console.mkConsole
    ["Ann"; " Bob "; "1 1"; "2,2"; "1 1"; "0 1"; "x"; "2 1"; "1 3"; "y"] [].

(** A non-empty piece of ASCII text without whitespace, and a piece of
    text made of whitespace only. *)
Definition word (l : list ascii) : Prop :=
  l ≠ [] ∧ Forall (fun c => (nat_of_ascii c < 128)%nat ∧ isspace c = false) l.

Definition blank (l : list ascii) : Prop :=
  Forall (fun c => isspace c = true) l.

(** ** The Python runtime fragment, lemmas *)

Lemma subscript_nonneg (n : nat) (i : Z) :
  0 <= i < Z.of_nat n → subscript n i = Some (Z.to_nat i).
Proof.
  intros Hi. unfold subscript. rewrite bool_decide_eq_true_2; auto.
Qed.

Lemma getitem_lookup {A} (l : list A) (i : Z) x :
  0 <= i → l !! Z.to_nat i = Some x → getitem l i = Return x.
Proof.
  intros Hi Hl. unfold getitem.
  rewrite subscript_nonneg.
  - by rewrite Hl.
  - apply lookup_lt_Some in Hl. lia.
Qed.

Lemma setitem_lookup {A} (l : list A) (i : Z) x v :
  0 <= i → l !! Z.to_nat i = Some x →
  setitem l i v = Return (<[Z.to_nat i := v]> l).
Proof.
  intros Hi Hl. unfold setitem.
  rewrite subscript_nonneg; [done|].
  apply lookup_lt_Some in Hl. lia.
Qed.

Lemma cell_at_Some {A} (g : list (list A)) (p : Z * Z) v :
  cell_at g p = Some v →
  0 <= p.1 ∧ 0 <= p.2 ∧
  ∃ row, g !! Z.to_nat p.1 = Some row ∧ row !! Z.to_nat p.2 = Some v.
Proof.
  unfold cell_at. case_decide as Hp; [|done].
  destruct (g !! Z.to_nat p.1) as [row|] eqn:Hrow; simpl; [|done].
  intros Hv. repeat split; try tauto. eauto.
Qed.

Lemma getitem2_cell_at {A} (g : list (list A)) (r c : Z) v :
  cell_at g (r, c) = Some v → getitem2 g r c = Return v.
Proof.
  intros (Hr & Hc & row & Hrow & Hv)%cell_at_Some. simpl in *.
  unfold getitem2. rewrite (getitem_lookup _ _ row); [|done..].
  simpl. by apply getitem_lookup.
Qed.

Lemma alter_as_insert {A} (g : list (list A)) (i : nat) (f : list A → list A) row :
  g !! i = Some row → <[i := f row]> g = alter f i g.
Proof.
  revert i. induction g as [|x g IH]; intros [|i] Hg; simpl in *; try done.
  - by inversion Hg.
  - f_equal. by apply IH.
Qed.

Lemma setitem2_cell_at {A} (g : list (list A)) (r c : Z) v0 v :
  cell_at g (r, c) = Some v0 →
  setitem2 g r c v = Return (grid_update g r c v).
Proof.
  intros (Hr & Hc & row & Hrow & Hv)%cell_at_Some. simpl in *.
  unfold setitem2, grid_update.
  rewrite (getitem_lookup _ _ row); [|done..]. simpl.
  rewrite (setitem_lookup _ _ v0); [|done..]. simpl.
  rewrite (setitem_lookup _ _ row); [|done..].
  by rewrite (alter_as_insert _ _ (fun r0 => <[Z.to_nat c := v]> r0) row).
Qed.

Lemma wf_rows_inv {A} (g : list (list A)) :
  wf_rows g →
  ∃ a b c d e f x y z, g = [[a; b; c]; [d; e; f]; [x; y; z]].
Proof.
  intros [Hlen Hrows].
  destruct g as [|r0 [|r1 [|r2 [|]]]]; simpl in Hlen; try lia.
  apply Forall_cons in Hrows as [H0 Hrows].
  apply Forall_cons in Hrows as [H1 Hrows].
  apply Forall_cons in Hrows as [H2 _].
  destruct r0 as [|? [|? [|? [|]]]]; simpl in H0; try lia.
  destruct r1 as [|? [|? [|? [|]]]]; simpl in H1; try lia.
  destruct r2 as [|? [|? [|? [|]]]]; simpl in H2; try lia.
  by repeat eexists.
Qed.

Lemma in_range_cases (p : Z * Z) : in_range p ↔ p ∈ coords.
Proof.
  destruct p as [r c]. unfold in_range, coords. simpl. split.
  - intros [Hr Hc].
    assert (r = 0 ∨ r = 1 ∨ r = 2) as Hr' by lia.
    assert (c = 0 ∨ c = 1 ∨ c = 2) as Hc' by lia.
    clear Hr Hc.
    destruct Hr' as [-> | [-> | ->]], Hc' as [-> | [-> | ->]]; set_solver.
  - rewrite !elem_of_cons, elem_of_nil.
    intros H. repeat destruct H as [H|H]; try done; inversion H; lia.
Qed.

Lemma wf_rows_cell {A} (g : list (list A)) p : wf_rows g → in_range p → is_Some (cell_at g p).
Proof.
  intros (a & b & c & d & e & f & x & y & z & ->)%wf_rows_inv Hp.
  apply in_range_cases in Hp. unfold coords in Hp.
  rewrite !elem_of_cons, elem_of_nil in Hp.
  repeat destruct Hp as [Hp|Hp]; try done; subst p; by eexists.
Qed.

Lemma wf_rows_update {A} (g : list (list A)) r c v : wf_rows g → wf_rows (grid_update g r c v).
Proof.
  intros [Hlen Hrows]. split.
  - unfold grid_update. by rewrite length_alter.
  - unfold grid_update. apply Forall_alter; [done|].
    intros row Hrow. by rewrite length_insert.
Qed.

Lemma cell_at_update {A} (g : list (list A)) r c v p :
  0 <= r → 0 <= c → is_Some (cell_at g (r, c)) →
  cell_at (grid_update g r c v) p
  = if decide (p = (r, c)) then Some v else cell_at g p.
Proof.
  intros Hr Hc [v0 (_ & _ & row & Hrow & Hv)%cell_at_Some]. simpl in *.
  destruct p as [r' c']. unfold cell_at, grid_update. simpl.
  case_decide as Hp.
  - destruct (decide (Z.to_nat r' = Z.to_nat r)) as [Heq|Hne].
    + assert (r' = r) as -> by lia.
      rewrite list_lookup_alter_eq, Hrow. simpl.
      destruct (decide (Z.to_nat c' = Z.to_nat c)) as [Heqc|Hnec].
      * assert (c' = c) as -> by lia.
        rewrite decide_True by done.
        apply list_lookup_insert_eq. by eapply lookup_lt_Some.
      * rewrite decide_False by (intros [=]; lia).
        by rewrite list_lookup_insert_ne.
    + rewrite list_lookup_alter_ne by done.
      rewrite decide_False; [done|]. intros [=]; lia.
  - rewrite decide_False; [done|]. intros [=]; lia.
Qed.

(** ** board.py: placement *)

Lemma valid_symbols_spec (s : string) :
  s ∈ VALID_SYMBOLS ↔ s = "X" ∨ s = "O".
Proof. unfold VALID_SYMBOLS. set_solver. Qed.

Lemma validate_coords_spec row col b :
  _validate_coords row col b
  = if decide (in_range (row, col)) then (Return tt, b)
    else (Raise (ValueError CoordinateOutOfRange), b).
Proof.
  unfold _validate_coords, in_range, SIZE. simpl.
  case_decide as Hp.
  - destruct Hp. by rewrite !bool_decide_eq_true_2.
  - destruct (bool_decide (0 <= row < 3)) eqn:Hr; [|done].
    destruct (bool_decide (0 <= col < 3)) eqn:Hc; [|done].
    apply bool_decide_eq_true_1 in Hr, Hc. tauto.
Qed.

Lemma validate_symbol_spec symbol b :
  _validate_symbol symbol b
  = if decide (symbol = "X" ∨ symbol = "O") then (Return tt, b)
    else (Raise (ValueError InvalidSymbol), b).
Proof.
  unfold _validate_symbol.
  case_decide as Hs.
  - rewrite bool_decide_eq_true_2; [done|]. by apply valid_symbols_spec.
  - rewrite bool_decide_eq_false_2; [done|]. by rewrite valid_symbols_spec.
Qed.

Lemma is_cell_empty_spec row col b v :
  cell_at (_grid b) (row, col) = Some v → in_range (row, col) →
  is_cell_empty row col b = (Return (bool_decide (v = None)), b).
Proof.
  intros Hv Hp. unfold is_cell_empty, bind.
  rewrite validate_coords_spec, decide_True by done.
  unfold grid_get, query. by rewrite (getitem2_cell_at _ _ _ v).
Qed.

Lemma grid_set_spec row col v b v0 :
  cell_at (_grid b) (row, col) = Some v0 →
  grid_set row col v b
  = (Return tt, mkBoard (grid_update (_grid b) row col v)).
Proof.
  intros Hv. unfold grid_set, bind, get.
  by rewrite (setitem2_cell_at _ _ _ v0).
Qed.

(** The complete case table of [place_mark] on a 3x3 board. *)
Lemma place_mark_cases b row col symbol :
  wf_board b →
  place_mark row col symbol b
  = if decide (in_range (row, col)) then
      if decide (symbol = "X" ∨ symbol = "O") then
        match cell_at (_grid b) (row, col) with
        | Some None =>
            (Return tt, mkBoard (grid_update (_grid b) row col (Some symbol)))
        | _ => (Raise (ValueError CellOccupied), b)
        end
      else (Raise (ValueError InvalidSymbol), b)
    else (Raise (ValueError CoordinateOutOfRange), b).
Proof.
  intros Hwf. unfold place_mark, bind.
  rewrite validate_coords_spec.
  case_decide as Hp; [|done].
  rewrite validate_symbol_spec.
  case_decide as Hs; [|done].
  destruct (wf_rows_cell _ _ Hwf Hp) as [v Hv].
  rewrite (is_cell_empty_spec _ _ _ v), Hv by done.
  destruct v as [s|]; simpl; [done|].
  by rewrite (grid_set_spec _ _ _ _ None).
Qed.

Lemma place_mark_raise_unchanged b row col symbol e b' :
  wf_board b → place_mark row col symbol b = (Raise e, b') → b' = b.
Proof.
  intros Hwf. rewrite place_mark_cases by done.
  repeat case_decide; try congruence.
  destruct (cell_at _ _) as [[|]|]; congruence.
Qed.

Lemma wf_board_init : wf_board board.__init__.
Proof. split; [done|]. repeat constructor. Qed.

Lemma place_mark_wf b row col symbol :
  wf_board b → wf_board (place_mark row col symbol b).2.
Proof.
  intros Hwf. rewrite place_mark_cases by done.
  repeat case_decide; try done.
  destruct (cell_at _ _) as [[|]|]; try done.
  simpl. by apply wf_rows_update.
Qed.

(** ** revised_tictactoe_onescript.py: placement *)

Lemma script_symbols_spec (s : string) :
  s ∈ ({[ "X"; "O" ]} : gset string) ↔ s = "X" ∨ s = "O".
Proof. set_solver. Qed.

(** The complete case table of the boolean [place_mark] on a 3x3 board. *)
Lemma script_place_mark_cases b row col symbol :
  wf_script_board b →
  onescript.Board_place_mark row col symbol b
  = if decide (symbol = "X" ∨ symbol = "O") then
      if decide (in_range (row, col)) then
        match cell_at (onescript.grid b) (row, col) with
        | Some v =>
            if decide (v = " ")
            then (Return true,
                  onescript.mkBoard (onescript.size b)
                    (grid_update (onescript.grid b) row col symbol))
            else (Return false, b)
        | None => (Raise (IndexError SubscriptOutOfRange), b)
        end
      else (Raise (IndexError CoordinateOutOfRange), b)
    else (Raise (ValueError InvalidSymbol), b).
Proof.
  intros [Hsize Hwf]. unfold onescript.Board_place_mark, bind, get.
  case_decide as Hs.
  - rewrite bool_decide_eq_true_2 by (by apply script_symbols_spec). simpl.
    rewrite Hsize. case_decide as Hp.
    + destruct Hp as [Hr Hc]. simpl in Hr, Hc.
      rewrite !bool_decide_eq_true_2 by done. simpl.
      destruct (wf_rows_cell _ (row, col) Hwf) as [v Hv]; [done|].
      rewrite Hv, (getitem2_cell_at _ _ _ v) by done.
      case_decide as Hblank.
      * subst v. rewrite bool_decide_eq_false_2 by (intros H; by apply H).
        by rewrite (setitem2_cell_at _ _ _ " ").
      * by rewrite bool_decide_eq_true_2.
    + destruct (bool_decide (0 <= row < 3)) eqn:Hr; [|done].
      destruct (bool_decide (0 <= col < 3)) eqn:Hc; [|done].
      apply bool_decide_eq_true_1 in Hr, Hc. by destruct Hp.
  - rewrite bool_decide_eq_false_2; [done|]. by rewrite script_symbols_spec.
Qed.

Lemma wf_script_board_init : wf_script_board onescript.Board_init.
Proof. split; [done|]. split; [done|]. repeat constructor. Qed.

Lemma wf_script_board_update b row col v :
  wf_script_board b →
  wf_script_board
    (onescript.mkBoard (onescript.size b)
       (grid_update (onescript.grid b) row col v)).
Proof.
  intros [Hsize Hwf]. split; [done|]. simpl. by apply wf_rows_update.
Qed.

Lemma script_place_mark_wf b row col symbol :
  wf_script_board b →
  wf_script_board (onescript.Board_place_mark row col symbol b).2.
Proof.
  intros Hwf. rewrite script_place_mark_cases by done.
  repeat case_decide; try done.
  destruct (cell_at _ _) as [v|]; try done.
  case_decide; [|done]. destruct Hwf as [Hsize Hwf].
  split; [done|]. simpl. by apply wf_rows_update.
Qed.

(** ** Claim C3: the placement contract *)

(** C3, as stated, fails on the boolean variant: placing on an occupied
    cell of a single-script board raises no error at all (it returns
    [False]), so no [CellOccupied] error signals that failure. *)
Lemma script_place_mark_occupied_raises_nothing :
  cell_at (onescript.grid script_board_x00) (0, 0) = Some "X" ∧
  ¬ ∃ e, (onescript.Board_place_mark 0 0 "O" script_board_x00).1 = Raise e.
Proof. split; [done|]. intros [e He]. vm_compute in He. discriminate. Qed.

(** C3 (amended): [place_mark row col symbol] succeeds, setting exactly the
    target cell to [symbol], if and only if the coordinates are in range,
    the symbol is X or O and the target cell is empty; every failure leaves
    the board unchanged.  In the raising variant the three failures raise
    CoordinateOutOfRange, InvalidSymbol and CellOccupied (coordinates are
    checked first).  In the boolean variant an invalid symbol raises
    InvalidSymbol, out-of-range coordinates raise CoordinateOutOfRange
    (symbol checked first), and an occupied cell is signalled by returning
    [False] without an error. *)
Theorem place_mark_contract :
  (∀ b row col symbol, wf_board b →
     let out := place_mark row col symbol b in
     let ok := in_range (row, col) ∧ (symbol = "X" ∨ symbol = "O") ∧
               cell_at (_grid b) (row, col) = Some None in
     (out.1 = Return tt ↔ ok) ∧
     (ok → wf_board out.2 ∧
           ∀ p, cell_at (_grid out.2) p
                = if decide (p = (row, col)) then Some (Some symbol)
                  else cell_at (_grid b) p) ∧
     (¬ ok → out.2 = b) ∧
     (¬ in_range (row, col) →
        out.1 = Raise (ValueError CoordinateOutOfRange)) ∧
     (in_range (row, col) → ¬ (symbol = "X" ∨ symbol = "O") →
        out.1 = Raise (ValueError InvalidSymbol)) ∧
     (in_range (row, col) → symbol = "X" ∨ symbol = "O" →
        cell_at (_grid b) (row, col) ≠ Some None →
        out.1 = Raise (ValueError CellOccupied))) ∧
  (∀ b row col symbol, wf_script_board b →
     let out := onescript.Board_place_mark row col symbol b in
     let ok := in_range (row, col) ∧ (symbol = "X" ∨ symbol = "O") ∧
               cell_at (onescript.grid b) (row, col) = Some " " in
     (out.1 = Return true ↔ ok) ∧
     (ok → wf_script_board out.2 ∧
           ∀ p, cell_at (onescript.grid out.2) p
                = if decide (p = (row, col)) then Some symbol
                  else cell_at (onescript.grid b) p) ∧
     (¬ ok → out.2 = b) ∧
     (¬ (symbol = "X" ∨ symbol = "O") →
        out.1 = Raise (ValueError InvalidSymbol)) ∧
     (symbol = "X" ∨ symbol = "O" → ¬ in_range (row, col) →
        out.1 = Raise (IndexError CoordinateOutOfRange)) ∧
     (symbol = "X" ∨ symbol = "O" → in_range (row, col) →
        cell_at (onescript.grid b) (row, col) ≠ Some " " →
        out.1 = Return false)).
Proof.
  split.
  - intros b row col symbol Hwf out ok. subst out ok.
    pose proof (place_mark_wf b row col symbol Hwf) as Hwf'.
    rewrite place_mark_cases in * by done.
    destruct (decide (in_range (row, col))) as [Hp|Hp];
      [|split_and!; simpl; intros; naive_solver].
    destruct (decide (symbol = "X" ∨ symbol = "O")) as [Hs|Hs];
      [|split_and!; simpl; intros; naive_solver].
    destruct (wf_rows_cell _ _ Hwf Hp) as [v Hv]. rewrite Hv in *.
    destruct v as [s|]; simpl in *.
    + split_and!; simpl; intros; naive_solver.
    + split_and!; simpl; intros; try naive_solver.
      split; [done|]. intros p.
      apply cell_at_update; [apply Hp..|]. rewrite Hv. by eexists.
  - intros b row col symbol Hwf out ok. subst out ok.
    pose proof (script_place_mark_wf b row col symbol Hwf) as Hwf'.
    rewrite script_place_mark_cases in * by done.
    destruct (decide (symbol = "X" ∨ symbol = "O")) as [Hs|Hs];
      [|split_and!; simpl; intros; naive_solver].
    destruct (decide (in_range (row, col))) as [Hp|Hp];
      [|split_and!; simpl; intros; naive_solver].
    destruct Hwf as [Hsize Hwf].
    destruct (wf_rows_cell _ _ Hwf Hp) as [v Hv]. rewrite Hv in *.
    destruct (decide (v = " ")) as [->|Hv']; simpl in *.
    + split_and!; simpl; intros; try naive_solver.
      split; [done|]. intros p.
      apply cell_at_update; [apply Hp..|]. rewrite Hv. by eexists.
    + split_and!; simpl; intros; naive_solver.
Qed.

(** C3, witness: the raising variant at the centre of a fresh board. *)
Lemma place_mark_contract_witness :
  wf_board board.__init__ ∧
  (place_mark 1 1 "X" board.__init__).1 = Return tt.
Proof.
  split; [exact wf_board_init|].
  apply (proj1 (proj1 place_mark_contract board.__init__ 1 1 "X" wf_board_init)).
  split_and!; [unfold in_range; simpl; lia | by left | reflexivity].
Defined.

(** ** board.py: queries and reset *)

Lemma reset_spec b :
  wf_board b → board.reset b = (Return tt, board.__init__).
Proof.
  intros (a & b0 & c & d & e & f & x & y & z & Hg)%wf_rows_inv.
  destruct b as [g]. simpl in Hg. subst g. reflexivity.
Qed.

Lemma available_moves_spec b :
  wf_board b →
  available_moves b
  = Return (filter (fun p => cell_at (_grid b) p = Some None) coords).
Proof.
  intros (a & b0 & c & d & e & f & x & y & z & Hg)%wf_rows_inv.
  destruct b as [g]. simpl in Hg. subst g.
  destruct a, b0, c, d, e, f, x, y, z; reflexivity.
Qed.

Lemma available_plus_occupied b :
  wf_board b →
  (length (filter (fun p => cell_at (_grid b) p = Some None) coords)
   + occupied_count b = 9)%nat.
Proof.
  intros (a & b0 & c & d & e & f & x & y & z & Hg)%wf_rows_inv.
  destruct b as [g]. simpl in Hg. subst g.
  destruct a, b0, c, d, e, f, x, y, z; reflexivity.
Qed.

Lemma is_full_spec b :
  wf_board b →
  is_full b
  = Return (bool_decide
              (Forall (fun p => cell_at (_grid b) p ≠ Some None) coords)).
Proof.
  intros (a & b0 & c & d & e & f & x & y & z & Hg)%wf_rows_inv.
  destruct b as [g]. simpl in Hg. subst g.
  destruct a, b0, c, d, e, f, x, y, z; reflexivity.
Qed.

(** ** Claim C6: available moves *)

(** C6: on every 3x3 board [available_moves] returns exactly the
    coordinates of the empty cells, in row-major scan order (the nine
    coordinates listed row 0 first, each row left to right, filtered by
    emptiness), and the length of that list plus the number of occupied
    cells is 9. *)
Theorem available_moves_row_major b :
  wf_board b →
  coords = (r ← range SIZE; c ← range SIZE; [(r, c)]) ∧
  ∃ moves,
    available_moves b = Return moves ∧
    moves = filter (fun p => cell_at (_grid b) p = Some None) coords ∧
    (∀ p, p ∈ moves ↔ in_range p ∧ cell_at (_grid b) p = Some None) ∧
    (length moves + occupied_count b = 9)%nat.
Proof.
  intros Hwf. split; [reflexivity|].
  eexists. split; [by apply available_moves_spec|].
  split; [done|]. split.
  - intros p. rewrite list_elem_of_filter, in_range_cases. tauto.
  - by apply available_plus_occupied.
Qed.

(** C6, witness: a board with one mark has eight available moves. *)
Lemma available_moves_row_major_witness :
  wf_board board_x00 ∧
  available_moves board_x00
  = Return [ (0,1); (0,2); (1,0); (1,1); (1,2); (2,0); (2,1); (2,2) ].
Proof.
  assert (Hwf : wf_board board_x00).
  { split; [reflexivity|]. repeat constructor. }
  split; [exact Hwf|].
  destruct (available_moves_row_major board_x00 Hwf) as (_ & moves & -> & -> & _).
  reflexivity.
Defined.

(** ** game.py: win detection *)

Lemma win_lines_are_lines : game.WIN_LINES = lines.
Proof. reflexivity. Qed.

Lemma lines_shape : Forall line_shape lines.
Proof.
  unfold lines, line_shape. simpl.
  repeat (constructor; [do 3 eexists; split; [reflexivity|];
                        unfold in_range; simpl; lia|]).
  constructor.
Qed.

Lemma holds_line3 {A} (g : list (list A)) a b c v :
  holds_line g [a; b; c] v
  ↔ cell_at g a = Some v ∧ cell_at g b = Some v ∧ cell_at g c = Some v.
Proof.
  unfold holds_line. split.
  - intros H. split_and!; apply H; set_solver.
  - intros (Ha & Hb & Hc) p Hp.
    rewrite !elem_of_cons, elem_of_nil in Hp.
    destruct Hp as [->|[->|[->|[]]]]; done.
Qed.

Lemma scan_lines_spec g ls :
  wf_rows g → Forall line_shape ls →
  ∃ w, game.scan_lines g ls = Return w ∧
       (w = None → ∀ line s, line ∈ ls → ¬ holds_line g line (Some s)) ∧
       (∀ s, w = Some s → ∃ line, line ∈ ls ∧ holds_line g line (Some s)).
Proof.
  intros Hwf. induction ls as [|line ls IH]; intros Hls.
  - exists None. split; [done|]. split; [|done].
    intros _ line s Hline. by apply elem_of_nil in Hline.
  - apply Forall_cons in Hls as [(a & b & c & -> & Ha & Hb & Hc) Hls].
    destruct (wf_rows_cell _ _ Hwf Ha) as [s1 H1].
    destruct (wf_rows_cell _ _ Hwf Hb) as [s2 H2].
    destruct (wf_rows_cell _ _ Hwf Hc) as [s3 H3].
    destruct a as [a1 a2], b as [b1 b2], c as [c1 c2]. simpl.
    rewrite (getitem2_cell_at _ _ _ _ H1). simpl.
    rewrite (getitem2_cell_at _ _ _ _ H2). simpl.
    rewrite (getitem2_cell_at _ _ _ _ H3). simpl.
    destruct (bool_decide (s1 ≠ None) && (bool_decide (s1 = s2)
              && bool_decide (s2 = s3))) eqn:Hcond.
    + apply andb_true_iff in Hcond as [Hne Hcond].
      apply andb_true_iff in Hcond as [H12 H23].
      apply bool_decide_eq_true_1 in Hne, H12, H23. subst s2 s3.
      exists s1. split; [done|]. split; [done|].
      intros s ->. exists [(a1, a2); (b1, b2); (c1, c2)].
      split; [set_solver|]. by apply holds_line3.
    + destruct (IH Hls) as (w & Hw & Hnone & Hsome).
      exists w. split; [done|]. split.
      * intros -> line s Hline Hholds.
        apply elem_of_cons in Hline as [->|Hline];
          [|by eapply Hnone].
        apply holds_line3 in Hholds as (E1 & E2 & E3).
        rewrite H1 in E1. rewrite H2 in E2. rewrite H3 in E3.
        injection E1 as ->. injection E2 as ->. injection E3 as ->.
        by rewrite !bool_decide_eq_true_2 in Hcond.
      * intros s Hs. destruct (Hsome s Hs) as (line & Hline & Hholds).
        exists line. split; [set_solver|done].
Qed.

Lemma find_winner_spec g :
  wf_board (game._board g) →
  ∃ w, game._find_winner_symbol g = Return w ∧
       (w = None → no_line (_grid (game._board g))) ∧
       (∀ s, w = Some s → line_of (_grid (game._board g)) s).
Proof.
  intros Hwf. unfold game._find_winner_symbol, game._cell_symbol.
  assert (comprehension (range SIZE) (fun r =>
            comprehension (range SIZE) (fun c =>
              getitem2 (_grid (game._board g)) r c))
          = Return (_grid (game._board g))) as ->.
  { destruct (wf_rows_inv _ Hwf) as (a & b & c & d & e & f & x & y & z & ->).
    reflexivity. }
  cbn [rbind]. rewrite win_lines_are_lines.
  destruct (scan_lines_spec _ lines Hwf lines_shape) as (w & Hw & Hnone & Hsome).
  exists w. split; [done|]. split.
  - intros Hn s (line & Hline & Hholds). by eapply Hnone.
  - done.
Qed.

(** ** game.py: the move transition *)

Lemma set_board_same g : game.set_board (game._board g) g = g.
Proof. by destruct g. Qed.

Lemma update_state_spec g :
  wf_board (game._board g) →
  ∃ w, game._find_winner_symbol g = Return w ∧
       (w = None → no_line (_grid (game._board g))) ∧
       (∀ s, w = Some s → line_of (_grid (game._board g)) s) ∧
       game._update_state_after_move g
       = (Return tt,
          match w with
          | Some s => game.set_winner_symbol (Some s) (game.set_state game.WIN g)
          | None =>
              if bool_decide (full (_grid (game._board g)))
              then game.set_state game.DRAW g
              else g
          end).
Proof.
  intros Hwf.
  destruct (find_winner_spec g Hwf) as (w & Hw & Hnone & Hsome).
  exists w. split_and!; try done.
  unfold game._update_state_after_move, bind, query. rewrite Hw.
  destruct w as [s|].
  - by rewrite bool_decide_eq_true_2.
  - rewrite bool_decide_eq_false_2 by (intros H; by apply H).
    rewrite is_full_spec by done. fold (full (_grid (game._board g))).
    by destruct (bool_decide (full _)).
Qed.

(** The complete case table of [apply_move] from a state in progress. *)
Lemma apply_move_in_progress g row col p :
  wf_board (game._board g) →
  game._state g = game.IN_PROGRESS →
  game.current_player g = Return p →
  match place_mark row col (player.symbol p) (game._board g) with
  | (Raise e, _) => game.apply_move row col g = (Raise e, g)
  | (Return _, b') =>
      let g1 := game.set_board b' g in
      ∃ w, game._find_winner_symbol g1 = Return w ∧
           (w = None → no_line (_grid b')) ∧
           (∀ s, w = Some s → line_of (_grid b') s) ∧
           game.apply_move row col g
           = (Return tt,
              match w with
              | Some s =>
                  game.set_winner_symbol (Some s) (game.set_state game.WIN g1)
              | None =>
                  if bool_decide (full (_grid b'))
                  then game.set_state game.DRAW g1
                  else game.set_turn_idx (Z.lxor (game._turn_idx g) 1) g1
              end)
  end.
Proof.
  intros Hwf Hst Hp.
  pose proof (place_mark_wf (game._board g) row col (player.symbol p) Hwf) as Hwf'.
  unfold game.apply_move, bind, get, query, on_member, player.make_move.
  rewrite bool_decide_eq_false_2 by (intros H; by apply H).
  rewrite Hp. fold (player.symbol p).
  destruct (place_mark row col (player.symbol p) (game._board g))
    as [[e|[]] b'] eqn:Hplace; simpl in *.
  - apply place_mark_raise_unchanged in Hplace as ->; [|done].
    by rewrite set_board_same.
  - destruct (update_state_spec (game.set_board b' g) Hwf')
      as (w & Hw & Hnone & Hsome & Hupd).
    exists w. split_and!; try done.
    rewrite Hupd. destruct w as [s|]; simpl; [done|].
    destruct (bool_decide (full (_grid b'))); simpl; [done|].
    rewrite Hst. simpl. done.
Qed.

(** ** game.py: invariant of the reachable states *)

Lemma no_line_init : no_line (_grid board.__init__).
Proof.
  intros s (line & Hline & Hholds).
  pose proof lines_shape as Hshape.
  rewrite Forall_forall in Hshape.
  destruct (Hshape line Hline) as (a & b & c & -> & Ha & _).
  apply holds_line3 in Hholds as [H _].
  apply in_range_cases in Ha. unfold coords in Ha.
  rewrite !elem_of_cons, elem_of_nil in Ha.
  repeat destruct Ha as [Ha|Ha]; try done; subst a; discriminate.
Qed.

(** A mark placed on an empty cell of a grid without a completed line can
    only complete lines of its own symbol. *)
Lemma line_after_placement {A} (g : list (list A)) r c (blank v w : A) line :
  cell_at g (r, c) = Some blank → in_range (r, c) →
  holds_line (grid_update g r c v) line w →
  w = v ∨ holds_line g line w.
Proof.
  intros Hcell Hrc Hholds.
  destruct (decide ((r, c) ∈ line)) as [Hin|Hout].
  - left. specialize (Hholds _ Hin).
    rewrite cell_at_update in Hholds; [|apply Hrc..|by eexists].
    rewrite decide_True in Hholds by done. by injection Hholds.
  - right. intros p Hp. specialize (Hholds _ Hp).
    rewrite cell_at_update in Hholds; [|apply Hrc..|by eexists].
    rewrite decide_False in Hholds; [done|]. intros ->. done.
Qed.

Lemma current_player_cases g :
  game._turn_idx g = 0 ∨ game._turn_idx g = 1 →
  ∃ p, game.current_player g = Return p ∧
       (game._turn_idx g = 0 ∧ p = (game._players g).1 ∨
        game._turn_idx g = 1 ∧ p = (game._players g).2).
Proof.
  unfold game.current_player. intros [-> | ->]; eexists; split; eauto.
Qed.

Lemma game_inv_init px po ob g0 :
  game.__init__ px po ob = Return g0 →
  (∀ b, ob = Some b → wf_board b ∧ no_line (_grid b)) →
  game_inv g0.
Proof.
  unfold game.__init__. intros Hinit Hob.
  destruct (bool_decide (player.symbol px ≠ "X")) eqn:Hx; [done|].
  destruct (bool_decide (player.symbol po ≠ "O")) eqn:Ho; [done|].
  apply bool_decide_eq_false_1 in Hx, Ho.
  apply dec_stable in Hx, Ho.
  simpl in Hinit. injection Hinit as <-.
  unfold game_inv. simpl. split_and!; try done; auto.
  - destruct ob as [b|]; [by apply Hob|apply wf_board_init].
  - intros _. destruct ob as [b|]; [by apply Hob|apply no_line_init].
Qed.

Lemma game_inv_apply_move g row col :
  game_inv g → game_inv (game.apply_move row col g).2.
Proof.
  intros Hinv.
  destruct (decide (game._state g = game.IN_PROGRESS)) as [Hst|Hst].
  2: { unfold game.apply_move, bind, get.
       by rewrite bool_decide_eq_true_2. }
  destruct Hinv as (Hwf & Hx & Ho & Hidx & Hnoline & Hnowin & Hwin).
  destruct (current_player_cases g Hidx) as (p & Hp & Hwho).
  pose proof (apply_move_in_progress g row col p Hwf Hst Hp) as Hmove.
  pose proof (place_mark_wf (game._board g) row col (player.symbol p) Hwf) as Hwf'.
  pose proof (place_mark_cases (game._board g) row col (player.symbol p) Hwf)
    as Hcases.
  destruct (place_mark row col (player.symbol p) (game._board g))
    as [[e|[]] b'] eqn:Hplace.
  - rewrite Hmove. simpl. by split_and!.
  - simpl in Hmove, Hwf'.
    destruct Hmove as (w & _ & Hnone & Hsome & ->).
    destruct (decide (in_range (row, col))) as [Hrc|]; [|done].
    destruct (decide (_ ∨ _)); [|done].
    destruct (cell_at _ _) as [[|]|] eqn:Hcell; try done.
    injection Hcases as ->. simpl in *.
    destruct w as [s|]; simpl.
    + split_and!; try done. intros _.
      assert (s = player.symbol p) as ->.
      { destruct (Hsome s eq_refl) as (line & Hline & Hholds).
        destruct (line_after_placement _ _ _ _ _ _ _ Hcell Hrc Hholds)
          as [[=]|Hold]; [done|].
        destruct (Hnoline Hst s). by exists line. }
      exists p. split_and!; auto.
    + assert (game._winner_symbol g = None) as Hw
        by (apply Hnowin; by rewrite Hst).
      destruct (bool_decide (full _)); simpl.
      * by split_and!.
      * split_and!; try done.
        -- destruct Hidx as [-> | ->]; auto.
        -- intros _. by apply Hnone.
        -- unfold game.set_turn_idx, game.set_board. simpl. by rewrite Hst.
Qed.

Lemma game_reset_spec g :
  wf_board (game._board g) →
  game.reset g
  = (Return tt,
     game.mkGame board.__init__ (game._players g) 0 game.IN_PROGRESS None).
Proof.
  intros Hwf. unfold game.reset, bind, on_member.
  by rewrite reset_spec.
Qed.

Lemma game_inv_reset g : game_inv g → game_inv (game.reset g).2.
Proof.
  intros (Hwf & Hx & Ho & _). rewrite game_reset_spec by done.
  unfold game_inv. simpl. split_and!; try done; auto.
  - apply wf_board_init.
  - intros _. apply no_line_init.
Qed.


Lemma keeps_players_bind {A B} (m : M game.Game A) (k : A → M game.Game B) :
  keeps_players m → (∀ a, keeps_players (k a)) → keeps_players (bind m k).
Proof.
  intros Hm Hk g. unfold bind. specialize (Hm g).
  destruct (m g) as [[e|a] g']; simpl in *; [done|].
  by rewrite Hk.
Qed.

Lemma keeps_players_on_board {A} (m : M Board A) :
  keeps_players (on_member game._board game.set_board m).
Proof. intros g. unfold on_member. by destruct (m (game._board g)). Qed.

Lemma keeps_players_swap_turn : keeps_players game._swap_turn.
Proof. by intros g. Qed.

Lemma keeps_players_update_state :
  keeps_players game._update_state_after_move.
Proof.
  unfold game._update_state_after_move.
  apply keeps_players_bind; [by intros g|]. intros w.
  destruct (bool_decide (w ≠ None)).
  - apply keeps_players_bind; by intros g.
  - apply keeps_players_bind; [by intros g|]. intros []; by intros g.
Qed.

Lemma keeps_players_apply_move row col :
  keeps_players (game.apply_move row col).
Proof.
  unfold game.apply_move.
  apply keeps_players_bind; [by intros g|]. intros self.
  destruct (bool_decide (game._state self ≠ game.IN_PROGRESS)); [by intros g|].
  apply keeps_players_bind; [by intros g|]. intros p.
  apply keeps_players_bind; [apply keeps_players_on_board|]. intros _.
  apply keeps_players_bind; [apply keeps_players_update_state|]. intros _.
  apply keeps_players_bind; [by intros g|]. intros self'.
  destruct (bool_decide _); [apply keeps_players_swap_turn|by intros g].
Qed.

Lemma keeps_players_reset : keeps_players game.reset.
Proof.
  unfold game.reset.
  apply keeps_players_bind; [apply keeps_players_on_board|]. intros _.
  repeat (apply keeps_players_bind; [by intros g|]; intros _).
  by intros g.
Qed.

Lemma reachable_players g0 g :
  reachable g0 g → game._players g = game._players g0.
Proof.
  induction 1 as [|g row col _ IH|g _ IH]; [done|..].
  - by rewrite keeps_players_apply_move.
  - by rewrite keeps_players_reset.
Qed.


(** ** revised_tictactoe_onescript.py: the move transition *)

Lemma script_make_move_cases p b row col :
  wf_script_board b →
  onescript.Player_make_move p row col b
  = if decide (in_range (row, col) ∧
               (onescript.symbol p = "X" ∨ onescript.symbol p = "O") ∧
               cell_at (onescript.grid b) (row, col) = Some " ")
    then (Return true,
          onescript.mkBoard (onescript.size b)
            (grid_update (onescript.grid b) row col (onescript.symbol p)))
    else (Return false, b).
Proof.
  intros Hwf. unfold onescript.Player_make_move, try_except.
  rewrite script_place_mark_cases by done.
  destruct Hwf as [_ Hwf].
  destruct (decide (onescript.symbol p = "X" ∨ onescript.symbol p = "O"));
    [|by rewrite decide_False by tauto].
  destruct (decide (in_range (row, col))) as [Hrc|];
    [|by rewrite decide_False by tauto].
  destruct (wf_rows_cell _ _ Hwf Hrc) as [v ->].
  destruct (decide (v = " ")) as [->|].
  - by rewrite decide_True.
  - rewrite decide_False; [done|]. intros (_ & _ & [=]). done.
Qed.

Lemma forallb_holds_line (g : list (list string)) line vals s :
  Forall2 (fun p v => cell_at g p = Some v) line vals →
  forallb (fun cell => bool_decide (cell = s)) vals = true
  ↔ holds_line g line s.
Proof.
  unfold holds_line. induction 1 as [|p v line vals Hp _ IH]; simpl.
  - split; [|done]. intros _ p Hp. by apply elem_of_nil in Hp.
  - rewrite andb_true_iff, IH, bool_decide_eq_true. split.
    + intros [-> Hrest] q [->|Hq]%elem_of_cons; auto.
    + intros Hall. split.
      * specialize (Hall p). rewrite Hp in Hall.
        assert (Some v = Some s) as [=] by (apply Hall; set_solver). done.
      * intros q Hq. apply Hall. set_solver.
Qed.

Lemma existsb_lines (g : list (list string)) ls vls s :
  Forall2 (Forall2 (fun p v => cell_at g p = Some v)) ls vls →
  existsb (forallb (fun cell => bool_decide (cell = s))) vls = true
  ↔ ∃ line, line ∈ ls ∧ holds_line g line s.
Proof.
  induction 1 as [|line vals ls vls Hline _ IH]; simpl.
  - split; [done|]. intros (line & Hin & _). by apply elem_of_nil in Hin.
  - rewrite orb_true_iff, IH, (forallb_holds_line g line) by done. split.
    + intros [Hh|(l & Hin & Hh)]; [exists line|exists l]; split;
        auto; set_solver.
    + intros (l & [->|Hin]%elem_of_cons & Hh); [by left|].
      right. by exists l.
Qed.

Lemma script_lines_spec e :
  wf_script_board (onescript.board e) →
  ∃ vls, onescript.GameEngine_lines e = Return vls ∧
         Forall2 (Forall2 (fun p v =>
                    cell_at (onescript.grid (onescript.board e)) p = Some v))
                 lines vls.
Proof.
  intros [Hsize Hwf]. unfold onescript.GameEngine_lines. rewrite Hsize.
  destruct (wf_rows_inv _ Hwf) as (a & b & c & d & e0 & f & x & y & z & ->).
  eexists. split; [reflexivity|].
  unfold lines. simpl. repeat constructor.
Qed.

Lemma script_check_winner_spec e s :
  wf_script_board (onescript.board e) →
  ∃ won, onescript.GameEngine_check_winner s e = Return won ∧
         (won = true ↔
          ∃ line, line ∈ lines ∧
                  holds_line (onescript.grid (onescript.board e)) line s).
Proof.
  intros Hwf. destruct (script_lines_spec e Hwf) as (vls & Hvls & Hrel).
  unfold onescript.GameEngine_check_winner. rewrite Hvls. simpl.
  eexists. split; [reflexivity|]. by apply existsb_lines.
Qed.

Lemma script_is_full_spec b :
  wf_script_board b →
  onescript.Board_is_full b
  = bool_decide (script_full (onescript.grid b)).
Proof.
  intros [_ Hwf].
  destruct (wf_rows_inv _ Hwf) as (a & b0 & c & d & e & f & x & y & z & Hg).
  unfold onescript.Board_is_full, script_full. rewrite Hg.
  apply eq_true_iff_eq. rewrite bool_decide_eq_true.
  unfold coords. simpl.
  rewrite !andb_true_iff, !bool_decide_eq_true, !Forall_cons, Forall_nil.
  unfold cell_at; simpl. naive_solver.
Qed.

Lemma status_in_progress e :
  status e = InProgress
  ↔ onescript.winner e = None ∧ onescript.is_draw e = false.
Proof.
  unfold status. destruct (onescript.winner e), (onescript.is_draw e);
    simpl; naive_solver.
Qed.

Lemma script_set_board_same e :
  onescript.set_board (onescript.board e) e = e.
Proof. by destruct e. Qed.

Lemma script_current_player_set_board b e :
  onescript.GameEngine_current_player (onescript.set_board b e)
  = onescript.GameEngine_current_player e.
Proof. reflexivity. Qed.

(** The complete case table of [play_turn] from a state in progress. *)
Lemma script_play_turn_in_progress e row col p :
  wf_script_board (onescript.board e) →
  status e = InProgress →
  onescript.GameEngine_current_player e = Return p →
  if decide (in_range (row, col) ∧
             (onescript.symbol p = "X" ∨ onescript.symbol p = "O") ∧
             cell_at (onescript.grid (onescript.board e)) (row, col)
             = Some " ")
  then
    let b' := onescript.mkBoard (onescript.size (onescript.board e))
                (grid_update (onescript.grid (onescript.board e)) row col
                   (onescript.symbol p)) in
    let e1 := onescript.set_board b' e in
    ∃ won,
      (won = true ↔
       ∃ line, line ∈ lines ∧
               holds_line (onescript.grid b') line (onescript.symbol p)) ∧
      onescript.GameEngine_play_turn row col e
      = (Return true,
         if won then onescript.set_winner (Some p) e1
         else if bool_decide (script_full (onescript.grid b'))
              then onescript.set_is_draw true e1
              else onescript.set_current_index
                     (1 - onescript.current_index e) e1)
  else onescript.GameEngine_play_turn row col e = (Return false, e).
Proof.
  intros Hwf [Hw Hd]%status_in_progress Hp.
  pose proof (wf_script_board_update (onescript.board e) row col
                (onescript.symbol p) Hwf) as Hwf'.
  unfold onescript.GameEngine_play_turn, bind, get, query, on_member.
  rewrite Hw, Hd, bool_decide_eq_false_2 by (intros H; by apply H). simpl.
  rewrite Hp, script_make_move_cases by done.
  destruct (decide (in_range (row, col) ∧ _ ∧ _)) as [Hok|Hok].
  - destruct Hok as (Hrc & Hs & Hcell).
    simpl.
    set (b' := onescript.mkBoard _ _) in *.
    rewrite script_current_player_set_board, Hp.
    destruct (script_check_winner_spec (onescript.set_board b' e)
                (onescript.symbol p) Hwf') as (won & Hwon & Hiff).
    rewrite Hwon. exists won. split; [exact Hiff|].
    destruct won; [by rewrite script_current_player_set_board, Hp|].
    change (onescript.board (onescript.set_board b' e)) with b'.
    rewrite script_is_full_spec by done.
    by destruct (bool_decide (script_full _)).
  - simpl. by rewrite script_set_board_same.
Qed.

Lemma script_no_line_init : script_no_line (onescript.grid onescript.Board_init).
Proof.
  intros s (Hs & line & Hline & Hholds).
  pose proof lines_shape as Hshape.
  rewrite Forall_forall in Hshape.
  destruct (Hshape line Hline) as (a & b & c & -> & Ha & _).
  apply holds_line3 in Hholds as [H _].
  apply in_range_cases in Ha. unfold coords in Ha.
  rewrite !elem_of_cons, elem_of_nil in Ha.
  repeat destruct Ha as [Ha|Ha]; try done; subst a;
    injection H as <-; done.
Qed.

Lemma script_inv_init p1 p2 : script_inv (onescript.GameEngine_init p1 p2).
Proof.
  unfold script_inv. simpl. split_and!; auto.
  - apply wf_script_board_init.
  - intros _. apply script_no_line_init.
  - done.
Qed.

Lemma script_current_player_cases e :
  onescript.current_index e = 0 ∨ onescript.current_index e = 1 →
  ∃ p, onescript.GameEngine_current_player e = Return p ∧
       (onescript.current_index e = 0 ∧ p = onescript.player_one e ∨
        onescript.current_index e = 1 ∧ p = onescript.player_two e).
Proof.
  unfold onescript.GameEngine_current_player.
  intros [-> | ->]; eexists; split; eauto.
Qed.

Lemma script_terminal_play_turn e row col :
  status e ≠ InProgress →
  onescript.GameEngine_play_turn row col e = (Return false, e).
Proof.
  intros Hst. unfold onescript.GameEngine_play_turn, bind, get.
  unfold status in Hst.
  destruct (bool_decide (onescript.winner e ≠ None)); [done|].
  destruct (onescript.is_draw e); done.
Qed.

Lemma script_inv_play_turn e row col :
  script_inv e → script_inv (onescript.GameEngine_play_turn row col e).2.
Proof.
  intros Hinv.
  destruct (decide (status e = InProgress)) as [Hst|Hst];
    [|by rewrite script_terminal_play_turn].
  destruct Hinv as (Hwf & Hidx & Hnoline & Hwin).
  destruct (script_current_player_cases e Hidx) as (p & Hp & _).
  pose proof (script_play_turn_in_progress e row col p Hwf Hst Hp) as Hmove.
  pose proof (wf_script_board_update (onescript.board e) row col
                (onescript.symbol p) Hwf) as Hwf'.
  destruct (decide (in_range (row, col) ∧ _ ∧ _)) as [Hok|Hok];
    [|rewrite Hmove; by split_and!].
  destruct Hok as (Hrc & Hs & Hcell).
  simpl in Hmove.
  destruct Hmove as (won & Hiff & ->). simpl.
  apply status_in_progress in Hst as Hfields. destruct Hfields as [Hw Hd].
  assert (Hsp : onescript.symbol p ≠ " ") by (destruct Hs as [-> | ->]; done).
  destruct won.
  - unfold script_inv, status. simpl. split_and!; try done.
    intros w [= <-]. split; [done|]. split; [done|]. by apply Hiff.
  - assert (Hno : script_no_line
                    (grid_update (onescript.grid (onescript.board e)) row col
                       (onescript.symbol p))).
    { intros s (Hsblank & line & Hline & Hholds).
      destruct (line_after_placement _ _ _ _ _ _ _ Hcell Hrc Hholds)
        as [->|Hold].
      - assert (false = true) by (apply Hiff; by exists line). done.
      - apply (Hnoline Hst s). split; [done|]. by exists line. }
    destruct (bool_decide (script_full _)).
    + unfold script_inv, status. simpl. rewrite Hw. split_and!; try done.
    + unfold script_inv, status. simpl. rewrite Hw, Hd.
      split_and!; try done.
      destruct Hidx as [-> | ->]; auto.
Qed.

Lemma script_reachable_inv e0 e :
  script_inv e0 → script_reachable e0 e → script_inv e.
Proof. intros H0. induction 1; auto using script_inv_play_turn. Qed.

Lemma game_shape_init px po ob g0 :
  game.__init__ px po ob = Return g0 →
  (∀ b, ob = Some b → wf_board b) →
  game_shape g0 ∧ game._players g0 = (px, po) ∧ game._turn_idx g0 = 0 ∧
  game._state g0 = game.IN_PROGRESS ∧ game._winner_symbol g0 = None ∧
  game._board g0 = match ob with Some b => b | None => board.__init__ end.
Proof.
  unfold game.__init__. intros Hinit Hob.
  destruct (bool_decide (player.symbol px ≠ "X")) eqn:Hx; [done|].
  destruct (bool_decide (player.symbol po ≠ "O")) eqn:Ho; [done|].
  apply bool_decide_eq_false_1 in Hx, Ho.
  apply dec_stable in Hx, Ho.
  simpl in Hinit. injection Hinit as <-.
  unfold game_shape. simpl. split_and!; try done; auto.
  destruct ob as [b|]; [by apply Hob|apply wf_board_init].
Qed.

Lemma game_shape_apply_move g row col :
  game_shape g → game_shape (game.apply_move row col g).2.
Proof.
  intros Hshape.
  destruct (decide (game._state g = game.IN_PROGRESS)) as [Hst|Hst].
  2: { unfold game.apply_move, bind, get.
       by rewrite bool_decide_eq_true_2. }
  destruct Hshape as (Hwf & Hx & Ho & Hidx).
  destruct (current_player_cases g Hidx) as (p & Hp & _).
  pose proof (apply_move_in_progress g row col p Hwf Hst Hp) as Hmove.
  pose proof (place_mark_wf (game._board g) row col (player.symbol p) Hwf) as Hwf'.
  destruct (place_mark row col (player.symbol p) (game._board g))
    as [[e|[]] b'].
  - rewrite Hmove. by split_and!.
  - simpl in Hmove, Hwf'. destruct Hmove as (w & _ & _ & _ & ->).
    destruct w as [s|]; [by split_and!|].
    destruct (bool_decide (full _)); [by split_and!|].
    unfold game_shape. simpl. split_and!; try done.
    destruct Hidx as [-> | ->]; auto.
Qed.

Lemma game_shape_reset g : game_shape g → game_shape (game.reset g).2.
Proof.
  intros (Hwf & Hx & Ho & _). rewrite game_reset_spec by done.
  unfold game_shape. simpl. split_and!; auto. apply wf_board_init.
Qed.

Lemma reachable_shape g0 g : game_shape g0 → reachable g0 g → game_shape g.
Proof.
  intros H0. induction 1;
    auto using game_shape_apply_move, game_shape_reset.
Qed.

(** ** Claim C2: terminal states reject every move *)

(** C2: in every engine state whose status is Won or Draw, every call of
    [apply_move] raises GameAlreadyOver (every call of [play_turn] returns
    [False] in the boolean variant) and the whole engine state (board,
    status, winning symbol, active player index) is unchanged, for all
    [row] and [col]. *)
Theorem terminal_state_rejects_moves :
  (∀ g row col,
     game._state g = game.WIN ∨ game._state g = game.DRAW →
     game.apply_move row col g = (Raise (RuntimeError GameAlreadyOver), g)) ∧
  (∀ e row col,
     status e = Won ∨ status e = Draw →
     onescript.GameEngine_play_turn row col e = (Return false, e)).
Proof.
  split.
  - intros g row col Hst. unfold game.apply_move, bind, get.
    rewrite bool_decide_eq_true_2; [done|].
    destruct Hst as [-> | ->]; done.
  - intros e row col Hst. apply script_terminal_play_turn.
    destruct Hst as [-> | ->]; done.
Qed.

(** C2, witness: a won multi-file game and a drawn single-script game. *)
Lemma terminal_state_rejects_moves_witness :
  game.apply_move 1 2 game_won = (Raise (RuntimeError GameAlreadyOver), game_won) ∧
  onescript.GameEngine_play_turn 1 2 script_engine_drawn
  = (Return false, script_engine_drawn).
Proof.
  split.
  - apply (proj1 terminal_state_rejects_moves). left. reflexivity.
  - apply (proj2 terminal_state_rejects_moves). right. reflexivity.
Defined.

(** ** Claim C5: engine construction *)

(** C5, as stated, fails on the single-script variant: [GameEngine] is
    built from two players who both hold X, and the engine so built accepts
    a move. *)
Lemma script_engine_accepts_two_x_players :
  onescript.Player_init "Ann" "X" = Return script_ann ∧
  onescript.Player_init "Bob" "X" = Return script_bob_x ∧
  let e := onescript.GameEngine_init script_ann script_bob_x in
  onescript.symbol (onescript.player_one e) = "X" ∧
  onescript.symbol (onescript.player_two e) = "X" ∧
  status e = InProgress ∧
  (onescript.GameEngine_play_turn 0 0 e).1 = Return true.
Proof. by vm_compute. Qed.

(** C5 (amended): constructing the multi-file [Game] succeeds exactly when
    the first player holds X and the second holds O, and raises
    InvalidPlayerSetup otherwise; so it fails whenever the two players do
    not hold the complementary pair, in particular whenever both hold the
    same symbol.  The single-script [GameEngine] validates nothing: it is
    built, in progress, from any two players. *)
Theorem game_init_requires_x_then_o :
  (∀ px po ob,
     (player.symbol px = "X" ∧ player.symbol po = "O" →
      ∃ g, game.__init__ px po ob = Return g ∧
           game._players g = (px, po)) ∧
     (¬ (player.symbol px = "X" ∧ player.symbol po = "O") →
      game.__init__ px po ob = Raise (ValueError InvalidPlayerSetup)) ∧
     (¬ ((player.symbol px = "X" ∧ player.symbol po = "O") ∨
         (player.symbol px = "O" ∧ player.symbol po = "X")) →
      game.__init__ px po ob = Raise (ValueError InvalidPlayerSetup)) ∧
     (player.symbol px = player.symbol po →
      game.__init__ px po ob = Raise (ValueError InvalidPlayerSetup))) ∧
  (∀ p1 p2,
     let e := onescript.GameEngine_init p1 p2 in
     onescript.player_one e = p1 ∧ onescript.player_two e = p2 ∧
     status e = InProgress).
Proof.
  split; [|done].
  intros px po ob.
  assert (Hfail : ¬ (player.symbol px = "X" ∧ player.symbol po = "O") →
                  game.__init__ px po ob = Raise (ValueError InvalidPlayerSetup)).
  { intros Hno. unfold game.__init__.
    destruct (bool_decide (player.symbol px ≠ "X")) eqn:Hx; [done|].
    destruct (bool_decide (player.symbol po ≠ "O")) eqn:Ho; [done|].
    apply bool_decide_eq_false_1 in Hx, Ho.
    apply dec_stable in Hx, Ho. tauto. }
  split_and!.
  - intros [Hx Ho]. unfold game.__init__.
    rewrite !bool_decide_eq_false_2 by (intros H; by apply H).
    simpl. by eexists.
  - done.
  - intros Hno. apply Hfail. tauto.
  - intros Heq. apply Hfail. intros [Hx Ho]. congruence.
Qed.

(** C5, witness: Ann (X) and Bob (O) in this order build a game; in the
    other order they do not. *)
Lemma game_init_requires_x_then_o_witness :
  (∃ g, game.__init__ ann bob None = Return g ∧ game._players g = (ann, bob)) ∧
  game.__init__ bob ann None = Raise (ValueError InvalidPlayerSetup).
Proof.
  destruct (proj1 game_init_requires_x_then_o ann bob None) as (Hok & Hfail & _).
  split.
  - apply Hok. split; reflexivity.
  - apply (proj1 (proj2 (proj1 game_init_requires_x_then_o bob ann None))).
    intros [H _]. discriminate H.
Defined.

(** ** Claim C7: reset *)

Lemma fresh_board_observables :
  (∀ p, in_range p → cell_at (_grid board.__init__) p = Some None) ∧
  available_moves board.__init__ = Return coords ∧
  is_full board.__init__ = Return false ∧
  __str__ board.__init__
  = Return ("   |   |   " +:+ newline +:+ "---+---+---" +:+ newline +:+
            "   |   |   " +:+ newline +:+ "---+---+---" +:+ newline +:+
            "   |   |   ").
Proof.
  split_and!; try reflexivity.
  intros p Hp%in_range_cases. unfold coords in Hp.
  rewrite !elem_of_cons, elem_of_nil in Hp.
  repeat destruct Hp as [Hp|Hp]; try done; by subst p.
Qed.

(** C7: [reset] turns any 3x3 board into the freshly constructed board, so
    every cell is empty and [is_cell_empty], [available_moves], [is_full]
    and the rendering answer as on a fresh board; the engine's [reset]
    turns any state of a constructed engine into the state in progress on
    an all-empty board, with no winning symbol and the first player, who
    holds X, to move. *)
Theorem reset_restores_fresh :
  (∀ b, wf_board b →
     board.reset b = (Return tt, board.__init__) ∧
     let b' := (board.reset b).2 in
     (∀ p, in_range p → cell_at (_grid b') p = Some None) ∧
     (∀ row col, (is_cell_empty row col b').1
                 = (is_cell_empty row col board.__init__).1) ∧
     available_moves b' = available_moves board.__init__ ∧
     available_moves b' = Return coords ∧
     is_full b' = is_full board.__init__ ∧
     is_full b' = Return false ∧
     __str__ b' = __str__ board.__init__) ∧
  (∀ px po ob g0 g,
     game.__init__ px po ob = Return g0 →
     (∀ b, ob = Some b → wf_board b) →
     reachable g0 g →
     ∃ g', game.reset g = (Return tt, g') ∧
           game._state g' = game.IN_PROGRESS ∧
           game._board g' = board.__init__ ∧
           (∀ p, in_range p → cell_at (_grid (game._board g')) p = Some None) ∧
           game._winner_symbol g' = None ∧
           game._turn_idx g' = 0 ∧
           game._players g' = (px, po) ∧
           game.current_player g' = Return px ∧
           player.symbol px = "X").
Proof.
  destruct fresh_board_observables as (Hcells & Hmoves & Hfull & Hstr).
  split.
  - intros b Hwf. rewrite reset_spec by done. simpl. by split_and!.
  - intros px po ob g0 g Hinit Hob Hreach.
    destruct (game_shape_init _ _ _ _ Hinit Hob)
      as (Hshape0 & Hplayers0 & _).
    pose proof (reachable_shape _ _ Hshape0 Hreach) as (Hwf & Hx & _).
    pose proof (reachable_players _ _ Hreach) as Hplayers.
    rewrite Hplayers0 in Hplayers.
    eexists. split; [by apply game_reset_spec|]. simpl.
    rewrite Hplayers in Hx |- *. by split_and!.
Qed.

Lemma game_fresh_init : game.__init__ ann bob None = Return game_fresh.
Proof. reflexivity. Qed.

(** X at (0,0), O at (1,0), X at (0,1), O at (1,1), X at (0,2). *)
Lemma game_won_reachable : reachable game_fresh game_won.
Proof.
  change game_won with
    (game.apply_move 0 2
       (game.apply_move 1 1
          (game.apply_move 0 1
             (game.apply_move 1 0
                (game.apply_move 0 0 game_fresh).2).2).2).2).2.
  repeat apply reachable_apply_move. apply reachable_init.
Qed.

(** C7, witness: resetting the won game of Ann and Bob. *)
Lemma reset_restores_fresh_witness :
  ∃ g', game.reset game_won = (Return tt, g') ∧
        game._state g' = game.IN_PROGRESS ∧
        game._board g' = board.__init__ ∧
        game.current_player g' = Return ann.
Proof.
  assert (Hob : ∀ b : Board, None = Some b → wf_board b) by (intros b [=]).
  destruct (proj2 reset_restores_fresh _ _ _ _ _ game_fresh_init Hob
              game_won_reachable)
    as (g' & Hreset & Hst & Hboard & _ & _ & _ & _ & Hcur & _).
  exists g'. by split_and!.
Defined.

(** ** Successful moves *)

(** What a successful [apply_move] did. *)
Lemma apply_move_success g row col g' :
  game_shape g →
  game.apply_move row col g = (Return tt, g') →
  ∃ p w,
    game._state g = game.IN_PROGRESS ∧
    game.current_player g = Return p ∧
    in_range (row, col) ∧
    cell_at (_grid (game._board g)) (row, col) = Some None ∧
    let b' := mkBoard (grid_update (_grid (game._board g)) row col
                         (Some (player.symbol p))) in
    let g1 := game.set_board b' g in
    (w = None → no_line (_grid b')) ∧
    (∀ s, w = Some s → line_of (_grid b') s) ∧
    g' = match w with
         | Some s =>
             game.set_winner_symbol (Some s) (game.set_state game.WIN g1)
         | None =>
             if bool_decide (full (_grid b'))
             then game.set_state game.DRAW g1
             else game.set_turn_idx (Z.lxor (game._turn_idx g) 1) g1
         end.
Proof.
  intros (Hwf & _ & _ & Hidx) Hmove.
  destruct (decide (game._state g = game.IN_PROGRESS)) as [Hst|Hst].
  2: { unfold game.apply_move, bind, get in Hmove.
       by rewrite bool_decide_eq_true_2 in Hmove. }
  destruct (current_player_cases g Hidx) as (p & Hp & _).
  pose proof (apply_move_in_progress g row col p Hwf Hst Hp) as Hcase.
  rewrite place_mark_cases in Hcase by done.
  destruct (decide (in_range (row, col)));
    [|by rewrite Hcase in Hmove].
  destruct (decide (_ ∨ _)); [|by rewrite Hcase in Hmove].
  destruct (cell_at _ _) as [[|]|] eqn:Hcell;
    try (by rewrite Hcase in Hmove).
  simpl in Hcase. destruct Hcase as (w & _ & Hnone & Hsome & Heq).
  rewrite Heq in Hmove. injection Hmove as <-.
  exists p, w. by split_and!.
Qed.

(** What a successful [play_turn] did. *)
Lemma script_play_turn_success e row col e' :
  wf_script_board (onescript.board e) →
  onescript.current_index e = 0 ∨ onescript.current_index e = 1 →
  onescript.GameEngine_play_turn row col e = (Return true, e') →
  ∃ p won,
    status e = InProgress ∧
    onescript.GameEngine_current_player e = Return p ∧
    in_range (row, col) ∧
    (onescript.symbol p = "X" ∨ onescript.symbol p = "O") ∧
    cell_at (onescript.grid (onescript.board e)) (row, col) = Some " " ∧
    let b' := onescript.mkBoard (onescript.size (onescript.board e))
                (grid_update (onescript.grid (onescript.board e)) row col
                   (onescript.symbol p)) in
    let e1 := onescript.set_board b' e in
    (won = true ↔
     ∃ line, line ∈ lines ∧
             holds_line (onescript.grid b') line (onescript.symbol p)) ∧
    e' = if won then onescript.set_winner (Some p) e1
         else if bool_decide (script_full (onescript.grid b'))
              then onescript.set_is_draw true e1
              else onescript.set_current_index
                     (1 - onescript.current_index e) e1.
Proof.
  intros Hwf Hidx Hmove.
  destruct (decide (status e = InProgress)) as [Hst|Hst];
    [|by rewrite script_terminal_play_turn in Hmove].
  destruct (script_current_player_cases e Hidx) as (p & Hp & _).
  pose proof (script_play_turn_in_progress e row col p Hwf Hst Hp) as Hcase.
  destruct (decide (in_range (row, col) ∧ _ ∧ _)) as [(Hrc & Hs & Hcell)|];
    [|by rewrite Hcase in Hmove].
  simpl in Hcase. destruct Hcase as (won & Hiff & Heq).
  rewrite Heq in Hmove. injection Hmove as <-.
  exists p, won. by split_and!.
Qed.

(** ** Claim C9: the winner is the player to move *)




(** ** Claim C1: outcome after a successful placement *)



(** X at (0,0), O at (1,0), X at (0,1), O at (1,1). *)
Lemma game_before_win_reachable : reachable game_fresh game_before_win.
Proof.
  change game_before_win with
    (game.apply_move 1 1
       (game.apply_move 0 1
          (game.apply_move 1 0
             (game.apply_move 0 0 game_fresh).2).2).2).2.
  repeat apply reachable_apply_move. apply reachable_init.
Qed.

(** X (0,0), O (0,1), X (0,2), O (1,1), X (1,0), O (1,2), X (2,1),
    O (2,0). *)
Lemma script_engine_before_draw_reachable :
  script_reachable script_engine_fresh script_engine_before_draw.
Proof.
  change script_engine_before_draw with
    (onescript.GameEngine_play_turn 2 0
      (onescript.GameEngine_play_turn 2 1
        (onescript.GameEngine_play_turn 1 2
          (onescript.GameEngine_play_turn 1 0
            (onescript.GameEngine_play_turn 1 1
              (onescript.GameEngine_play_turn 0 2
                (onescript.GameEngine_play_turn 0 1
                  (onescript.GameEngine_play_turn 0 0
                     script_engine_fresh).2).2).2).2).2).2).2).2.
  repeat apply script_reachable_play_turn. apply script_reachable_init.
Qed.



(** ** Claim C4: turn order *)

(** C4, as stated, fails on the single-script variant: an engine built
    from Bob (O) and Ann (X), in this order, starts with Bob, who holds O,
    as the active player; the holder of X is seated second. *)
Lemma script_engine_can_start_with_o :
  onescript.Player_init "Bob" "O" = Return script_bob ∧
  onescript.Player_init "Ann" "X" = Return script_ann ∧
  let e := onescript.GameEngine_init script_bob script_ann in
  onescript.GameEngine_current_player e = Return script_bob ∧
  onescript.symbol script_bob ≠ "X" ∧
  onescript.symbol (onescript.player_two e) = "X".
Proof. by vm_compute. Qed.

Lemma script_create_console_game_spec n1 n2 vs e :
  onescript.create_console_game n1 n2 vs = Return e →
  ∃ p1 p2, e = onescript.GameEngine_init p1 p2 ∧
           onescript.symbol p1 = "X" ∧ onescript.symbol p2 = "O".
Proof.
  unfold onescript.create_console_game. simpl.
  destruct vs; [|destruct n2 as [n|]]; simpl; intros [= <-]; by eexists _, _.
Qed.

Lemma script_play_turn_outcomes e row col :
  script_inv e →
  (∃ e', onescript.GameEngine_play_turn row col e = (Return true, e')) ∨
  onescript.GameEngine_play_turn row col e = (Return false, e).
Proof.
  intros (Hwf & Hidx & _).
  destruct (decide (status e = InProgress)) as [Hst|Hst];
    [|right; by apply script_terminal_play_turn].
  destruct (script_current_player_cases e Hidx) as (p & Hp & _).
  pose proof (script_play_turn_in_progress e row col p Hwf Hst Hp) as Hcase.
  destruct (decide (in_range (row, col) ∧ _ ∧ _)); [|by right].
  simpl in Hcase. destruct Hcase as (won & _ & ->). left. by eexists.
Qed.

Lemma script_play_turn_players e row col :
  script_inv e →
  let e' := (onescript.GameEngine_play_turn row col e).2 in
  onescript.player_one e' = onescript.player_one e ∧
  onescript.player_two e' = onescript.player_two e.
Proof.
  intros Hinv.
  destruct (script_play_turn_outcomes e row col Hinv) as [[e' He']|He'];
    rewrite He'; simpl; [|done].
  destruct Hinv as (Hwf & Hidx & _).
  destruct (script_play_turn_success e row col e' Hwf Hidx He')
    as (p & won & _ & _ & _ & _ & _ & _ & ->).
  destruct won; [done|]. by destruct (bool_decide (script_full _)).
Qed.

Lemma script_reachable_players p1 p2 e :
  script_reachable (onescript.GameEngine_init p1 p2) e →
  onescript.player_one e = p1 ∧ onescript.player_two e = p2.
Proof.
  intros Hreach.
  induction Hreach as [|e row col Hreach [IH1 IH2]]; [done|].
  pose proof (script_reachable_inv _ _ (script_inv_init p1 p2) Hreach)
    as Hinv.
  destruct (script_play_turn_players e row col Hinv) as [H1 H2].
  by rewrite H1, H2.
Qed.

(** C4 (amended): in the initial engine state the first-seated player
    (index 0) is the active player; this is the holder of X in the
    multi-file variant, whose constructor enforces it, and in every
    single-script engine built by [create_console_game], while a
    single-script [GameEngine] built directly seats first whichever player
    is passed first.  After every successful move that leaves the game
    InProgress the active player switches to the other player; after a
    successful terminal move the active player does not change; and when
    the delegated placement fails, the failure propagates (as the raised
    exception, or as [False] in the boolean variant) and the engine state
    is unchanged. *)
Theorem turn_order :
  (∀ px po ob g0,
     game.__init__ px po ob = Return g0 →
     (∀ b, ob = Some b → wf_board b) →
     (game._turn_idx g0 = 0 ∧ game.current_player g0 = Return px ∧
      player.symbol px = "X") ∧
     ∀ g row col,
       reachable g0 g →
       let out := game.apply_move row col g in
       (out.1 = Return tt → game._state out.2 = game.IN_PROGRESS →
          game._turn_idx out.2 = 1 - game._turn_idx g ∧
          ∃ p p', game.current_player g = Return p ∧
                  game.current_player out.2 = Return p' ∧
                  (p = px ∧ p' = po ∨ p = po ∧ p' = px)) ∧
       (out.1 = Return tt → game._state out.2 ≠ game.IN_PROGRESS →
          game._turn_idx out.2 = game._turn_idx g ∧
          game.current_player out.2 = game.current_player g) ∧
       (∀ e, out.1 = Raise e → out.2 = g) ∧
       (∀ p e, game._state g = game.IN_PROGRESS →
               game.current_player g = Return p →
               (player.make_move p row col (game._board g)).1 = Raise e →
               out = (Raise e, g))) ∧
  (∀ p1 p2,
     let e0 := onescript.GameEngine_init p1 p2 in
     (onescript.current_index e0 = 0 ∧
      onescript.GameEngine_current_player e0 = Return p1) ∧
     ∀ e row col,
       script_reachable e0 e →
       let out := onescript.GameEngine_play_turn row col e in
       (out.1 = Return true → status out.2 = InProgress →
          onescript.current_index out.2 = 1 - onescript.current_index e ∧
          ∃ p p', onescript.GameEngine_current_player e = Return p ∧
                  onescript.GameEngine_current_player out.2 = Return p' ∧
                  (p = p1 ∧ p' = p2 ∨ p = p2 ∧ p' = p1)) ∧
       (out.1 = Return true → status out.2 ≠ InProgress →
          onescript.current_index out.2 = onescript.current_index e ∧
          onescript.GameEngine_current_player out.2
          = onescript.GameEngine_current_player e) ∧
       (out.1 ≠ Return true → out = (Return false, e)) ∧
       (∀ p, status e = InProgress →
             onescript.GameEngine_current_player e = Return p →
             (onescript.Player_make_move p row col (onescript.board e)).1
             = Return false →
             out = (Return false, e))) ∧
  (∀ n1 n2 vs e,
     onescript.create_console_game n1 n2 vs = Return e →
     ∃ p, onescript.GameEngine_current_player e = Return p ∧
          onescript.symbol p = "X").
Proof.
  split_and!.
  - intros px po ob g0 Hinit Hob.
    destruct (game_shape_init _ _ _ _ Hinit Hob)
      as (Hshape0 & Hplayers0 & Hidx0 & _).
    split.
    { destruct Hshape0 as (_ & Hx & _). rewrite Hplayers0 in Hx.
      unfold game.current_player. rewrite Hidx0, Hplayers0. by split_and!. }
    intros g row col Hreach out. subst out.
    pose proof (reachable_shape _ _ Hshape0 Hreach) as Hshape.
    pose proof (reachable_players _ _ Hreach) as Hplayers.
    rewrite Hplayers0 in Hplayers.
    destruct (game.apply_move row col g) as [r g'] eqn:Hmove. simpl.
    split_and!.
    + intros -> Hst'.
      destruct (apply_move_success g row col g' Hshape Hmove)
        as (p & w & Hst & Hp & _ & _ & _ & _ & ->).
      destruct w as [s|]; [done|].
      destruct (bool_decide (full _)); [done|]. simpl.
      destruct Hshape as (_ & _ & _ & Hidx).
      unfold game.current_player in *. simpl. rewrite Hplayers in *.
      destruct Hidx as [Hi|Hi]; rewrite Hi in *; simpl in *;
        injection Hp as <-; (split; [done|]); eexists _, _; eauto.
    + intros -> Hst'.
      destruct (apply_move_success g row col g' Hshape Hmove)
        as (p & w & Hst & Hp & _ & _ & _ & _ & ->).
      destruct w as [s|]; [done|].
      destruct (bool_decide (full _)); [done|]. simpl in Hst'. congruence.
    + intros e ->.
      destruct (decide (game._state g = game.IN_PROGRESS)) as [Hst|Hst].
      2: { unfold game.apply_move, bind, get, raise in Hmove.
           rewrite bool_decide_eq_true_2 in Hmove by done.
           by simplify_eq. }
      destruct Hshape as (Hwf & _ & _ & Hidx).
      destruct (current_player_cases g Hidx) as (p & Hp & _).
      pose proof (apply_move_in_progress g row col p Hwf Hst Hp) as Hcase.
      destruct (place_mark _ _ _ _) as [[e'|[]] b'].
      * congruence.
      * simpl in Hcase. destruct Hcase as (w & _ & _ & _ & Heq).
        rewrite Heq in Hmove. discriminate.
    + intros p e Hst Hp Hfail.
      destruct Hshape as (Hwf & _).
      pose proof (apply_move_in_progress g row col p Hwf Hst Hp) as Hcase.
      unfold player.make_move in Hfail. fold (player.symbol p) in Hfail.
      destruct (place_mark _ _ _ _) as [[e'|[]] b']; simpl in Hfail; [|done].
      injection Hfail as ->. congruence.
  - intros p1 p2 e0. split; [done|].
    intros e row col Hreach out. subst out.
    pose proof (script_reachable_inv _ _ (script_inv_init p1 p2) Hreach)
      as Hinv.
    destruct (script_reachable_players _ _ _ Hreach) as [Hone Htwo].
    destruct (onescript.GameEngine_play_turn row col e) as [r e'] eqn:Hmove.
    simpl. destruct Hinv as (Hwf & Hidx & Hrest).
    split_and!.
    + intros -> Hst'.
      destruct (script_play_turn_success e row col e' Hwf Hidx Hmove)
        as (p & won & Hst & Hp & _ & _ & _ & _ & ->).
      apply status_in_progress in Hst as [Hw Hd].
      destruct won; [done|].
      destruct (bool_decide (script_full _));
        [by unfold status in Hst'; simpl in Hst'; rewrite Hw in Hst'|].
      simpl. split; [done|].
      unfold onescript.GameEngine_current_player in *. simpl.
      rewrite Hone, Htwo in *.
      destruct Hidx as [Hi|Hi]; rewrite Hi in *; simpl in *;
        injection Hp as <-; eexists _, _; eauto.
    + intros -> Hst'.
      destruct (script_play_turn_success e row col e' Hwf Hidx Hmove)
        as (p & won & Hst & Hp & _ & _ & _ & _ & ->).
      apply status_in_progress in Hst as [Hw Hd].
      destruct won; [done|].
      destruct (bool_decide (script_full _)); [done|].
      exfalso. apply Hst'. unfold status. simpl. by rewrite Hw, Hd.
    + intros Hr.
      destruct (script_play_turn_outcomes e row col) as [[e'' He'']|He''];
        [by split| |]; rewrite Hmove in He''.
      * by injection He'' as -> ->.
      * done.
    + intros p Hst Hp Hfail.
      pose proof (script_play_turn_in_progress e row col p Hwf Hst Hp) as Hcase.
      rewrite script_make_move_cases in Hfail by done.
      destruct (decide (in_range (row, col) ∧ _ ∧ _)); [done|].
      by rewrite <- Hmove.
  - intros n1 n2 vs e (p1 & p2 & -> & Hx & _)%script_create_console_game_spec.
    by exists p1.
Qed.

(** C4, witness: the game of Ann and Bob starts with Ann, who holds X, and
    after Ann's first move it is Bob's turn. *)
Lemma turn_order_witness :
  game.current_player game_fresh = Return ann ∧
  game.current_player (game.apply_move 0 0 game_fresh).2 = Return bob.
Proof.
  assert (Hob : ∀ b : Board, None = Some b → wf_board b) by (intros b [=]).
  destruct (proj1 turn_order ann bob None game_fresh game_fresh_init Hob)
    as [(_ & Hcur & _) _].
  split; [exact Hcur|reflexivity].
Defined.

(** ** Claim C8: the automated player *)

Lemma comprehension_if_filter {A} (xs : list A) (p : A → result bool)
    (P : A → Prop) `{∀ x, Decision (P x)} :
  (∀ x, x ∈ xs → p x = Return (bool_decide (P x))) →
  comprehension_if xs p = Return (filter P xs).
Proof.
  induction xs as [|x xs IH]; intros Hp; [done|]. simpl.
  rewrite Hp by set_solver. simpl.
  rewrite IH by (intros y Hy; apply Hp; set_solver). simpl.
  rewrite filter_cons.
  destruct (decide (P x));
    [by rewrite bool_decide_eq_true_2|by rewrite bool_decide_eq_false_2].
Qed.

Lemma script_available_spec b :
  wf_script_board b →
  comprehension_if
    (row ← range (onescript.size b); col ← range (onescript.size b);
     [(row, col)])
    (fun rc => val v <- getitem2 (onescript.grid b) rc.1 rc.2;
               Return (bool_decide (v = " ")))
  = Return (filter (fun p => cell_at (onescript.grid b) p = Some " ") coords).
Proof.
  intros [Hsize Hwf]. rewrite Hsize.
  change (row ← range 3; col ← range 3; [(row, col)]) with coords.
  apply comprehension_if_filter. intros [r c] Hp%in_range_cases.
  destruct (wf_rows_cell _ _ Hwf Hp) as [v Hv]. simpl.
  rewrite (getitem2_cell_at _ _ _ v) by done. simpl. f_equal.
  rewrite Hv. apply bool_decide_ext. naive_solver.
Qed.

Lemma choice_in_list {A} (randbelow : Z → Z) (l : list A) :
  (∀ n, 0 < n → 0 <= randbelow n < n) →
  l ≠ [] → ∃ x, choice randbelow l = Return x ∧ x ∈ l.
Proof.
  intros Hrand Hl. unfold choice.
  rewrite bool_decide_eq_false_2 by (by destruct l).
  assert (0 < Z.of_nat (length l)) as Hpos by (destruct l; [done|simpl; lia]).
  specialize (Hrand _ Hpos).
  rewrite subscript_nonneg by done.
  destruct (l !! Z.to_nat (randbelow (Z.of_nat (length l)))) as [x|] eqn:Hx.
  - exists x. split; [done|]. by eapply list_elem_of_lookup_2.
  - apply lookup_ge_None in Hx. lia.
Qed.

Section ComputerPlayer.

(** The generator's [randbelow], which answers within the bound. *)
Variable randbelow : Z → Z.
Hypothesis randbelow_range : ∀ n, 0 < n → 0 <= randbelow n < n.

(** C8: on every board with at least one empty cell, [choose_move] returns
    the coordinates of an empty cell, so it never selects an occupied cell
    and does not raise; it raises NoMovesAvailable exactly when the board
    has no empty cell. *)
Theorem choose_move_picks_empty_cell (b : onescript.Board) :
  wf_script_board b →
  ((∃ p, in_range p ∧ cell_at (onescript.grid b) p = Some " ") →
   ∃ p, onescript.ComputerPlayer_choose_move randbelow b = Return p ∧
        in_range p ∧ cell_at (onescript.grid b) p = Some " ") ∧
  (onescript.ComputerPlayer_choose_move randbelow b
   = Raise (RuntimeError NoMovesAvailable)
   ↔ ¬ ∃ p, in_range p ∧ cell_at (onescript.grid b) p = Some " ").
Proof.
  intros Hwf. unfold onescript.ComputerPlayer_choose_move.
  rewrite script_available_spec by done. simpl.
  set (avail := filter _ coords).
  assert (Hmem : ∀ p, p ∈ avail ↔
                      in_range p ∧ cell_at (onescript.grid b) p = Some " ").
  { intros p. unfold avail. rewrite list_elem_of_filter, in_range_cases. tauto. }
  destruct avail as [|q avail'] eqn:Havail.
  - rewrite bool_decide_eq_true_2 by done. split.
    + intros (p & Hp). apply Hmem in Hp. by apply elem_of_nil in Hp.
    + split; [|done]. intros _ (p & Hp). apply Hmem in Hp.
      by apply elem_of_nil in Hp.
  - rewrite bool_decide_eq_false_2 by done.
    destruct (choice_in_list randbelow (q :: avail') randbelow_range)
      as (x & Hx & Hin); [done|].
    rewrite Hx. split.
    + intros _. exists x. split; [done|]. by apply Hmem.
    + split; [done|]. intros Hnone. destruct Hnone. exists q.
      apply Hmem. set_solver.
Qed.

End ComputerPlayer.

(** C8, witness: with X in the top-left cell and a generator answering 0,
    the automated player picks (0, 1). *)
Lemma choose_move_picks_empty_cell_witness :
  wf_script_board script_board_x00 ∧
  ∃ p, onescript.ComputerPlayer_choose_move randbelow_zero script_board_x00
       = Return p ∧
       cell_at (onescript.grid script_board_x00) p = Some " ".
Proof.
  assert (Hrand : ∀ n, 0 < n → 0 <= randbelow_zero n < n)
    by (unfold randbelow_zero; lia).
  assert (Hwf : wf_script_board script_board_x00).
  { split; [reflexivity|]. split; [reflexivity|]. repeat constructor. }
  split; [exact Hwf|].
  destruct (proj1 (choose_move_picks_empty_cell randbelow_zero Hrand
                     script_board_x00 Hwf))
    as (p & Hp & _ & Hcell).
  - exists (0, 1). split; [unfold in_range; simpl; lia|reflexivity].
  - by exists p.
Defined.

(** ** Claim C10: symbol normalisation in player.py *)

Lemma isspace_upper_char c : isspace (upper_char c) = isspace c.
Proof. destruct c as [[] [] [] [] [] [] [] []]; reflexivity. Qed.

Lemma lstrip_chars_upper l :
  lstrip_chars (map upper_char l) = map upper_char (lstrip_chars l).
Proof.
  induction l as [|c l IH]; [done|]. simpl.
  rewrite isspace_upper_char. by destruct (isspace c).
Qed.

(** Upper-casing and trimming commute, so "the trimmed upper-cased form"
    does not depend on the order of the two steps. *)
Lemma strip_upper s : strip (upper s) = upper (strip s).
Proof.
  unfold strip, upper.
  rewrite !list_ascii_of_string_of_list_ascii.
  by rewrite lstrip_chars_upper, <- map_rev, lstrip_chars_upper, map_rev.
Qed.

(** A test that computes, for the ASCII side condition. *)
Lemma ascii_text_check s :
  forallb (fun c => (nat_of_ascii c <? 128)%nat) (list_ascii_of_string s)
  = true →
  ascii_text s.
Proof.
  intros Hall. apply Forall_forall. intros c Hc.
  rewrite forallb_forall in Hall.
  by apply Nat.ltb_lt, Hall, list_elem_of_In.
Qed.

(** C10: [Player(name, symbol)] of the multi-file variant, given a symbol
    of ASCII text, normalises it by upper-casing and trimming it (in
    either order) before validating: when the normal form is "X" or "O"
    construction succeeds, keeps [name] and stores the normal form as the
    symbol, as for ["x"] and [" o "]; it raises InvalidSymbol exactly when
    the normal form is neither. *)
Theorem player_init_normalizes (name symbol : string) :
  ascii_text symbol →
  let n := strip (upper symbol) in
  n = upper (strip symbol) ∧
  (n = "X" ∨ n = "O" ↔
   player.__init__ name symbol = Return (player.mkPlayer name n)) ∧
  (∀ p, player.__init__ name symbol = Return p →
        player.name p = name ∧ player.symbol p = n ∧ (n = "X" ∨ n = "O")) ∧
  (player.__init__ name symbol = Raise (ValueError InvalidSymbol)
   ↔ ¬ (n = "X" ∨ n = "O")) ∧
  player.__init__ name "x" = Return (player.mkPlayer name "X") ∧
  player.__init__ name " o " = Return (player.mkPlayer name "O").
Proof.
  intros _ n. split; [apply strip_upper|].
  assert (Hcases : player.__init__ name symbol
                   = if decide (n = "X" ∨ n = "O")
                     then Return (player.mkPlayer name n)
                     else Raise (ValueError InvalidSymbol)).
  { unfold player.__init__. fold n. case_decide as Hn.
    - rewrite bool_decide_eq_true_2; [done|]. by apply valid_symbols_spec.
    - rewrite bool_decide_eq_false_2; [done|]. by rewrite valid_symbols_spec. }
  rewrite Hcases. split_and!; try reflexivity.
  - case_decide; naive_solver.
  - intros p. case_decide; [|done]. intros [= <-]. by split_and!.
  - case_decide; naive_solver.
Qed.

(** C10, witness: lower-case and padded symbols are accepted and stored
    in normal form; a symbol that is neither X nor O is refused. *)
Lemma player_init_normalizes_witness :
  player.__init__ "Ann" " x" = Return (player.mkPlayer "Ann" "X") ∧
  player.__init__ "Eve" "Z" = Raise (ValueError InvalidSymbol).
Proof.
  split.
  - apply (proj1 (proj1 (proj2 (player_init_normalizes "Ann" " x"
                                  (ascii_text_check " x" eq_refl))))).
    left. reflexivity.
  - apply (proj2 (proj1 (proj2 (proj2 (proj2
             (player_init_normalizes "Eve" "Z"
                (ascii_text_check "Z" eq_refl))))))).
    intros [H|H]; discriminate H.
Defined.

(** * Further properties *)

(** ** board.py: [is_cell_empty] *)

(** X1: [is_cell_empty] raises CoordinateOutOfRange when a coordinate lies
    outside [0, 3); on valid coordinates of a 3x3 board it answers whether
    the cell holds [None]; in both cases the board is left as it was. *)
Theorem is_cell_empty_contract b row col :
  wf_board b →
  (¬ in_range (row, col) →
   is_cell_empty row col b = (Raise (ValueError CoordinateOutOfRange), b)) ∧
  (in_range (row, col) →
   ∃ v, cell_at (_grid b) (row, col) = Some v ∧
        is_cell_empty row col b = (Return (bool_decide (v = None)), b)).
Proof.
  intros Hwf. split.
  - intros Hout. unfold is_cell_empty, bind.
    by rewrite validate_coords_spec, decide_False.
  - intros Hin. destruct (wf_rows_cell _ _ Hwf Hin) as [v Hv].
    exists v. split; [done|]. by apply is_cell_empty_spec.
Qed.

(** X1, witness: the marked corner of a board and a row index of 3. *)
Lemma is_cell_empty_contract_witness :
  is_cell_empty 0 0 board_x00 = (Return false, board_x00) ∧
  is_cell_empty 3 0 board_x00
  = (Raise (ValueError CoordinateOutOfRange), board_x00).
Proof.
  assert (Hwf : wf_board board_x00).
  { split; [reflexivity|]. repeat constructor. }
  destruct (is_cell_empty_contract board_x00 0 0 Hwf) as [_ Hin].
  destruct (is_cell_empty_contract board_x00 3 0 Hwf) as [Hout _].
  split.
  - destruct Hin as (v & Hv & ->); [unfold in_range; simpl; lia|].
    vm_compute in Hv. by injection Hv as <-.
  - apply Hout. unfold in_range. simpl. lia.
Defined.

(** X2: after a successful [place_mark] on a 3x3 board, [is_cell_empty]
    answers [True] before and [False] after at the marked cell, and
    answers at every other coordinate as it did before. *)
Theorem place_mark_then_is_cell_empty b row col symbol b' :
  wf_board b →
  place_mark row col symbol b = (Return tt, b') →
  is_cell_empty row col b = (Return true, b) ∧
  is_cell_empty row col b' = (Return false, b') ∧
  ∀ r c, (r, c) ≠ (row, col) →
         (is_cell_empty r c b').1 = (is_cell_empty r c b).1.
Proof.
  intros Hwf Hplace.
  pose proof (place_mark_wf b row col symbol Hwf) as Hwf'.
  rewrite place_mark_cases in Hplace by done.
  destruct (decide (in_range (row, col))) as [Hrc|]; [|done].
  destruct (decide (_ ∨ _)); [|done].
  destruct (cell_at (_grid b) (row, col)) as [[s|]|] eqn:Hcell; try done.
  injection Hplace as <-.
  assert (Hupd : ∀ p, cell_at (grid_update (_grid b) row col (Some symbol)) p
                      = if decide (p = (row, col)) then Some (Some symbol)
                        else cell_at (_grid b) p).
  { intros p. apply cell_at_update; [apply Hrc..|]. rewrite Hcell. by eexists. }
  assert (Hwfu : wf_board (mkBoard (grid_update (_grid b) row col (Some symbol))))
    by (by apply wf_rows_update).
  split_and!.
  - by rewrite (is_cell_empty_spec _ _ _ None).
  - rewrite (is_cell_empty_spec _ _ _ (Some symbol)); [done| |done].
    simpl. by rewrite Hupd, decide_True.
  - intros r c Hne.
    destruct (decide (in_range (r, c))) as [Hin|Hout].
    + destruct (wf_rows_cell _ _ Hwf Hin) as [v Hv].
      rewrite (is_cell_empty_spec r c b v) by done.
      rewrite (is_cell_empty_spec r c _ v); [done| |done].
      simpl. by rewrite Hupd, decide_False.
    + unfold is_cell_empty, bind.
      by rewrite !validate_coords_spec, !decide_False.
Qed.

(** X2, witness: marking the centre of a fresh board. *)
Lemma place_mark_then_is_cell_empty_witness :
  is_cell_empty 1 1 board.__init__ = (Return true, board.__init__) ∧
  (is_cell_empty 1 1 (place_mark 1 1 "O" board.__init__).2).1 = Return false.
Proof.
  destruct (place_mark_then_is_cell_empty board.__init__ 1 1 "O"
              (place_mark 1 1 "O" board.__init__).2 wf_board_init eq_refl)
    as (Hbefore & Hafter & _).
  split; [exact Hbefore|]. by rewrite Hafter.
Defined.

(** ** board.py: [is_full] and [available_moves] *)

(** X3: on a 3x3 board [is_full] and [available_moves] do not raise, and
    [is_full] answers [True] exactly when [available_moves] is empty,
    which is exactly when all nine cells are occupied. *)
Theorem is_full_iff_no_available_move b :
  wf_board b →
  ∃ f moves,
    is_full b = Return f ∧ available_moves b = Return moves ∧
    (f = true ↔ moves = []) ∧
    (f = true ↔ occupied_count b = 9%nat).
Proof.
  intros Hwf. rewrite is_full_spec, available_moves_spec by done.
  eexists _, _. split; [reflexivity|]. split; [reflexivity|].
  pose proof (available_plus_occupied b Hwf) as Hsum.
  assert (Hiff : Forall (fun p => cell_at (_grid b) p ≠ Some None) coords
                 ↔ filter (fun p => cell_at (_grid b) p = Some None) coords = []).
  { rewrite Forall_forall. split.
    - intros Hall.
      destruct (filter _ coords) as [|p l] eqn:Hf; [done|].
      assert (p ∈ filter (fun p => cell_at (_grid b) p = Some None) coords)
        as [Hp Hin]%list_elem_of_filter by (rewrite Hf; set_solver).
      by destruct (Hall p).
    - intros Hnil p Hin Hp.
      assert (p ∈ filter (fun p => cell_at (_grid b) p = Some None) coords)
        as Hmem by (by apply list_elem_of_filter).
      rewrite Hnil in Hmem. by apply elem_of_nil in Hmem. }
  rewrite bool_decide_eq_true. split; [done|].
  rewrite Hiff. split.
  - intros Hnil. rewrite Hnil in Hsum. simpl in Hsum. lia.
  - intros Hnine. rewrite Hnine in Hsum.
    destruct (filter _ coords); [done|simpl in Hsum; lia].
Qed.

(** X3, witness: a board with one mark is not full and has moves left. *)
Lemma is_full_iff_no_available_move_witness :
  is_full board_x00 = Return false ∧ occupied_count board_x00 = 1%nat.
Proof.
  assert (Hwf : wf_board board_x00).
  { split; [reflexivity|]. repeat constructor. }
  destruct (is_full_iff_no_available_move board_x00 Hwf)
    as (f & moves & Hf & _ & _ & Hnine).
  split; [|reflexivity].
  rewrite Hf. destruct f; [|done].
  assert (occupied_count board_x00 = 9%nat) as H by (by apply Hnine).
  vm_compute in H. discriminate H.
Defined.

(** ** board.py: what [place_mark] and [reset] keep *)

Lemma valid_board_init : valid_board board.__init__.
Proof.
  split; [apply wf_board_init|]. intros p Hp.
  exists None. split; [|by left].
  apply in_range_cases in Hp. unfold coords in Hp.
  rewrite !elem_of_cons, elem_of_nil in Hp.
  repeat destruct Hp as [Hp|Hp]; try done; by subst p.
Qed.

Lemma valid_board_place_mark b row col symbol :
  valid_board b → valid_board (place_mark row col symbol b).2.
Proof.
  intros [Hwf Hcells]. split; [by apply place_mark_wf|].
  rewrite place_mark_cases by done.
  destruct (decide (in_range (row, col))) as [Hrc|]; [|done].
  destruct (decide (_ ∨ _)) as [Hs|]; [|done].
  destruct (cell_at (_grid b) (row, col)) as [[s|]|] eqn:Hcell; try done.
  simpl. intros p Hp.
  rewrite cell_at_update; [|apply Hrc..|rewrite Hcell; by eexists].
  case_decide; [|by apply Hcells].
  exists (Some symbol). split; [done|].
  destruct Hs as [-> | ->]; [right; by left|right; by right].
Qed.

(** X4: every board obtained from [Board()] by any calls of [place_mark]
    and [reset], with any arguments, is a 3x3 board whose cells hold
    nothing, "X" or "O". *)
Theorem board_reachable_valid b : board_reachable b → valid_board b.
Proof.
  induction 1 as [|b row col symbol _ IH|b _ IH].
  - apply valid_board_init.
  - by apply valid_board_place_mark.
  - destruct IH as [Hwf _]. rewrite reset_spec by done.
    apply valid_board_init.
Qed.

(** X4, witness: the board after X at the centre and a refused second
    mark on the same cell. *)
Lemma board_reachable_valid_witness :
  valid_board (place_mark 1 1 "O" (place_mark 1 1 "X" board.__init__).2).2.
Proof.
  apply board_reachable_valid.
  do 2 apply board_reachable_place_mark. apply board_reachable_init.
Defined.

(** X5: [place_mark] never erases or overwrites: whatever its arguments
    and outcome, a cell of a 3x3 board that holds a symbol holds the same
    symbol afterwards. *)
Theorem place_mark_keeps_marks b row col symbol p s :
  wf_board b →
  cell_at (_grid b) p = Some (Some s) →
  cell_at (_grid (place_mark row col symbol b).2) p = Some (Some s).
Proof.
  intros Hwf Hp. rewrite place_mark_cases by done.
  destruct (decide (in_range (row, col))) as [Hrc|]; [|done].
  destruct (decide (_ ∨ _)); [|done].
  destruct (cell_at (_grid b) (row, col)) as [[s'|]|] eqn:Hcell; try done.
  simpl. rewrite cell_at_update; [|apply Hrc..|rewrite Hcell; by eexists].
  case_decide as Heq; [|done]. subst p. congruence.
Qed.

(** X5, witness: a second mark aimed at the occupied corner leaves X
    there. *)
Lemma place_mark_keeps_marks_witness :
  cell_at (_grid (place_mark 0 0 "O" board_x00).2) (0, 0) = Some (Some "X").
Proof.
  apply place_mark_keeps_marks; [|reflexivity].
  split; [reflexivity|]. repeat constructor.
Defined.

(** ** board.py: the rendering *)

Lemma or_blank_glyph v : valid_cell v → or_blank v = String (glyph v) "".
Proof. by intros [->|[->| ->]]. Qed.

Lemma glyph_inj v w : valid_cell v → valid_cell w → glyph v = glyph w → v = w.
Proof. intros [->|[->| ->]] [->|[->| ->]]; simpl; congruence. Qed.

Lemma valid_board_inv b :
  valid_board b →
  ∃ a0 a1 a2 b0 b1 b2 c0 c1 c2,
    b = mkBoard [[a0; a1; a2]; [b0; b1; b2]; [c0; c1; c2]] ∧
    Forall valid_cell [a0; a1; a2; b0; b1; b2; c0; c1; c2].
Proof.
  intros [Hwf Hcells]. destruct b as [g].
  unfold wf_board in Hwf. simpl in *.
  destruct (wf_rows_inv _ Hwf)
    as (a0 & a1 & a2 & b0 & b1 & b2 & c0 & c1 & c2 & ->).
  exists a0, a1, a2, b0, b1, b2, c0, c1, c2. split; [done|].
  repeat apply Forall_cons_2; try apply Forall_nil_2.
  - by destruct (Hcells (0, 0)) as (v & [= <-] & Hv); [unfold in_range; simpl; lia|].
  - by destruct (Hcells (0, 1)) as (v & [= <-] & Hv); [unfold in_range; simpl; lia|].
  - by destruct (Hcells (0, 2)) as (v & [= <-] & Hv); [unfold in_range; simpl; lia|].
  - by destruct (Hcells (1, 0)) as (v & [= <-] & Hv); [unfold in_range; simpl; lia|].
  - by destruct (Hcells (1, 1)) as (v & [= <-] & Hv); [unfold in_range; simpl; lia|].
  - by destruct (Hcells (1, 2)) as (v & [= <-] & Hv); [unfold in_range; simpl; lia|].
  - by destruct (Hcells (2, 0)) as (v & [= <-] & Hv); [unfold in_range; simpl; lia|].
  - by destruct (Hcells (2, 1)) as (v & [= <-] & Hv); [unfold in_range; simpl; lia|].
  - by destruct (Hcells (2, 2)) as (v & [= <-] & Hv); [unfold in_range; simpl; lia|].
Qed.

Lemma str_of_valid_board a0 a1 a2 b0 b1 b2 c0 c1 c2 :
  Forall valid_cell [a0; a1; a2; b0; b1; b2; c0; c1; c2] →
  __str__ (mkBoard [[a0; a1; a2]; [b0; b1; b2]; [c0; c1; c2]])
  = Return (row_text (glyph a0) (glyph a1) (glyph a2) +:+ row_separator +:+
            row_text (glyph b0) (glyph b1) (glyph b2) +:+ row_separator +:+
            row_text (glyph c0) (glyph c1) (glyph c2)).
Proof.
  intros Hall. rewrite !Forall_cons in Hall.
  destruct Hall as (H0 & H1 & H2 & H3 & H4 & H5 & H6 & H7 & H8 & _).
  unfold __str__. simpl.
  rewrite !or_blank_glyph by done. reflexivity.
Qed.

(** X6: the rendering of a board whose cells hold nothing, X or O does not
    raise, is 59 characters long, shows the cell at [(r, c)] as the
    character at position [24 r + 4 c + 1] (a space for an empty cell,
    the symbol otherwise), and two such boards with the same rendering are
    the same board. *)
Theorem str_unambiguous b1 b2 :
  valid_board b1 → valid_board b2 →
  (∃ t, __str__ b1 = Return t ∧
        String.length t = 59%nat ∧
        ∀ p v, in_range p → cell_at (_grid b1) p = Some v →
               String.get (Z.to_nat (24 * p.1 + 4 * p.2 + 1)) t
               = Some (glyph v)) ∧
  (__str__ b1 = __str__ b2 → b1 = b2).
Proof.
  intros (a0 & a1 & a2 & a3 & a4 & a5 & a6 & a7 & a8 & -> & Ha)%valid_board_inv
         (c0 & c1 & c2 & c3 & c4 & c5 & c6 & c7 & c8 & -> & Hc)%valid_board_inv.
  rewrite !str_of_valid_board by done. split.
  - eexists. split; [reflexivity|]. split; [reflexivity|].
    intros p v Hp%in_range_cases Hv. unfold coords in Hp.
    rewrite !elem_of_cons, elem_of_nil in Hp.
    repeat destruct Hp as [Hp|Hp]; try done; subst p;
      injection Hv as <-; reflexivity.
  - intros Heq. rewrite !Forall_cons in Ha, Hc.
    destruct Ha as (A0 & A1 & A2 & A3 & A4 & A5 & A6 & A7 & A8 & _).
    destruct Hc as (C0 & C1 & C2 & C3 & C4 & C5 & C6 & C7 & C8 & _).
    unfold row_text, row_separator, newline in Heq. simpl in Heq.
    injection Heq as E0 E1 E2 E3 E4 E5 E6 E7 E8.
    apply glyph_inj in E0, E1, E2, E3, E4, E5, E6, E7, E8; try done.
    by subst.
Qed.

(** X6, witness: on the board with X in the corner the character at
    position 1 is X and the one at position 29 (the centre) is a space. *)
Lemma str_unambiguous_witness :
  ∃ t, __str__ board_x00 = Return t ∧
       String.get 1 t = Some "X"%char ∧ String.get 29 t = Some " "%char.
Proof.
  assert (Hvalid : valid_board board_x00).
  { change board_x00 with (place_mark 0 0 "X" board.__init__).2.
    apply valid_board_place_mark, valid_board_init. }
  destruct (proj1 (str_unambiguous board_x00 board_x00 Hvalid Hvalid))
    as (t & Ht & _ & Hget).
  exists t. split; [exact Ht|]. split.
  - apply (Hget (0, 0) (Some "X")); [unfold in_range; simpl; lia|reflexivity].
  - apply (Hget (1, 1) None); [unfold in_range; simpl; lia|reflexivity].
Defined.

(** ** player.py: [make_move] *)

(** X7: a player built by [Player(name, symbol)] can never make the board
    raise InvalidSymbol: on a 3x3 board its [make_move] places the
    player's symbol when the coordinates are valid and the cell is empty,
    raises CoordinateOutOfRange when they are not valid and CellOccupied
    when the cell is taken, leaving the board unchanged in both failures. *)
Theorem constructed_player_make_move name sym p b row col :
  player.__init__ name sym = Return p →
  wf_board b →
  player.make_move p row col b
  = if decide (in_range (row, col)) then
      match cell_at (_grid b) (row, col) with
      | Some None =>
          (Return tt,
           mkBoard (grid_update (_grid b) row col (Some (player.symbol p))))
      | _ => (Raise (ValueError CellOccupied), b)
      end
    else (Raise (ValueError CoordinateOutOfRange), b).
Proof.
  intros Hinit Hwf. unfold player.make_move. fold (player.symbol p).
  assert (Hs : player.symbol p = "X" ∨ player.symbol p = "O").
  { unfold player.__init__ in Hinit.
    destruct (bool_decide (strip (upper sym) ∈ VALID_SYMBOLS)) eqn:Hv;
      [|done].
    injection Hinit as <-. simpl.
    apply bool_decide_eq_true_1 in Hv. by apply valid_symbols_spec. }
  rewrite place_mark_cases by done.
  case_decide; [|done].
  by destruct (decide (player.symbol p = "X" ∨ player.symbol p = "O")).
Qed.

(** X7, witness: the player built from [" o "] marks the centre with O. *)
Lemma constructed_player_make_move_witness :
  player.make_move (player.mkPlayer "Bob" "O") 1 1 board.__init__
  = (Return tt,
     mkBoard [[None; None; None]; [None; Some "O"; None]; [None; None; None]]).
Proof.
  exact (constructed_player_make_move "Bob" " o " (player.mkPlayer "Bob" "O")
           board.__init__ 1 1 eq_refl wf_board_init).
Defined.

(** ** game.py: [_find_winner_symbol] *)

Lemma scan_lines_first g ls :
  wf_rows g → Forall line_shape ls →
  ∃ w, game.scan_lines g ls = Return w ∧
       match w with
       | None => ∀ line s, line ∈ ls → ¬ holds_line g line (Some s)
       | Some s =>
           ∃ i line,
             ls !! i = Some line ∧ holds_line g line (Some s) ∧
             ∀ j line' s', (j < i)%nat → ls !! j = Some line' →
                           ¬ holds_line g line' (Some s')
       end.
Proof.
  intros Hwf. induction ls as [|line ls IH]; intros Hls.
  - exists None. split; [done|].
    intros line s Hline. by apply elem_of_nil in Hline.
  - apply Forall_cons in Hls as [(a & b & c & -> & Ha & Hb & Hc) Hls].
    destruct (wf_rows_cell _ _ Hwf Ha) as [s1 H1].
    destruct (wf_rows_cell _ _ Hwf Hb) as [s2 H2].
    destruct (wf_rows_cell _ _ Hwf Hc) as [s3 H3].
    destruct a as [a1 a2], b as [b1 b2], c as [c1 c2]. simpl.
    rewrite (getitem2_cell_at _ _ _ _ H1). simpl.
    rewrite (getitem2_cell_at _ _ _ _ H2). simpl.
    rewrite (getitem2_cell_at _ _ _ _ H3). simpl.
    destruct (bool_decide (s1 ≠ None) && (bool_decide (s1 = s2)
              && bool_decide (s2 = s3))) eqn:Hcond.
    + apply andb_true_iff in Hcond as [Hne Hcond].
      apply andb_true_iff in Hcond as [H12 H23].
      apply bool_decide_eq_true_1 in Hne, H12, H23. subst s2 s3.
      exists s1. split; [done|].
      destruct s1 as [s|]; [|done].
      exists 0%nat, [(a1, a2); (b1, b2); (c1, c2)].
      split; [done|]. split; [by apply holds_line3|]. intros; lia.
    + assert (Hhead : ∀ s, ¬ holds_line g [(a1, a2); (b1, b2); (c1, c2)] (Some s)).
      { intros s (E1 & E2 & E3)%holds_line3.
        rewrite H1 in E1. rewrite H2 in E2. rewrite H3 in E3.
        injection E1 as ->. injection E2 as ->. injection E3 as ->.
        by rewrite !bool_decide_eq_true_2 in Hcond. }
      destruct (IH Hls) as (w & Hw & Hspec).
      exists w. split; [done|]. destruct w as [s|].
      * destruct Hspec as (i & line & Hi & Hholds & Hbefore).
        exists (S i), line. split; [done|]. split; [done|].
        intros [|j] line' s' Hj Hl'.
        -- injection Hl' as <-. apply Hhead.
        -- apply (Hbefore j); [lia|done].
      * intros line s [->|Hline]%elem_of_cons; [apply Hhead|by apply Hspec].
Qed.

(** X8: on a 3x3 board [_find_winner_symbol] does not raise; it returns
    [None] exactly when no line is completed, and otherwise the symbol of
    the first completed line in the order of [WIN_LINES] (rows top to
    bottom, columns left to right, the two diagonals). *)
Theorem find_winner_first_line g :
  wf_board (game._board g) →
  ∃ w, game._find_winner_symbol g = Return w ∧
       match w with
       | None => no_line (_grid (game._board g))
       | Some s =>
           ∃ i line,
             game.WIN_LINES !! i = Some line ∧
             holds_line (_grid (game._board g)) line (Some s) ∧
             ∀ j line' s', (j < i)%nat → game.WIN_LINES !! j = Some line' →
                           ¬ holds_line (_grid (game._board g)) line' (Some s')
       end.
Proof.
  intros Hwf. unfold game._find_winner_symbol, game._cell_symbol.
  assert (comprehension (range SIZE) (fun r =>
            comprehension (range SIZE) (fun c =>
              getitem2 (_grid (game._board g)) r c))
          = Return (_grid (game._board g))) as ->.
  { destruct (wf_rows_inv _ Hwf) as (a & b & c & d & e & f & x & y & z & ->).
    reflexivity. }
  cbn [rbind].
  assert (Hshape : Forall line_shape game.WIN_LINES)
    by (rewrite win_lines_are_lines; apply lines_shape).
  destruct (scan_lines_first _ game.WIN_LINES Hwf Hshape) as (w & Hw & Hspec).
  exists w. split; [done|]. destruct w as [s|]; [done|].
  intros s (line & Hline & Hholds).
  rewrite <- win_lines_are_lines in Hline. by apply (Hspec line s).
Qed.

(** X8, witness: with the top row held by X and the middle row by O the
    top row, which comes first, decides. *)
Lemma find_winner_first_line_witness :
  game._find_winner_symbol
    (game.mkGame
       (mkBoard [[Some "X"; Some "X"; Some "X"];
                 [Some "O"; Some "O"; Some "O"];
                 [None; None; None]])
       (ann, bob) 0 game.IN_PROGRESS None)
  = Return (Some "X").
Proof.
  set (g := game.mkGame _ _ _ _ _).
  assert (Hwf : wf_board (game._board g)).
  { split; [reflexivity|]. repeat constructor. }
  destruct (find_winner_first_line g Hwf) as (w & Hw & _).
  rewrite Hw. vm_compute in Hw. exact (eq_sym Hw).
Defined.

(** ** game.py: moves and the board *)

Lemma length_filter_cons {A} (P : A → Prop) `{∀ x, Decision (P x)} x l :
  length (filter P (x :: l))
  = ((if decide (P x) then 1 else 0) + length (filter P l))%nat.
Proof. rewrite filter_cons. by destruct (decide (P x)). Qed.

(** Marking an empty cell adds the new content to any count of cells that
    does not count empty cells. *)
Lemma count_after_update (P : option string → Prop) `{∀ v, Decision (P v)}
    (g : list (list (option string))) r c v :
  wf_rows g → in_range (r, c) → cell_at g (r, c) = Some None → ¬ P None →
  length (filter P (concat (grid_update g r c v)))
  = (length (filter P (concat g)) + (if decide (P v) then 1 else 0))%nat.
Proof.
  intros (a0 & a1 & a2 & a3 & a4 & a5 & a6 & a7 & a8 & ->)%wf_rows_inv
         Hrc%in_range_cases Hcell HnP.
  unfold coords in Hrc. rewrite !elem_of_cons, elem_of_nil in Hrc.
  repeat destruct Hrc as [Hrc|Hrc]; try done; injection Hrc as -> ->;
    injection Hcell as ->; unfold grid_update; simpl;
    rewrite !length_filter_cons; simpl;
    rewrite (decide_False (P := P None)) by done; lia.
Qed.

Lemma apply_move_refused g row col e g' :
  game_shape g → game.apply_move row col g = (Raise e, g') → g' = g.
Proof.
  intros (Hwf & _ & _ & Hidx) Hmove.
  destruct (decide (game._state g = game.IN_PROGRESS)) as [Hst|Hst].
  2: { unfold game.apply_move, bind, get, raise in Hmove.
       rewrite bool_decide_eq_true_2 in Hmove by done. by simplify_eq. }
  destruct (current_player_cases g Hidx) as (p & Hp & _).
  pose proof (apply_move_in_progress g row col p Hwf Hst Hp) as Hcase.
  destruct (place_mark _ _ _ _) as [[e'|[]] b'].
  - rewrite Hcase in Hmove. by simplify_eq.
  - simpl in Hcase. destruct Hcase as (w & _ & _ & _ & Heq).
    rewrite Heq in Hmove. discriminate.
Qed.

Lemma apply_move_outcome_cases g row col :
  game_shape g →
  (∃ g', game.apply_move row col g = (Return tt, g')) ∨
  (∃ e, game.apply_move row col g = (Raise e, g)).
Proof.
  intros Hshape.
  destruct (game.apply_move row col g) as [[e|[]] g'] eqn:Hmove.
  - right. exists e. by rewrite (apply_move_refused _ _ _ _ _ Hshape Hmove).
  - left. by exists g'.
Qed.

Lemma current_player_symbol g p :
  game_shape g → game.current_player g = Return p →
  (game._turn_idx g = 0 ∧ player.symbol p = "X") ∨
  (game._turn_idx g = 1 ∧ player.symbol p = "O").
Proof.
  intros (_ & Hx & Ho & Hidx) Hp.
  destruct (current_player_cases g Hidx) as (q & Hq & Hwho).
  rewrite Hp in Hq. injection Hq as <-.
  destruct Hwho as [[Hi ->]|[Hi ->]]; [by left|by right].
Qed.

Lemma not_full_init : ¬ full (_grid board.__init__).
Proof.
  unfold full, coords. intros [Hne _]%Forall_cons. by apply Hne.
Qed.

(** X9: in every state of a constructed game, [legal_moves] does not
    raise, and while the game is in progress [apply_move row col] succeeds
    exactly when [(row, col)] is one of the legal moves; once the game is
    over no move succeeds. *)
Theorem apply_move_accepts_legal_moves px po ob g0 g row col :
  game.__init__ px po ob = Return g0 →
  (∀ b, ob = Some b → wf_board b) →
  reachable g0 g →
  ∃ moves,
    game.legal_moves g = Return moves ∧
    (game._state g = game.IN_PROGRESS →
     ((game.apply_move row col g).1 = Return tt ↔ (row, col) ∈ moves)) ∧
    (game._state g ≠ game.IN_PROGRESS →
     (game.apply_move row col g).1 ≠ Return tt).
Proof.
  intros Hinit Hob Hreach.
  destruct (game_shape_init _ _ _ _ Hinit Hob) as (Hshape0 & _).
  pose proof (reachable_shape _ _ Hshape0 Hreach) as Hshape.
  destruct Hshape as (Hwf & Hx & Ho & Hidx).
  unfold game.legal_moves. rewrite available_moves_spec by done.
  eexists. split; [reflexivity|]. split.
  - intros Hst.
    destruct (current_player_cases g Hidx) as (p & Hp & _).
    destruct (current_player_symbol g p) as [[_ Hs]|[_ Hs]];
      [by split_and!|done| |].
    all: pose proof (apply_move_in_progress g row col p Hwf Hst Hp) as Hcase.
    all: rewrite place_mark_cases in Hcase by done.
    all: rewrite list_elem_of_filter, <- in_range_cases.
    all: destruct (decide (in_range (row, col))) as [Hrc|Hrc];
           [|rewrite Hcase; simpl; naive_solver].
    all: rewrite decide_True in Hcase by (rewrite Hs; auto).
    all: destruct (cell_at _ _) as [[s|]|];
           [rewrite Hcase; simpl; naive_solver| |
            rewrite Hcase; simpl; naive_solver].
    all: simpl in Hcase; destruct Hcase as (w & _ & _ & _ & ->).
    all: simpl; naive_solver.
  - intros Hst. unfold game.apply_move, bind, get.
    by rewrite bool_decide_eq_true_2.
Qed.

(** X9, witness: one move before the win the empty corner is legal and
    accepted, the taken one is not. *)
Lemma apply_move_accepts_legal_moves_witness :
  (game.apply_move 0 2 game_before_win).1 = Return tt ∧
  (game.apply_move 0 0 game_before_win).1 ≠ Return tt.
Proof.
  assert (Hob : ∀ b : Board, None = Some b → wf_board b) by (intros b [=]).
  split.
  - destruct (apply_move_accepts_legal_moves ann bob None game_fresh
                game_before_win 0 2 game_fresh_init Hob
                game_before_win_reachable) as (moves & Hmoves & Hiff & _).
    apply Hiff; [reflexivity|].
    vm_compute in Hmoves. injection Hmoves as <-. set_solver.
  - destruct (apply_move_accepts_legal_moves ann bob None game_fresh
                game_before_win 0 0 game_fresh_init Hob
                game_before_win_reachable) as (moves & Hmoves & Hiff & _).
    intros Hok. apply Hiff in Hok; [|reflexivity].
    vm_compute in Hmoves. injection Hmoves as <-.
    rewrite !elem_of_cons, elem_of_nil in Hok.
    repeat destruct Hok as [Hok|Hok]; try done; discriminate Hok.
Defined.

(** X10: a successful [apply_move row col] puts the symbol of the player
    who was to move on the cell [(row, col)], which was empty, changes no
    other cell, adds one to the number of occupied cells and keeps the
    players. *)
Theorem apply_move_marks_one_cell px po ob g0 g row col g' :
  game.__init__ px po ob = Return g0 →
  (∀ b, ob = Some b → wf_board b) →
  reachable g0 g →
  game.apply_move row col g = (Return tt, g') →
  ∃ p, game.current_player g = Return p ∧
       cell_at (_grid (game._board g)) (row, col) = Some None ∧
       cell_at (_grid (game._board g')) (row, col)
       = Some (Some (player.symbol p)) ∧
       (∀ q, q ≠ (row, col) →
             cell_at (_grid (game._board g')) q
             = cell_at (_grid (game._board g)) q) ∧
       occupied_count (game._board g') = S (occupied_count (game._board g)) ∧
       game._players g' = game._players g.
Proof.
  intros Hinit Hob Hreach Hmove.
  destruct (game_shape_init _ _ _ _ Hinit Hob) as (Hshape0 & _).
  pose proof (reachable_shape _ _ Hshape0 Hreach) as Hshape.
  destruct (apply_move_success g row col g' Hshape Hmove)
    as (p & w & Hst & Hp & Hrc & Hcell & _ & _ & Hg').
  destruct Hshape as (Hwf & _).
  assert (Hboard : _grid (game._board g')
                   = grid_update (_grid (game._board g)) row col
                       (Some (player.symbol p))).
  { rewrite Hg'. destruct w as [s|]; [done|].
    by destruct (bool_decide (full _)). }
  assert (Hupd : ∀ q, cell_at (_grid (game._board g')) q
                      = if decide (q = (row, col))
                        then Some (Some (player.symbol p))
                        else cell_at (_grid (game._board g)) q).
  { intros q. rewrite Hboard.
    apply cell_at_update; [apply Hrc..|]. rewrite Hcell. by eexists. }
  exists p. split_and!; try done.
  - by rewrite Hupd, decide_True.
  - intros q Hq. by rewrite Hupd, decide_False.
  - unfold occupied_count. rewrite Hboard.
    rewrite (count_after_update (fun v => v ≠ None)); try done;
      [|by intros H].
    rewrite decide_True by done. lia.
  - pose proof (keeps_players_apply_move row col g) as Hk.
    by rewrite Hmove in Hk.
Qed.

(** X10, witness: the winning mark of X on the top row. *)
Lemma apply_move_marks_one_cell_witness :
  cell_at (_grid (game._board game_before_win)) (0, 2) = Some None ∧
  cell_at (_grid (game._board game_won)) (0, 2) = Some (Some "X") ∧
  occupied_count (game._board game_won) = 5%nat.
Proof.
  assert (Hob : ∀ b : Board, None = Some b → wf_board b) by (intros b [=]).
  destruct (apply_move_marks_one_cell ann bob None game_fresh
              game_before_win 0 2 game_won game_fresh_init Hob
              game_before_win_reachable eq_refl)
    as (p & Hp & Hbefore & Hafter & _ & Hcount & _).
  vm_compute in Hp. injection Hp as <-.
  split; [exact Hbefore|]. split; [exact Hafter|]. exact Hcount.
Defined.

(** ** game.py: state and board agree *)

Lemma game_coherent_step g row col :
  game_inv g →
  (game._state g = game.IN_PROGRESS → ¬ full (_grid (game._board g))) →
  (game._state g = game.DRAW →
     full (_grid (game._board g)) ∧ no_line (_grid (game._board g))) →
  let g' := (game.apply_move row col g).2 in
  (game._state g' = game.IN_PROGRESS → ¬ full (_grid (game._board g'))) ∧
  (game._state g' = game.DRAW →
     full (_grid (game._board g')) ∧ no_line (_grid (game._board g'))).
Proof.
  intros Hinv Hprog Hdraw.
  assert (Hshape : game_shape g)
    by (destruct Hinv as (? & ? & ? & ? & _); by split_and!).
  destruct (apply_move_outcome_cases g row col Hshape)
    as [[g' Hmove]|[e Hmove]]; rewrite Hmove; simpl; [|done].
  destruct (apply_move_success g row col g' Hshape Hmove)
    as (p & w & Hst & _ & _ & _ & Hnone & _ & ->).
  simpl in Hnone. destruct w as [s|]; simpl; [done|].
  destruct (bool_decide (full _)) eqn:Hfull; simpl.
  - apply bool_decide_eq_true_1 in Hfull. split; [done|]. intros _.
    split; [done|by apply Hnone].
  - apply bool_decide_eq_false_1 in Hfull. split; [done|].
    by rewrite Hst.
Qed.

Lemma game_coherent_inv px po ob g0 g :
  game.__init__ px po ob = Return g0 →
  (∀ b, ob = Some b → wf_board b ∧ no_line (_grid b) ∧ ¬ full (_grid b)) →
  reachable g0 g →
  game_inv g ∧
  (game._state g = game.IN_PROGRESS → ¬ full (_grid (game._board g))) ∧
  (game._state g = game.DRAW →
     full (_grid (game._board g)) ∧ no_line (_grid (game._board g))).
Proof.
  intros Hinit Hob Hreach.
  assert (Hob' : ∀ b, ob = Some b → wf_board b ∧ no_line (_grid b))
    by (intros b Hb; destruct (Hob b Hb) as (? & ? & _); done).
  pose proof (game_inv_init _ _ _ _ Hinit Hob') as Hinv0.
  induction Hreach as [|g row col _ IH|g _ IH].
  - split; [done|].
    destruct (game_shape_init _ _ _ _ Hinit
                (fun b Hb => proj1 (Hob' b Hb)))
      as (_ & _ & _ & Hst0 & _ & Hb0).
    rewrite Hst0, Hb0. split; [|done]. intros _.
    destruct ob as [b|]; [by apply (Hob b)|apply not_full_init].
  - destruct IH as (Hinv & Hprog & Hdraw).
    split; [by apply game_inv_apply_move|].
    by apply game_coherent_step.
  - destruct IH as (Hinv & _).
    split; [by apply game_inv_reset|].
    destruct Hinv as (Hwf & _). rewrite game_reset_spec by done. simpl.
    split; [intros _; apply not_full_init|done].
Qed.

(** X11: in every state of a game built on the default board (or on a 3x3
    board that is not full and has no completed line), the state and the
    board agree: in progress, the board is not full, has no completed line
    and no winner is recorded; drawn, the board is full without a
    completed line and no winner is recorded; won, the recorded winner
    symbol holds a completed line. *)
Theorem state_agrees_with_board px po ob g0 g :
  game.__init__ px po ob = Return g0 →
  (∀ b, ob = Some b → wf_board b ∧ no_line (_grid b) ∧ ¬ full (_grid b)) →
  reachable g0 g →
  let grid := _grid (game._board g) in
  match game._state g with
  | game.IN_PROGRESS =>
      ¬ full grid ∧ no_line grid ∧ game._winner_symbol g = None
  | game.DRAW => full grid ∧ no_line grid ∧ game._winner_symbol g = None
  | game.WIN => ∃ s, game._winner_symbol g = Some s ∧ line_of grid s
  end.
Proof.
  intros Hinit Hob Hreach grid. subst grid.
  destruct (game_coherent_inv _ _ _ _ _ Hinit Hob Hreach)
    as ((_ & _ & _ & _ & Hnoline & Hnowin & Hwin) & Hprog & Hdraw).
  destruct (game._state g) eqn:Hst.
  - split_and!; auto; apply Hnowin; congruence.
  - destruct (Hwin eq_refl) as (p & _ & Hw & Hline). by exists (player.symbol p).
  - destruct (Hdraw eq_refl). split_and!; auto.
Qed.

(** X11, witness: the game X has won records X, who holds a line. *)
Lemma state_agrees_with_board_witness :
  ∃ s, game._winner_symbol game_won = Some s ∧
       line_of (_grid (game._board game_won)) s.
Proof.
  assert (Hob : ∀ b : Board, None = Some b →
                wf_board b ∧ no_line (_grid b) ∧ ¬ full (_grid b))
    by (intros b [=]).
  exact (state_agrees_with_board ann bob None game_fresh game_won
           game_fresh_init Hob game_won_reachable).
Defined.

(** ** game.py: the marks alternate *)

Lemma count_symbol_after_mark s g r c sym :
  wf_rows g → in_range (r, c) → cell_at g (r, c) = Some None →
  count_symbol s (mkBoard (grid_update g r c (Some sym)))
  = (count_symbol s (mkBoard g) + (if decide (sym = s) then 1 else 0))%nat.
Proof.
  intros Hwf Hrc Hcell. unfold count_symbol. simpl.
  rewrite (count_after_update (fun v => v = Some s)) by done.
  destruct (decide (sym = s)) as [->|Hne].
  - by rewrite decide_True.
  - rewrite decide_False; [done|]. by intros [=].
Qed.

Lemma marks_alternate_step g row col :
  game_shape g →
  let nx g := Z.of_nat (count_symbol "X" (game._board g)) in
  let no g := Z.of_nat (count_symbol "O" (game._board g)) in
  (game._state g = game.IN_PROGRESS → nx g = no g + game._turn_idx g) →
  (game._state g ≠ game.IN_PROGRESS → nx g + game._turn_idx g = no g + 1) →
  let g' := (game.apply_move row col g).2 in
  (game._state g' = game.IN_PROGRESS → nx g' = no g' + game._turn_idx g') ∧
  (game._state g' ≠ game.IN_PROGRESS → nx g' + game._turn_idx g' = no g' + 1).
Proof.
  intros Hshape nx no Hprog Hover.
  destruct (apply_move_outcome_cases g row col Hshape)
    as [[g' Hmove]|[e Hmove]]; rewrite Hmove; simpl; [|done].
  destruct (apply_move_success g row col g' Hshape Hmove)
    as (p & w & Hst & Hp & Hrc & Hcell & _ & _ & Hg').
  specialize (Hprog Hst).
  pose proof (proj1 Hshape) as Hwf.
  pose proof (count_symbol_after_mark "X" _ _ _ (player.symbol p)
                Hwf Hrc Hcell) as HX.
  pose proof (count_symbol_after_mark "O" _ _ _ (player.symbol p)
                Hwf Hrc Hcell) as HO.
  assert (Hb : game._board g'
               = mkBoard (grid_update (_grid (game._board g)) row col
                            (Some (player.symbol p)))).
  { rewrite Hg'. destruct w as [s|]; [done|].
    by destruct (bool_decide (full _)). }
  assert (Hcase : (game._state g' ≠ game.IN_PROGRESS ∧
                   game._turn_idx g' = game._turn_idx g) ∨
                  (game._state g' = game.IN_PROGRESS ∧
                   game._turn_idx g' = Z.lxor (game._turn_idx g) 1)).
  { rewrite Hg'. destruct w as [s|]; [by left|].
    destruct (bool_decide (full _)); [by left|]. right. simpl. by rewrite Hst. }
  unfold nx, no in *. rewrite Hb, HX, HO.
  replace (count_symbol "X" (mkBoard (_grid (game._board g))))
    with (count_symbol "X" (game._board g)) by (by destruct (game._board g)).
  replace (count_symbol "O" (mkBoard (_grid (game._board g))))
    with (count_symbol "O" (game._board g)) by (by destruct (game._board g)).
  destruct (current_player_symbol g p Hshape Hp) as [[Hi Hs]|[Hi Hs]].
  all: rewrite Hs; simpl.
  all: destruct Hcase as [[Hst' ->]|[Hst' ->]]; rewrite Hi in *; simpl.
  all: cbv beta in Hprog.
  all: try change (Z.lxor 0 1) with 1; try change (Z.lxor 1 1) with 0.
  all: split; intros; try done; lia.
Qed.

Lemma marks_alternate_inv px po g0 g :
  game.__init__ px po None = Return g0 →
  reachable g0 g →
  game_shape g ∧
  (game._state g = game.IN_PROGRESS →
   Z.of_nat (count_symbol "X" (game._board g))
   = Z.of_nat (count_symbol "O" (game._board g)) + game._turn_idx g) ∧
  (game._state g ≠ game.IN_PROGRESS →
   Z.of_nat (count_symbol "X" (game._board g)) + game._turn_idx g
   = Z.of_nat (count_symbol "O" (game._board g)) + 1).
Proof.
  intros Hinit Hreach.
  assert (Hob : ∀ b : Board, None = Some b → wf_board b) by (intros b [=]).
  destruct (game_shape_init _ _ _ _ Hinit Hob)
    as (Hshape0 & _ & Hidx0 & Hst0 & _ & Hb0).
  induction Hreach as [|g row col _ IH|g _ IH].
  - split; [done|]. rewrite Hst0, Hb0, Hidx0. by split.
  - destruct IH as (Hshape & Hprog & Hover).
    split; [by apply game_shape_apply_move|].
    by apply marks_alternate_step.
  - destruct IH as (Hshape & _).
    split; [by apply game_shape_reset|].
    destruct Hshape as (Hwf & _). rewrite game_reset_spec by done.
    by split.
Qed.

(** X12: in every state of a game built on the default board the marks
    alternate: X has as many marks as O or one more; while the game is in
    progress the difference is the turn index (X is to move exactly when
    the counts are equal), and once it is over the difference is one minus
    the turn index (the player to move made the last mark). *)
Theorem marks_alternate px po g0 g :
  game.__init__ px po None = Return g0 →
  reachable g0 g →
  let nx := Z.of_nat (count_symbol "X" (game._board g)) in
  let no := Z.of_nat (count_symbol "O" (game._board g)) in
  (game._state g = game.IN_PROGRESS → nx = no + game._turn_idx g) ∧
  (game._state g ≠ game.IN_PROGRESS → nx + game._turn_idx g = no + 1) ∧
  no <= nx <= no + 1.
Proof.
  intros Hinit Hreach nx no. subst nx no.
  destruct (marks_alternate_inv _ _ _ _ Hinit Hreach)
    as ((_ & _ & _ & Hidx) & Hprog & Hover).
  split; [done|]. split; [done|].
  destruct (decide (game._state g = game.IN_PROGRESS)) as [Hst|Hst].
  - specialize (Hprog Hst). lia.
  - specialize (Hover Hst). lia.
Qed.

(** X12, witness: in the won game X has three marks, O two, and X (index
    0), who made the last mark, is still to move. *)
Lemma marks_alternate_witness :
  count_symbol "X" (game._board game_won) = 3%nat ∧
  count_symbol "O" (game._board game_won) = 2%nat ∧
  Z.of_nat (count_symbol "X" (game._board game_won))
  + game._turn_idx game_won
  = Z.of_nat (count_symbol "O" (game._board game_won)) + 1.
Proof.
  split; [reflexivity|]. split; [reflexivity|].
  apply (marks_alternate ann bob game_fresh game_won game_fresh_init
           game_won_reachable).
  discriminate.
Defined.

(** ** game.py: the length of a game *)

Lemma plays_reachable g0 n g : plays g0 n g → reachable g0 g.
Proof.
  induction 1 as [|n g row col g' _ IH Hmove|n g row col e g' _ IH Hmove].
  - apply reachable_init.
  - change g' with (Return tt, g').2. rewrite <- Hmove.
    by apply reachable_apply_move.
  - change g' with (@Raise unit e, g').2. rewrite <- Hmove.
    by apply reachable_apply_move.
Qed.

Lemma line_needs_three_marks (g : list (list (option string))) s :
  wf_rows g → line_of g s → (3 <= count_symbol s (mkBoard g))%nat.
Proof.
  intros (a0 & a1 & a2 & a3 & a4 & a5 & a6 & a7 & a8 & ->)%wf_rows_inv
         (line & Hline & Hholds).
  unfold lines in Hline. simpl in Hline.
  rewrite !elem_of_cons, elem_of_nil in Hline.
  repeat destruct Hline as [Hline|Hline]; try done; subst line;
    apply holds_line3 in Hholds as (E1 & E2 & E3);
    injection E1 as ->; injection E2 as ->; injection E3 as ->;
    unfold count_symbol; simpl; rewrite !length_filter_cons;
    rewrite !(decide_True (P := Some s = Some s)) by done; lia.
Qed.

Lemma occupied_at_least_marks (l : list (option string)) :
  (length (filter (fun v => v = Some "X") l)
   + length (filter (fun v => v = Some "O") l)
   <= length (filter (fun v => v ≠ None) l))%nat.
Proof.
  induction l as [|v l IH]; [done|].
  rewrite !length_filter_cons.
  destruct v as [s|].
  - rewrite (decide_True (P := Some s ≠ None)) by done.
    destruct (decide (Some s = Some "X")) as [[= ->]|];
      [rewrite decide_False by done|]; destruct (decide (_ = Some "O")); lia.
  - rewrite !decide_False by (try done; by intros H). lia.
Qed.

Lemma filter_none {A} (P : A → Prop) `{∀ x, Decision (P x)} (l : list A) :
  Forall (fun x => ¬ P x) l → filter P l = [].
Proof.
  induction 1 as [|x l Hx _ IH]; [done|].
  by rewrite filter_cons, decide_False.
Qed.

Lemma plays_count_inv px po g0 n g :
  game.__init__ px po None = Return g0 →
  plays g0 n g →
  occupied_count (game._board g) = n ∧
  (n <= 9)%nat ∧
  (n = 9%nat → game._state g ≠ game.IN_PROGRESS) ∧
  (game._state g = game.WIN → (5 <= n)%nat) ∧
  (game._state g = game.DRAW → n = 9%nat).
Proof.
  intros Hinit Hplays.
  assert (Hob : ∀ b : Board, None = Some b → wf_board b) by (intros b [=]).
  assert (Hob' : ∀ b : Board, None = Some b →
                 wf_board b ∧ no_line (_grid b) ∧ ¬ full (_grid b))
    by (intros b [=]).
  assert (Hcount : occupied_count (game._board g) = n).
  { induction Hplays as [|n g row col g' Hp IH Hmove|n g row col e g' Hp IH Hmove].
    - destruct (game_shape_init _ _ _ _ Hinit Hob) as (_ & _ & _ & _ & _ & ->).
      reflexivity.
    - destruct (game_shape_init _ _ _ _ Hinit Hob) as (Hshape0 & _).
      pose proof (reachable_shape _ _ Hshape0 (plays_reachable _ _ _ Hp))
        as Hshape.
      destruct (apply_move_success g row col g' Hshape Hmove)
        as (p & w & _ & _ & Hrc & Hcell & _ & _ & Hg').
      assert (Hb : _grid (game._board g')
                   = grid_update (_grid (game._board g)) row col
                       (Some (player.symbol p))).
      { rewrite Hg'. destruct w as [s|]; [done|].
        by destruct (bool_decide (full _)). }
      unfold occupied_count in *. rewrite Hb.
      rewrite (count_after_update (fun v => v ≠ None)); try done;
        [|apply Hshape|by intros H].
      rewrite decide_True by done. lia.
    - destruct (game_shape_init _ _ _ _ Hinit Hob) as (Hshape0 & _).
      pose proof (reachable_shape _ _ Hshape0 (plays_reachable _ _ _ Hp))
        as Hshape.
      by rewrite (apply_move_refused _ _ _ _ _ Hshape Hmove). }
  pose proof (plays_reachable _ _ _ Hplays) as Hreach.
  destruct (game_coherent_inv _ _ _ _ _ Hinit Hob' Hreach)
    as ((Hwf & _ & _ & _ & _ & _ & Hwin) & Hprog & Hdraw).
  destruct (marks_alternate_inv _ _ _ _ Hinit Hreach)
    as (Hshape & _ & Hover).
  pose proof (available_plus_occupied _ Hwf) as Hsum.
  split; [done|]. split; [lia|]. split; [|split].
  - intros -> Hst. apply (Hprog Hst).
    unfold full. rewrite Forall_forall. intros p Hp Hempty.
    destruct (filter _ coords) as [|q l] eqn:Hf; [|simpl in Hsum; lia].
    assert (p ∈ filter (fun p => cell_at (_grid (game._board g)) p = Some None)
                  coords) as Hmem by (by apply list_elem_of_filter).
    rewrite Hf in Hmem. by apply elem_of_nil in Hmem.
  - intros Hst. destruct (Hwin Hst) as (p & Hp & _ & Hline).
    pose proof (line_needs_three_marks _ _ Hwf Hline) as Hthree.
    assert (Hterm : game._state g ≠ game.IN_PROGRESS) by (by rewrite Hst).
    specialize (Hover Hterm).
    pose proof (occupied_at_least_marks (concat (_grid (game._board g))))
      as Hocc.
    fold (occupied_count (game._board g)) in Hocc.
    fold (count_symbol "X" (game._board g)) in Hocc.
    fold (count_symbol "O" (game._board g)) in Hocc.
    replace (count_symbol (player.symbol p) (mkBoard (_grid (game._board g))))
      with (count_symbol (player.symbol p) (game._board g)) in Hthree
      by (by destruct (game._board g)).
    destruct (current_player_symbol g p Hshape Hp) as [[Hi Hs]|[Hi Hs]];
      rewrite Hs in Hthree; lia.
  - intros Hst. destruct (Hdraw Hst) as [Hfull _].
    unfold full in Hfull.
    rewrite (filter_none _ _ Hfull) in Hsum. simpl in Hsum. lia.
Qed.

(** X13: in a game built on the default board, the number of successful
    [apply_move] calls made so far is the number of occupied cells; hence
    at most nine moves succeed, after the ninth the game is over, and no
    game is won before its fifth move. *)
Theorem moves_counted_by_marks px po g0 n g :
  game.__init__ px po None = Return g0 →
  plays g0 n g →
  occupied_count (game._board g) = n ∧
  (n <= 9)%nat ∧
  (n = 9%nat → game._state g ≠ game.IN_PROGRESS) ∧
  (game._state g = game.WIN → (5 <= n)%nat).
Proof.
  intros Hinit Hplays.
  destruct (plays_count_inv _ _ _ _ _ Hinit Hplays) as (H1 & H2 & H3 & H4 & _).
  done.
Qed.

Lemma plays_apply_move g0 n g row col :
  plays g0 n g →
  match (game.apply_move row col g).1 with
  | Return _ => plays g0 (S n) (game.apply_move row col g).2
  | Raise _ => plays g0 n (game.apply_move row col g).2
  end.
Proof.
  intros Hp. destruct (game.apply_move row col g) as [[e|[]] g'] eqn:Hmove.
  - by eapply plays_refused.
  - by eapply plays_accepted.
Qed.

(** X13, witness: the game X won took five moves, the refused one not
    counted. *)
Lemma moves_counted_by_marks_witness :
  plays game_fresh 5 game_won ∧ occupied_count (game._board game_won) = 5%nat.
Proof.
  assert (Hplays : plays game_fresh 5 game_won).
  { pose (g1 := (game.apply_move 0 0 game_fresh).2).
    pose (g2 := (game.apply_move 1 0 g1).2).
    pose (g3 := (game.apply_move 0 1 g2).2).
    assert (H1 : plays game_fresh 1 g1).
    { apply (plays_accepted _ 0 game_fresh 0 0); [apply plays_start|].
      vm_compute. reflexivity. }
    assert (H2 : plays game_fresh 2 g2).
    { apply (plays_accepted _ 1 g1 1 0); [exact H1|].
      vm_compute. reflexivity. }
    assert (H3 : plays game_fresh 3 g3).
    { apply (plays_accepted _ 2 g2 0 1); [exact H2|].
      vm_compute. reflexivity. }
    assert (H4 : plays game_fresh 4 game_before_win).
    { apply (plays_accepted _ 3 g3 1 1); [exact H3|].
      vm_compute. reflexivity. }
    assert (H4' : plays game_fresh 4 game_before_win).
    { apply (plays_refused _ 4 game_before_win 0 0
               (ValueError CellOccupied)); [exact H4|].
      vm_compute. reflexivity. }
    apply (plays_accepted _ 4 game_before_win 0 2); [exact H4'|].
    vm_compute. reflexivity. }
  split; [exact Hplays|].
  exact (proj1 (moves_counted_by_marks ann bob game_fresh 5 game_won
                  game_fresh_init Hplays)).
Defined.

(** ** revised_tictactoe_onescript.py: board and player *)

(** X14: the single-script [Board.reset] turns every 3x3 board, whatever
    it holds, into the board [Board()] builds: size 3 and nine blank
    cells; the board is then not full. *)
Theorem script_reset_restores_fresh b :
  wf_script_board b →
  onescript.Board_reset b = (Return tt, onescript.Board_init) ∧
  onescript.Board_is_full (onescript.Board_reset b).2 = false ∧
  ∀ p, in_range p →
       cell_at (onescript.grid (onescript.Board_reset b).2) p = Some " ".
Proof.
  intros [Hsize Hwf]. destruct b as [n g]. simpl in *. subst n.
  destruct (wf_rows_inv _ Hwf) as (a & b & c & d & e & f & x & y & z & ->).
  split; [reflexivity|]. split; [reflexivity|].
  intros p Hp%in_range_cases. unfold coords in Hp.
  rewrite !elem_of_cons, elem_of_nil in Hp.
  repeat destruct Hp as [Hp|Hp]; try done; by subst p.
Qed.

(** X14, witness: resetting the board that holds X in a corner. *)
Lemma script_reset_restores_fresh_witness :
  onescript.Board_reset script_board_x00 = (Return tt, onescript.Board_init).
Proof.
  apply script_reset_restores_fresh.
  split; [reflexivity|]. split; [reflexivity|]. repeat constructor.
Defined.

(** X15: the single-script [Player.make_move] never raises on a 3x3
    board: it returns [True], having set exactly the target cell to the
    player's symbol, when the coordinates are valid, the player's symbol
    is X or O and the cell is blank; in every other case (coordinates out
    of range, unusable symbol, occupied cell) it returns [False] and
    leaves the board unchanged. *)
Theorem script_make_move_never_raises p b row col :
  wf_script_board b →
  let ok := in_range (row, col) ∧
            (onescript.symbol p = "X" ∨ onescript.symbol p = "O") ∧
            cell_at (onescript.grid b) (row, col) = Some " " in
  (ok →
   ∃ b', onescript.Player_make_move p row col b = (Return true, b') ∧
         onescript.size b' = onescript.size b ∧
         ∀ q, cell_at (onescript.grid b') q
              = if decide (q = (row, col)) then Some (onescript.symbol p)
                else cell_at (onescript.grid b) q) ∧
  (¬ ok → onescript.Player_make_move p row col b = (Return false, b)).
Proof.
  intros Hwf ok. subst ok. rewrite script_make_move_cases by done.
  split.
  - intros Hok. rewrite decide_True by done.
    destruct Hok as (Hrc & _ & Hcell).
    eexists. split; [reflexivity|]. split; [done|]. intros q. simpl.
    apply cell_at_update; [apply Hrc..|]. rewrite Hcell. by eexists.
  - intros Hno. by rewrite decide_False.
Qed.

(** X15, witness: a move outside the board and a move on a taken cell
    both return [False]. *)
Lemma script_make_move_never_raises_witness :
  onescript.Player_make_move script_bob 7 0 script_board_x00
  = (Return false, script_board_x00) ∧
  onescript.Player_make_move script_bob 0 0 script_board_x00
  = (Return false, script_board_x00).
Proof.
  assert (Hwf : wf_script_board script_board_x00).
  { split; [reflexivity|]. split; [reflexivity|]. repeat constructor. }
  split.
  - apply (proj2 (script_make_move_never_raises script_bob script_board_x00
                    7 0 Hwf)).
    intros ([Hr _] & _). simpl in Hr. lia.
  - apply (proj2 (script_make_move_never_raises script_bob script_board_x00
                    0 0 Hwf)).
    intros (_ & _ & Hcell). discriminate Hcell.
Defined.

(** X16: on a 3x3 board [_check_winner(symbol)] does not raise and is
    [True] exactly when one of the eight lines holds [symbol] in its three
    cells.  The test does not exclude the blank: on the board [Board()]
    builds, [_check_winner(" ")] is [True]. *)
Theorem script_check_winner_lines e s :
  wf_script_board (onescript.board e) →
  (∃ won, onescript.GameEngine_check_winner s e = Return won ∧
          (won = true ↔
           ∃ line, line ∈ lines ∧
                   holds_line (onescript.grid (onescript.board e)) line s)) ∧
  (onescript.board e = onescript.Board_init →
   onescript.GameEngine_check_winner " " e = Return true).
Proof.
  intros Hwf. split; [by apply script_check_winner_spec|].
  intros Hb. unfold onescript.GameEngine_check_winner,
    onescript.GameEngine_lines. by rewrite Hb.
Qed.

(** X16, witness: a fresh engine has no line of X but three blanks in a
    row. *)
Lemma script_check_winner_lines_witness :
  onescript.GameEngine_check_winner "X" script_engine_fresh = Return false ∧
  onescript.GameEngine_check_winner " " script_engine_fresh = Return true.
Proof.
  split; [reflexivity|].
  apply (proj2 (script_check_winner_lines script_engine_fresh " "
                  wf_script_board_init)).
  reflexivity.
Defined.

(** ** revised_tictactoe_onescript.py: the automated player in a game *)

Lemma not_script_full_init : ¬ script_full (onescript.grid onescript.Board_init).
Proof.
  unfold script_full, coords. intros [Hne _]%Forall_cons. by apply Hne.
Qed.

Lemma script_not_full_inv p1 p2 e :
  script_reachable (onescript.GameEngine_init p1 p2) e →
  status e = InProgress →
  ¬ script_full (onescript.grid (onescript.board e)).
Proof.
  intros Hreach.
  induction Hreach as [|e row col Hreach IH]; [intros _; apply not_script_full_init|].
  pose proof (script_reachable_inv _ _ (script_inv_init p1 p2) Hreach) as Hinv.
  destruct (script_play_turn_outcomes e row col Hinv) as [[e' He']|He'];
    rewrite He'; simpl; [|done].
  destruct Hinv as (Hwf & Hidx & _).
  destruct (script_play_turn_success e row col e' Hwf Hidx He')
    as (p & won & Hst & _ & _ & _ & _ & _ & ->).
  apply status_in_progress in Hst as [Hw Hd].
  destruct won; [by unfold status|].
  destruct (bool_decide (script_full _)) eqn:Hfull.
  - unfold status. simpl. by rewrite Hw.
  - intros _. by apply bool_decide_eq_false_1 in Hfull.
Qed.

Lemma script_choose_move_some randbelow b :
  (∀ n, 0 < n → 0 <= randbelow n < n) →
  wf_script_board b →
  ¬ script_full (onescript.grid b) →
  ∃ m, onescript.ComputerPlayer_choose_move randbelow b = Return m ∧
       in_range m ∧ cell_at (onescript.grid b) m = Some " ".
Proof.
  intros Hrand Hwf Hnot. unfold onescript.ComputerPlayer_choose_move.
  rewrite script_available_spec by done. simpl.
  apply not_Forall_Exists in Hnot; [|apply _].
  apply Exists_exists in Hnot as (q & Hq & Hblank). simpl in Hblank.
  apply dec_stable in Hblank.
  assert (Hmem : q ∈ filter (fun p => cell_at (onescript.grid b) p = Some " ")
                       coords) by (by apply list_elem_of_filter).
  destruct (filter _ coords) as [|q0 l] eqn:Hf;
    [by apply elem_of_nil in Hmem|].
  rewrite bool_decide_eq_false_2 by done.
  destruct (choice_in_list randbelow (q0 :: l) Hrand) as (m & Hm & Hin);
    [done|].
  exists m. split; [done|].
  rewrite <- Hf in Hin. apply list_elem_of_filter in Hin as [Hcell Hc].
  split; [by apply in_range_cases|done].
Qed.

Lemma script_player_init_symbol n s p :
  onescript.Player_init n s = Return p →
  onescript.symbol p = "X" ∨ onescript.symbol p = "O".
Proof.
  unfold onescript.Player_init.
  destruct (bool_decide (s ∈ ({[ "X"; "O" ]} : gset string))) eqn:Hs; [|done].
  intros [= <-]. simpl. apply bool_decide_eq_true_1 in Hs.
  by apply script_symbols_spec.
Qed.

Section ComputerPlayerInGame.

Variable randbelow : Z → Z.
Hypothesis randbelow_range : ∀ n, 0 < n → 0 <= randbelow n < n.

(** X17: in a single-script game between two players built by
    [Player(...)], started by [GameEngine(p1, p2)] and driven by
    [play_turn], as long as the game is in progress the board is not
    full, so [choose_move] does not raise NoMovesAvailable, and the move
    it picks is accepted: [play_turn] returns [True] on it. *)
Theorem computer_move_is_accepted n1 s1 n2 s2 p1 p2 e :
  onescript.Player_init n1 s1 = Return p1 →
  onescript.Player_init n2 s2 = Return p2 →
  script_reachable (onescript.GameEngine_init p1 p2) e →
  status e = InProgress →
  ¬ script_full (onescript.grid (onescript.board e)) ∧
  ∃ m, onescript.ComputerPlayer_choose_move randbelow (onescript.board e)
       = Return m ∧
       cell_at (onescript.grid (onescript.board e)) m = Some " " ∧
       (onescript.GameEngine_play_turn m.1 m.2 e).1 = Return true.
Proof.
  intros H1 H2 Hreach Hst.
  pose proof (script_not_full_inv _ _ _ Hreach Hst) as Hnot.
  split; [done|].
  destruct (script_reachable_inv _ _ (script_inv_init p1 p2) Hreach)
    as (Hwf & Hidx & _).
  destruct (script_choose_move_some randbelow _ randbelow_range Hwf Hnot)
    as ([r c] & Hm & Hrc & Hcell).
  exists (r, c). split; [done|]. split; [done|]. simpl.
  destruct (script_current_player_cases e Hidx) as (p & Hp & Hwho).
  destruct (script_reachable_players _ _ _ Hreach) as [Hone Htwo].
  assert (Hs : onescript.symbol p = "X" ∨ onescript.symbol p = "O").
  { destruct Hwho as [[_ ->]|[_ ->]].
    - rewrite Hone. by eapply script_player_init_symbol.
    - rewrite Htwo. by eapply script_player_init_symbol. }
  pose proof (script_play_turn_in_progress e r c p Hwf Hst Hp) as Hcase.
  rewrite decide_True in Hcase by done.
  simpl in Hcase. destruct Hcase as (won & _ & ->). done.
Qed.

End ComputerPlayerInGame.

(** X17, witness: on the fresh engine of Ann and Bob a generator that
    answers 0 picks the top-left cell, and the move is accepted. *)
Lemma computer_move_is_accepted_witness :
  onescript.ComputerPlayer_choose_move randbelow_zero
    (onescript.board script_engine_fresh) = Return (0, 0) ∧
  (onescript.GameEngine_play_turn 0 0 script_engine_fresh).1 = Return true.
Proof.
  assert (Hrand : ∀ n, 0 < n → 0 <= randbelow_zero n < n)
    by (unfold randbelow_zero; lia).
  destruct (computer_move_is_accepted randbelow_zero Hrand
              "Ann" "X" "Bob" "O" script_ann script_bob script_engine_fresh
              eq_refl eq_refl (script_reachable_init _) eq_refl)
    as (_ & m & Hm & _ & Hok).
  assert (m = (0, 0)) as -> by (vm_compute in Hm; by injection Hm).
  split; [exact Hm|exact Hok].
Defined.

(** ** revised_tictactoe_onescript.py: the cells and the display *)

Lemma script_valid_board_init : script_valid_board onescript.Board_init.
Proof.
  split; [apply wf_script_board_init|]. intros p Hp%in_range_cases.
  exists " ". split; [|by left]. unfold coords in Hp.
  rewrite !elem_of_cons, elem_of_nil in Hp.
  repeat destruct Hp as [Hp|Hp]; try done; by subst p.
Qed.

Lemma script_valid_board_make_move p b row col :
  script_valid_board b →
  script_valid_board (onescript.Player_make_move p row col b).2.
Proof.
  intros [Hwf Hcells]. rewrite script_make_move_cases by done.
  case_decide as Hok; [|done].
  destruct Hok as (Hrc & Hs & Hcell). simpl.
  split; [by apply wf_script_board_update|]. simpl. intros q Hq.
  rewrite cell_at_update; [|apply Hrc..|rewrite Hcell; by eexists].
  case_decide; [|by apply Hcells].
  eexists. split; [done|]. destruct Hs as [-> | ->]; [right; by left|right; by right].
Qed.

(** X18: in every state of a single-script engine started by
    [GameEngine(p1, p2)] and driven by [play_turn], whatever the players
    and the moves, the board has size 3 and each of its nine cells holds
    the blank, "X" or "O". *)
Theorem script_engine_board_valid p1 p2 e :
  script_reachable (onescript.GameEngine_init p1 p2) e →
  script_valid_board (onescript.board e).
Proof.
  induction 1 as [|e row col Hreach IH]; [apply script_valid_board_init|].
  pose proof (script_reachable_inv _ _ (script_inv_init p1 p2) Hreach) as Hinv.
  destruct (script_play_turn_outcomes e row col Hinv) as [[e' He']|He'];
    rewrite He'; simpl; [|done].
  destruct Hinv as (Hwf & Hidx & _).
  destruct (script_play_turn_success e row col e' Hwf Hidx He')
    as (p & won & _ & _ & Hrc & Hs & Hcell & _ & ->).
  pose proof (script_valid_board_make_move p _ row col IH) as Hvalid.
  rewrite script_make_move_cases, decide_True in Hvalid by done.
  destruct won; [done|]. by destruct (bool_decide (script_full _)).
Qed.

(** X18, witness: the board of the drawn game. *)
Lemma script_engine_board_valid_witness :
  script_valid_board (onescript.board script_engine_drawn).
Proof.
  apply (script_engine_board_valid script_ann script_bob).
  change script_engine_drawn with
    (onescript.GameEngine_play_turn 2 2 script_engine_before_draw).2.
  apply script_reachable_play_turn, script_engine_before_draw_reachable.
Defined.

Lemma script_glyph_string v :
  script_valid_cell v → v = String (script_glyph v) "".
Proof. by intros [->|[->| ->]]. Qed.

Lemma script_valid_board_inv b :
  script_valid_board b →
  ∃ a0 a1 a2 b0 b1 b2 c0 c1 c2,
    b = onescript.mkBoard 3 [[a0; a1; a2]; [b0; b1; b2]; [c0; c1; c2]] ∧
    Forall script_valid_cell [a0; a1; a2; b0; b1; b2; c0; c1; c2].
Proof.
  intros [[Hsize Hwf] Hcells]. destruct b as [n g]. simpl in *. subst n.
  destruct (wf_rows_inv _ Hwf)
    as (a0 & a1 & a2 & b0 & b1 & b2 & c0 & c1 & c2 & ->).
  exists a0, a1, a2, b0, b1, b2, c0, c1, c2. split; [done|].
  repeat apply Forall_cons_2; try apply Forall_nil_2.
  - by destruct (Hcells (0, 0)) as (v & [= <-] & Hv); [unfold in_range; simpl; lia|].
  - by destruct (Hcells (0, 1)) as (v & [= <-] & Hv); [unfold in_range; simpl; lia|].
  - by destruct (Hcells (0, 2)) as (v & [= <-] & Hv); [unfold in_range; simpl; lia|].
  - by destruct (Hcells (1, 0)) as (v & [= <-] & Hv); [unfold in_range; simpl; lia|].
  - by destruct (Hcells (1, 1)) as (v & [= <-] & Hv); [unfold in_range; simpl; lia|].
  - by destruct (Hcells (1, 2)) as (v & [= <-] & Hv); [unfold in_range; simpl; lia|].
  - by destruct (Hcells (2, 0)) as (v & [= <-] & Hv); [unfold in_range; simpl; lia|].
  - by destruct (Hcells (2, 1)) as (v & [= <-] & Hv); [unfold in_range; simpl; lia|].
  - by destruct (Hcells (2, 2)) as (v & [= <-] & Hv); [unfold in_range; simpl; lia|].
Qed.

Lemma script_display_of_valid_board a0 a1 a2 b0 b1 b2 c0 c1 c2 :
  Forall script_valid_cell [a0; a1; a2; b0; b1; b2; c0; c1; c2] →
  onescript.Board_display
    (onescript.mkBoard 3 [[a0; a1; a2]; [b0; b1; b2]; [c0; c1; c2]])
  = script_row_text (script_glyph a0) (script_glyph a1) (script_glyph a2)
    +:+ newline +:+
    script_row_text (script_glyph b0) (script_glyph b1) (script_glyph b2)
    +:+ newline +:+
    script_row_text (script_glyph c0) (script_glyph c1) (script_glyph c2).
Proof.
  intros Hall. rewrite !Forall_cons in Hall.
  destruct Hall as (H0 & H1 & H2 & H3 & H4 & H5 & H6 & H7 & H8 & _).
  rewrite (script_glyph_string a0 H0) at 1.
  rewrite (script_glyph_string a1 H1) at 1.
  rewrite (script_glyph_string a2 H2) at 1.
  rewrite (script_glyph_string b0 H3) at 1.
  rewrite (script_glyph_string b1 H4) at 1.
  rewrite (script_glyph_string b2 H5) at 1.
  rewrite (script_glyph_string c0 H6) at 1.
  rewrite (script_glyph_string c1 H7) at 1.
  rewrite (script_glyph_string c2 H8) at 1.
  reflexivity.
Qed.

(** X19: the single-script [display] of a 3x3 board whose cells hold the
    blank, X or O is 29 characters long, shows the cell at [(r, c)] as the
    character at position [10 r + 4 c], and two such boards with the same
    display are the same board. *)
Theorem script_display_unambiguous b1 b2 :
  script_valid_board b1 → script_valid_board b2 →
  String.length (onescript.Board_display b1) = 29%nat ∧
  (∀ p v, in_range p → cell_at (onescript.grid b1) p = Some v →
          String.get (Z.to_nat (10 * p.1 + 4 * p.2))
            (onescript.Board_display b1)
          = Some (script_glyph v)) ∧
  (onescript.Board_display b1 = onescript.Board_display b2 → b1 = b2).
Proof.
  intros (a0 & a1 & a2 & a3 & a4 & a5 & a6 & a7 & a8 & -> & Ha)%script_valid_board_inv
         (c0 & c1 & c2 & c3 & c4 & c5 & c6 & c7 & c8 & -> & Hc)%script_valid_board_inv.
  rewrite !script_display_of_valid_board by done. split_and!.
  - reflexivity.
  - intros p v Hp%in_range_cases Hv. unfold coords in Hp.
    rewrite !elem_of_cons, elem_of_nil in Hp.
    repeat destruct Hp as [Hp|Hp]; try done; subst p;
      injection Hv as <-; reflexivity.
  - intros Heq. rewrite !Forall_cons in Ha, Hc.
    destruct Ha as (A0 & A1 & A2 & A3 & A4 & A5 & A6 & A7 & A8 & _).
    destruct Hc as (C0 & C1 & C2 & C3 & C4 & C5 & C6 & C7 & C8 & _).
    unfold script_row_text, newline in Heq. simpl in Heq.
    injection Heq as E0 E1 E2 E3 E4 E5 E6 E7 E8.
    rewrite (script_glyph_string a0 A0), (script_glyph_string a1 A1),
      (script_glyph_string a2 A2), (script_glyph_string a3 A3),
      (script_glyph_string a4 A4), (script_glyph_string a5 A5),
      (script_glyph_string a6 A6), (script_glyph_string a7 A7),
      (script_glyph_string a8 A8).
    rewrite (script_glyph_string c0 C0), (script_glyph_string c1 C1),
      (script_glyph_string c2 C2), (script_glyph_string c3 C3),
      (script_glyph_string c4 C4), (script_glyph_string c5 C5),
      (script_glyph_string c6 C6), (script_glyph_string c7 C7),
      (script_glyph_string c8 C8).
    by rewrite E0, E1, E2, E3, E4, E5, E6, E7, E8.
Qed.

(** X19, witness: the display of the board with X in the corner starts
    with X and shows a blank at position 14, the centre. *)
Lemma script_display_unambiguous_witness :
  String.get 0 (onescript.Board_display script_board_x00) = Some "X"%char ∧
  String.get 14 (onescript.Board_display script_board_x00) = Some " "%char.
Proof.
  assert (Hvalid : script_valid_board script_board_x00).
  { change script_board_x00 with
      (onescript.Player_make_move script_ann 0 0 onescript.Board_init).2.
    apply script_valid_board_make_move, script_valid_board_init. }
  destruct (script_display_unambiguous script_board_x00 script_board_x00
              Hvalid Hvalid) as (_ & Hget & _).
  split.
  - apply (Hget (0, 0) "X"); [unfold in_range; simpl; lia|reflexivity].
  - apply (Hget (1, 1) " "); [unfold in_range; simpl; lia|reflexivity].
Defined.

(** ** main.py: [parse_move] *)

Import PyText.

Lemma parse_move_in_range raw r c :
  main.parse_move raw = inr (r, c) → in_range (r, c).
Proof.
  unfold main.parse_move. intros Hparse.
  repeat case_match; try discriminate.
  all: injection Hparse as <- <-.
  all: match goal with
       | H : negb _ = false |- _ =>
           apply negb_false_iff, andb_true_iff in H as [Hr Hc];
           apply bool_decide_eq_true_1 in Hr, Hc
       end.
  all: unfold in_range; simpl in *; lia.
Qed.

(** X20: whatever text it is given, a pair returned by [parse_move] lies
    on the board; so in a game in progress [apply_move] on a parsed move
    either succeeds or raises the occupied-cell error with the game
    unchanged: the driver can never trigger the out-of-range error. *)
Theorem parsed_move_fails_only_on_occupied px po ob g0 g raw r c :
  game.__init__ px po ob = Return g0 →
  (∀ b, ob = Some b → wf_board b) →
  reachable g0 g →
  game._state g = game.IN_PROGRESS →
  main.parse_move raw = inr (r, c) →
  in_range (r, c) ∧
  ((∃ g', game.apply_move r c g = (Return tt, g')) ∨
   game.apply_move r c g = (Raise (ValueError CellOccupied), g)).
Proof.
  intros Hinit Hob Hreach Hst Hparse.
  pose proof (parse_move_in_range _ _ _ Hparse) as Hrc.
  split; [done|].
  destruct (game_shape_init _ _ _ _ Hinit Hob) as (Hshape0 & _).
  pose proof (reachable_shape _ _ Hshape0 Hreach) as Hshape.
  pose proof Hshape as (Hwf & _ & _ & Hidx).
  destruct (current_player_cases g Hidx) as (p & Hp & _).
  pose proof (apply_move_in_progress g r c p Hwf Hst Hp) as Hcase.
  rewrite place_mark_cases in Hcase by done.
  rewrite decide_True in Hcase by done.
  assert (Hs : player.symbol p = "X" ∨ player.symbol p = "O")
    by (destruct (current_player_symbol g p Hshape Hp) as [[_ ->]|[_ ->]]; auto).
  rewrite decide_True in Hcase by done.
  destruct (cell_at _ _) as [[s|]|]; [by right| |by right].
  left. simpl in Hcase. destruct Hcase as (w & _ & _ & _ & ->). by eexists.
Qed.

(** X20, witness: the line ["1 1"] on the board whose corner is taken. *)
Lemma parsed_move_fails_only_on_occupied_witness :
  main.parse_move "1 1" = inr (0, 0) ∧
  game.apply_move 0 0 game_before_win
  = (Raise (ValueError CellOccupied), game_before_win).
Proof.
  assert (Hob : ∀ b : Board, None = Some b → wf_board b) by (intros b [=]).
  split; [reflexivity|].
  destruct (parsed_move_fails_only_on_occupied ann bob None game_fresh
              game_before_win "1 1" 0 0 game_fresh_init Hob
              game_before_win_reachable eq_refl eq_refl)
    as (_ & [[g' Hok]|Hfail]); [|exact Hfail].
  vm_compute in Hok. discriminate Hok.
Defined.

Lemma list_ascii_of_string_app s1 s2 :
  list_ascii_of_string (s1 +:+ s2)
  = (list_ascii_of_string s1 ++ list_ascii_of_string s2)%list.
Proof. induction s1 as [|c s1 IH]; [done|]. simpl. by rewrite IH. Qed.

Lemma split_chars_run la rest cur :
  Forall (fun c => isspace c = false) la →
  split_chars (la ++ rest) cur = split_chars rest (rev la ++ cur).
Proof.
  intros Hla. revert cur. induction Hla as [|c la Hc _ IH]; intros cur; [done|].
  simpl. rewrite Hc, IH. by rewrite <- app_assoc.
Qed.

Lemma split_chars_gap lsep rest :
  Forall (fun c => isspace c = true) lsep →
  split_chars (lsep ++ rest) [] = split_chars rest [].
Proof. induction 1 as [|c l Hc _ IH]; [done|]. simpl. by rewrite Hc. Qed.

Lemma split_chars_gap_after lsep rest c cur :
  Forall (fun c => isspace c = true) lsep → lsep ≠ [] →
  split_chars (lsep ++ rest) (c :: cur)
  = rev (c :: cur) :: split_chars rest [].
Proof.
  intros Hsep Hne. destruct Hsep as [|d l Hd Hl]; [done|].
  cbn [app split_chars]. rewrite Hd. f_equal. by apply split_chars_gap.
Qed.

Lemma split_chars_one la :
  la ≠ [] → Forall (fun c => isspace c = false) la →
  split_chars la [] = [la].
Proof.
  intros Hne Hla. rewrite <- (app_nil_r la) at 1.
  rewrite split_chars_run, app_nil_r by done. simpl.
  destruct (rev la) as [|c l] eqn:Hrev.
  - apply (f_equal (@rev ascii)) in Hrev. rewrite rev_involutive in Hrev. done.
  - by rewrite <- Hrev, rev_involutive.
Qed.

Lemma split_chars_two la lsep lb :
  la ≠ [] → Forall (fun c => isspace c = false) la →
  lsep ≠ [] → Forall (fun c => isspace c = true) lsep →
  lb ≠ [] → Forall (fun c => isspace c = false) lb →
  split_chars (la ++ lsep ++ lb) [] = [la; lb].
Proof.
  intros Hna Hla Hns Hsep Hnb Hlb.
  rewrite split_chars_run, app_nil_r by done.
  destruct (rev la) as [|c l] eqn:Hrev.
  - apply (f_equal (@rev ascii)) in Hrev. rewrite rev_involutive in Hrev. done.
  - rewrite split_chars_gap_after by done.
    rewrite <- Hrev, rev_involutive. f_equal. by apply split_chars_one.
Qed.

Lemma strip_chars_ends l c0 l0 m d :
  l = c0 :: l0 → l = (m ++ [d])%list →
  isspace c0 = false → isspace d = false →
  rev (lstrip_chars (rev (lstrip_chars l))) = l.
Proof.
  intros Hhead Hlast Hc Hd.
  assert (lstrip_chars l = l) as -> by (rewrite Hhead; simpl; by rewrite Hc).
  rewrite Hlast at 1. rewrite rev_app_distr. simpl. rewrite Hd.
  change (d :: rev m) with (rev [d] ++ rev m)%list.
  rewrite <- rev_app_distr, rev_involutive. done.
Qed.

Lemma Forall_lstrip_chars (P : ascii → Prop) l :
  Forall P l → Forall P (lstrip_chars l).
Proof.
  induction 1 as [|c l Hc Hl IH]; [done|]. simpl.
  destruct (isspace c); [done|by constructor].
Qed.

Lemma token_ends l :
  token l →
  Forall (fun c => isspace c = false) l ∧
  Forall (fun c => c ≠ ","%char) l ∧
  (∃ c0 l0, l = c0 :: l0 ∧ isspace c0 = false) ∧
  (∃ m d, l = (m ++ [d])%list ∧ isspace d = false).
Proof.
  intros [Hne Hall].
  assert (Hs : Forall (fun c => isspace c = false) l)
    by (apply (Forall_impl _ _ _ Hall); by intros c (? & ? & ?)).
  assert (Hc : Forall (fun c => c ≠ ","%char) l)
    by (apply (Forall_impl _ _ _ Hall); by intros c (? & ? & ?)).
  split; [done|]. split; [done|]. split.
  - destruct l as [|c0 l0]; [done|]. exists c0, l0. split; [done|].
    by apply Forall_cons in Hs as [? _].
  - destruct (exists_last Hne) as [m [d ->]]. exists m, d. split; [done|].
    apply Forall_app in Hs as [_ Hd]. by apply Forall_cons in Hd as [? _].
Qed.

Lemma replace_comma_token l :
  Forall (fun c => c ≠ ","%char) l →
  map (fun c => if decide (c = ","%char) then " "%char else c) l = l.
Proof.
  induction 1 as [|c l Hc _ IH]; [done|]. simpl.
  by rewrite decide_False, IH.
Qed.

Lemma replace_comma_separator l :
  Forall (fun c => isspace c = true ∨ c = ","%char) l →
  Forall (fun c => isspace c = true)
    (map (fun c => if decide (c = ","%char) then " "%char else c) l).
Proof.
  induction 1 as [|c l Hc _ IH]; [done|]. simpl. constructor; [|done].
  case_decide; [done|]. by destruct Hc.
Qed.

Lemma elem_of_one_two_three (a : Z) : a ∈ [1; 2; 3] ↔ 1 <= a <= 3.
Proof.
  rewrite !elem_of_cons, elem_of_nil. lia.
Qed.

Lemma token_string_nonempty s : token (list_ascii_of_string s) → s ≠ "".
Proof. intros [Hne _] ->. by apply Hne. Qed.

Lemma parse_parts_two sa sep sb :
  token (list_ascii_of_string sa) →
  separator (list_ascii_of_string sep) →
  token (list_ascii_of_string sb) →
  filter (fun p => p ≠ "")
    (split (replace_char "," " " (strip (sa +:+ sep +:+ sb))))
  = [sa; sb].
Proof.
  intros Ha [Hnsep Hsep] Hb.
  pose proof (token_string_nonempty _ Ha) as Hane.
  pose proof (token_string_nonempty _ Hb) as Hbne.
  destruct (token_ends _ Ha) as (Has & Hac & (c0 & l0 & Ha0 & Hc0) & _).
  destruct (token_ends _ Hb) as (Hbs & Hbc & _ & (m & d & Hbm & Hd)).
  destruct Ha as [Hna _]. destruct Hb as [Hnb _].
  set (la := list_ascii_of_string sa) in *.
  set (ls := list_ascii_of_string sep) in *.
  set (lb := list_ascii_of_string sb) in *.
  unfold strip, replace_char, split.
  rewrite !list_ascii_of_string_app. fold la ls lb.
  rewrite (strip_chars_ends (la ++ ls ++ lb) c0 (l0 ++ ls ++ lb)
             (la ++ ls ++ m) d);
    [|by rewrite Ha0|by rewrite Hbm, !app_assoc|done|done].
  rewrite !list_ascii_of_string_of_list_ascii, !map_app.
  rewrite (replace_comma_token la), (replace_comma_token lb) by done.
  rewrite split_chars_two; try done.
  - simpl. unfold la, lb. rewrite !string_of_list_ascii_of_string.
    rewrite !filter_cons, !decide_True by done. done.
  - by destruct ls.
  - by apply replace_comma_separator.
Qed.

(** X21: [parse_move] accepts two integer literals separated by any
    non-empty mix of whitespace and commas (["1 3"], ["0,2"], ["2, 2"]).
    When both numbers lie in 1..3 they are taken as 1-based and shifted
    down by one, even when they would also be valid 0-based coordinates;
    otherwise, when both lie in 0..2 (so one of them is 0) they are taken
    as they are; every other pair is refused as off the board, and text
    that is not an integer literal as invalid. *)
Theorem parse_move_formats sa sep sb :
  token (list_ascii_of_string sa) →
  separator (list_ascii_of_string sep) →
  token (list_ascii_of_string sb) →
  main.parse_move (sa +:+ sep +:+ sb)
  = match int_ sa, int_ sb with
    | Some a, Some b =>
        if decide (1 <= a <= 3 ∧ 1 <= b <= 3) then inr (a - 1, b - 1)
        else if decide (0 <= a <= 2 ∧ 0 <= b <= 2) then inr (a, b)
        else inl main.OutOfBoard
    | _, _ => inl main.InvalidLiteral
    end.
Proof.
  intros Ha Hsep Hb. unfold main.parse_move.
  rewrite parse_parts_two by done. simpl.
  destruct (int_ sa) as [a|]; [|done].
  destruct (int_ sb) as [b|]; [|done].
  destruct (decide (1 <= a <= 3 ∧ 1 <= b <= 3)) as [[Ha3 Hb3]|Hno].
  - assert (bool_decide (a ∈ [1; 2; 3]) && bool_decide (b ∈ [1; 2; 3]) = true)
      as ->.
    { apply andb_true_iff.
      split; apply bool_decide_eq_true_2; by apply elem_of_one_two_three. }
    simpl. rewrite !bool_decide_eq_true_2 by lia. done.
  - assert (bool_decide (a ∈ [1; 2; 3]) && bool_decide (b ∈ [1; 2; 3]) = false)
      as ->.
    { apply andb_false_iff.
      destruct (decide (1 <= a <= 3)).
      - right. apply bool_decide_eq_false_2.
        rewrite elem_of_one_two_three. tauto.
      - left. apply bool_decide_eq_false_2.
        by rewrite elem_of_one_two_three. }
    simpl. destruct (decide (0 <= a <= 2 ∧ 0 <= b <= 2)) as [[Ha2 Hb2]|Hno2].
    + by rewrite !bool_decide_eq_true_2.
    + destruct (bool_decide (0 <= a <= 2)) eqn:E1; [|done].
      destruct (bool_decide (0 <= b <= 2)) eqn:E2; [|done].
      apply bool_decide_eq_true_1 in E1, E2. tauto.
Qed.

(** X21, witness: ["1, 1"] is read as the top-left cell, not as the
    centre. *)
Lemma parse_move_formats_witness :
  main.parse_move "1, 1" = inr (0, 0).
Proof.
  assert (Ht : token (list_ascii_of_string "1")).
  { split; [done|].
    apply Forall_cons_2; [split_and!; [apply Nat.ltb_lt; reflexivity|done|done]|].
    apply Forall_nil_2. }
  assert (Hs : separator (list_ascii_of_string ", ")).
  { split; [done|]. apply Forall_cons_2; [by right|].
    apply Forall_cons_2; [by left|]. apply Forall_nil_2. }
  exact (parse_move_formats "1" ", " "1" Ht Hs Ht).
Defined.

(** X22: [parse_move] refuses input without two numbers: text made only
    of whitespace and commas (the empty line included) and text made of a
    single run of other characters both give the two-numbers error,
    before any integer is parsed. *)
Theorem parse_move_needs_two_numbers raw :
  (Forall (fun c => isspace c = true ∨ c = ","%char)
     (list_ascii_of_string raw) →
   main.parse_move raw = inl main.TwoNumbersExpected) ∧
  (token (list_ascii_of_string raw) →
   main.parse_move raw = inl main.TwoNumbersExpected).
Proof.
  split.
  - intros Hall. unfold main.parse_move, strip, replace_char, split.
    rewrite !list_ascii_of_string_of_list_ascii.
    set (l := rev (lstrip_chars (rev (lstrip_chars (list_ascii_of_string raw))))).
    assert (Hl : Forall (fun c => isspace c = true ∨ c = ","%char) l).
    { unfold l. apply Forall_rev, Forall_lstrip_chars, Forall_rev.
      by apply Forall_lstrip_chars. }
    pose proof (replace_comma_separator _ Hl) as Hsp.
    rewrite <- (app_nil_r (map _ l)), split_chars_gap by done. done.
  - intros Ht.
    pose proof (token_string_nonempty _ Ht) as Hne.
    destruct (token_ends _ Ht) as (Hs & Hc & (c0 & l0 & H0 & Hc0) & (m & d & Hm & Hd)).
    destruct Ht as [Hnl _].
    unfold main.parse_move, strip, replace_char, split.
    rewrite (strip_chars_ends _ c0 l0 m d) by done.
    rewrite !list_ascii_of_string_of_list_ascii.
    rewrite replace_comma_token, split_chars_one by done. simpl.
    rewrite string_of_list_ascii_of_string.
    by rewrite filter_cons, decide_True.
Qed.

(** X22, witness: the empty line and a lone number. *)
Lemma parse_move_needs_two_numbers_witness :
  main.parse_move "" = inl main.TwoNumbersExpected ∧
  main.parse_move "7" = inl main.TwoNumbersExpected.
Proof.
  split.
  - apply (proj1 (parse_move_needs_two_numbers "")). apply Forall_nil_2.
  - apply (proj2 (parse_move_needs_two_numbers "7")).
    split; [done|].
    apply Forall_cons_2; [split_and!; [apply Nat.ltb_lt; reflexivity|done|done]|].
    apply Forall_nil_2.
Defined.

(** ** main.py, the console loop *)

Lemma str_returns b : wf_board b → ∃ t, __str__ b = Return t.
Proof.
  destruct b as [g]. unfold wf_board. simpl. intros Hwf.
  destruct (wf_rows_inv _ Hwf) as (a0 & a1 & a2 & b0 & b1 & b2 & c0 & c1 & c2 & ->).
  by eexists.
Qed.

Lemma print_board_with_coords_returns b out :
  wf_board b →
  ∃ shown, main.print_board_with_coords b out = (Return tt, (out ++ shown)%list).
Proof.
  intros Hwf. destruct (str_returns b Hwf) as [t Ht].
  unfold main.print_board_with_coords. rewrite Ht.
  eexists. by rewrite <- app_assoc.
Qed.

Lemma last_snoc_app {A} (l m : list A) x : last (l ++ m ++ [x]) = Some x.
Proof. by rewrite app_assoc, last_snoc. Qed.

Lemma announce_spec px po g lines out :
  wf_board (game._board g) →
  ∃ out',
    main.announce px po g lines out
    = (main.Finished g, console.mkConsole lines out') ∧
    out `prefix_of` out' ∧
    last out'
    = Some (if bool_decide (game._state g = game.WIN)
            then main.WinAnnounced
                   (match game._winner_symbol g with
                    | Some s => s
                    | None => "None"
                    end)
                   (if bool_decide (game._winner_symbol g = Some "X")
                    then player.name px else player.name po)
            else main.DrawAnnounced).
Proof.
  intros Hwf. unfold main.announce, game.board, game.state, game.winner_symbol.
  destruct (print_board_with_coords_returns (game._board g) out Hwf)
    as [shown ->].
  case_bool_decide; eexists; (split_and!; [done| |]).
  - rewrite <- app_assoc. by apply prefix_app_r.
  - by rewrite <- app_assoc, last_snoc_app.
  - rewrite <- app_assoc. by apply prefix_app_r.
  - by rewrite <- app_assoc, last_snoc_app.
Qed.

Lemma play_loop_spec g0 px po lines n g out :
  game_shape g0 → plays g0 n g →
  ∃ e consumed rest out',
    main.play_loop px po lines g out = (e, console.mkConsole rest out') ∧
    lines = (consumed ++ rest)%list ∧
    out `prefix_of` out' ∧
    match e with
    | main.Raised _ => False
    | main.EOFError => rest = []
    | main.Finished g' =>
        ∃ m, plays g0 (n + m) g' ∧ (m <= length consumed)%nat ∧
             game._state g' ≠ game.IN_PROGRESS ∧
             last out'
             = Some (if bool_decide (game._state g' = game.WIN)
                     then main.WinAnnounced
                            (match game._winner_symbol g' with
                             | Some s => s
                             | None => "None"
                             end)
                            (if bool_decide (game._winner_symbol g' = Some "X")
                             then player.name px else player.name po)
                     else main.DrawAnnounced)
    end.
Proof.
  intros Hshape0. revert n g out.
  assert (Hfinish : ∀ lines n g out,
            plays g0 n g → game._state g ≠ game.IN_PROGRESS →
            ∃ e consumed rest out',
              main.announce px po g lines out
              = (e, console.mkConsole rest out') ∧
              lines = (consumed ++ rest)%list ∧
              out `prefix_of` out' ∧
              match e with
              | main.Raised _ => False
              | main.EOFError => rest = []
              | main.Finished g' =>
                  ∃ m, plays g0 (n + m) g' ∧ (m <= length consumed)%nat ∧
                       game._state g' ≠ game.IN_PROGRESS ∧
                       last out'
                       = Some (if bool_decide (game._state g' = game.WIN)
                               then main.WinAnnounced
                                      (match game._winner_symbol g' with
                                       | Some s => s
                                       | None => "None"
                                       end)
                                      (if bool_decide
                                            (game._winner_symbol g' = Some "X")
                                       then player.name px else player.name po)
                               else main.DrawAnnounced)
              end).
  { intros ls n g out Hplays Hover.
    pose proof (reachable_shape _ _ Hshape0 (plays_reachable _ _ _ Hplays))
      as Hshape.
    destruct (announce_spec px po g ls out (proj1 Hshape))
      as (out' & -> & Hpre & Hlast).
    exists (main.Finished g), [], ls, out'. split_and!; try done.
    exists 0%nat. rewrite Nat.add_0_r. split_and!; simpl; try done. }
  induction lines as [|raw rest IH]; intros n g out Hplays;
    pose proof (reachable_shape _ _ Hshape0 (plays_reachable _ _ _ Hplays))
      as Hshape;
    simpl; unfold game.state, game.board; case_bool_decide as Hstate;
    try (by apply Hfinish);
    destruct (print_board_with_coords_returns (game._board g) out
                (proj1 Hshape)) as [shown ->];
    destruct (current_player_cases g (proj2 (proj2 (proj2 Hshape))))
      as (p & -> & _).
  - exists main.EOFError, [], [], ((out ++ shown) ++ [main.Text (main.turn_prompt p)])%list.
    split_and!; try done.
    rewrite <- app_assoc. by apply prefix_app_r.
  - assert (Hgo : ∀ n' g' out1,
              plays g0 n' g' → (n' <= S n)%nat → (n <= n')%nat →
              out `prefix_of` out1 →
              ∃ e consumed rest' out',
                main.play_loop px po rest g' out1
                = (e, console.mkConsole rest' out') ∧
                (raw :: rest) = (consumed ++ rest')%list ∧
                out `prefix_of` out' ∧
                match e with
                | main.Raised _ => False
                | main.EOFError => rest' = []
                | main.Finished g'' =>
                    ∃ m, plays g0 (n + m) g'' ∧ (m <= length consumed)%nat ∧
                         game._state g'' ≠ game.IN_PROGRESS ∧
                         last out'
                         = Some (if bool_decide (game._state g'' = game.WIN)
                                 then main.WinAnnounced
                                        (match game._winner_symbol g'' with
                                         | Some s => s
                                         | None => "None"
                                         end)
                                        (if bool_decide
                                              (game._winner_symbol g'' = Some "X")
                                         then player.name px
                                         else player.name po)
                                 else main.DrawAnnounced)
                end).
    { intros n' g' out1 Hplays' Hle Hge Hpre.
      destruct (IH n' g' out1 Hplays')
        as (e & consumed & rest' & out' & -> & -> & Hpre' & He).
      exists e, (raw :: consumed), rest', out'. split_and!; try done.
      - by etrans.
      - destruct e as [g''| |]; try done.
        destruct He as (m & Hp & Hm & Hover & Hlast).
        exists (n' - n + m)%nat. split_and!; try done.
        + by replace (n + (n' - n + m))%nat with (n' + m)%nat by lia.
        + simpl. lia. }
    destruct (main.parse_move raw) as [err|[r c]].
    + apply (Hgo n); [done|lia|lia|].
      rewrite <- !app_assoc. by apply prefix_app_r.
    + destruct (game.apply_move r c g) as [[e|[]] g'] eqn:Hmove.
      * apply (Hgo n); [by eapply plays_refused|lia|lia|].
        rewrite <- !app_assoc. by apply prefix_app_r.
      * apply (Hgo (S n)); [by eapply plays_accepted|lia|lia|].
        rewrite <- !app_assoc. by apply prefix_app_r.
Qed.

Lemma player_init_upper_symbols name :
  player.__init__ name "X" = Return (player.mkPlayer name "X") ∧
  player.__init__ name "O" = Return (player.mkPlayer name "O").
Proof. split; reflexivity. Qed.

Lemma play_once_spec k :
  ∃ e consumed rest out',
    main.play_once k = (e, console.mkConsole rest out') ∧
    console.stdin k = (consumed ++ rest)%list ∧
    console.stdout k `prefix_of` out' ∧
    match e with
    | main.Raised _ => False
    | main.EOFError => rest = []
    | main.Finished g =>
        ∃ raw_x raw_o lines g0 m,
          let px := player.mkPlayer (main.strip_or "Player X" raw_x) "X" in
          let po := player.mkPlayer (main.strip_or "Player O" raw_o) "O" in
          console.stdin k = raw_x :: raw_o :: lines ∧
          game.__init__ px po None = Return g0 ∧
          plays g0 m g ∧
          (2 + m <= length consumed)%nat ∧
          game._state g ≠ game.IN_PROGRESS ∧
          last out'
          = Some (if bool_decide (game._state g = game.WIN)
                  then main.WinAnnounced
                         (match game._winner_symbol g with
                          | Some s => s
                          | None => "None"
                          end)
                         (if bool_decide (game._winner_symbol g = Some "X")
                          then player.name px else player.name po)
                  else main.DrawAnnounced)
    end.
Proof.
  destruct k as [lines out]. unfold main.play_once. simpl.
  destruct lines as [|raw_x [|raw_o lines]].
  - exists main.EOFError, [], [], (out ++ [main.Text "Enter Player X name: "])%list.
    split_and!; try done. by apply prefix_app_r.
  - rewrite (proj1 (player_init_upper_symbols _)).
    exists main.EOFError, [raw_x], [],
      ((out ++ [main.Text "Enter Player X name: "])
         ++ [main.Text "Enter Player O name: "])%list.
    split_and!; try done. rewrite <- app_assoc. by apply prefix_app_r.
  - rewrite (proj1 (player_init_upper_symbols _)),
      (proj2 (player_init_upper_symbols _)).
    set (px := player.mkPlayer (main.strip_or "Player X" raw_x) "X").
    set (po := player.mkPlayer (main.strip_or "Player O" raw_o) "O").
    destruct (game.__init__ px po None) as [e|g0] eqn:Hinit; [done|].
    destruct (game_shape_init px po None g0 Hinit) as (Hshape & _); [done|].
    destruct (play_loop_spec g0 px po lines 0 g0
                ((out ++ [main.Text "Enter Player X name: "])
                   ++ [main.Text "Enter Player O name: "])%list
                Hshape (plays_start g0))
      as (e & consumed & rest & out' & -> & -> & Hpre & He).
    exists e, (raw_x :: raw_o :: consumed), rest, out'.
    split_and!; try done.
    + etrans; [|exact Hpre]. rewrite <- app_assoc. by apply prefix_app_r.
    + destruct e as [g| |]; try done.
      destruct He as (m & Hplays & Hm & Hover & Hlast).
      exists raw_x, raw_o, (consumed ++ rest)%list, g0, m.
      split_and!; try done. simpl. lia.
Qed.

(** X23: whatever the input, [play_once] is never left by an exception of
    the board, the players or the engine: it either returns, or ends with
    the [EOFError] of [input] once every line has been read.  When it
    returns, the game it played was built from players X and O on the
    default board, was advanced by [apply_move] only, and is won or drawn.
    It reads lines from the front of the input and only adds to the
    output. *)
Theorem play_once_ends_won_or_drawn k :
  let r := main.play_once k in
  console.stdin r.2 `suffix_of` console.stdin k ∧
  console.stdout k `prefix_of` console.stdout r.2 ∧
  match r.1 with
  | main.Raised _ => False
  | main.EOFError => console.stdin r.2 = []
  | main.Finished g =>
      (game.state g = game.WIN ∨ game.state g = game.DRAW) ∧
      ∃ px po g0,
        player.symbol px = "X" ∧ player.symbol po = "O" ∧
        game.__init__ px po None = Return g0 ∧
        reachable g0 g
  end.
Proof.
  destruct (play_once_spec k) as (e & consumed & rest & out' & -> & Hin & Hout & He).
  simpl. split_and!; [by eexists|done|].
  destruct e as [g| |]; try done.
  destruct He as (raw_x & raw_o & lines & g0 & m & _ & Hinit & Hplays & _ & Hover & _).
  split.
  - unfold game.state. destruct (game._state g); auto. done.
  - eexists _, _, g0. split_and!; [| |exact Hinit|by eapply plays_reachable]; done.
Qed.

(** X24: when [play_once] returns, the last line it prints tells the
    result.  After a win it names the symbol of the player who moved last,
    which holds a full line, and that player's name: for names entered as
    ASCII text, the first name entered for X and the second for O, each
    stripped, or [Player X] / [Player O] when nothing but whitespace was
    entered.  After a draw it says so, and the board is full without a
    line. *)
Theorem play_once_announces_result k raw_x raw_o lines g :
  ascii_text raw_x → ascii_text raw_o →
  console.stdin k = raw_x :: raw_o :: lines →
  (main.play_once k).1 = main.Finished g →
  let grid := _grid (game.board g) in
  let said := last (console.stdout (main.play_once k).2) in
  match game.state g with
  | game.WIN =>
      ∃ p, game.current_player g = Return p ∧
           said = Some (main.WinAnnounced (player.symbol p) (player.name p)) ∧
           line_of grid (player.symbol p) ∧
           (player.symbol p = "X" ∧
            player.name p = main.strip_or "Player X" raw_x ∨
            player.symbol p = "O" ∧
            player.name p = main.strip_or "Player O" raw_o)
  | game.DRAW => said = Some main.DrawAnnounced ∧ full grid ∧ no_line grid
  | game.IN_PROGRESS => False
  end.
Proof.
  intros _ _ Hin Hfin.
  destruct (play_once_spec k) as (e & consumed & rest & out' & Hrun & _ & _ & He).
  rewrite Hrun in *. simpl in Hfin. subst e. simpl.
  destruct He as (rx & ro & ls & g0 & m & Hin' & Hinit & Hplays & _ & Hover & Hlast).
  rewrite Hin in Hin'. injection Hin' as <- <- <-.
  pose proof (plays_reachable _ _ _ Hplays) as Hreach.
  assert (Hob : ∀ b : Board, None = Some b →
                wf_board b ∧ no_line (_grid b) ∧ ¬ full (_grid b))
    by (intros b [=]).
  destruct (game_coherent_inv _ _ _ _ _ Hinit Hob Hreach)
    as ((_ & _ & _ & Hidx & _ & _ & Hwin) & _ & Hdraw).
  assert (Hob' : ∀ b : Board, None = Some b → wf_board b) by (intros b [=]).
  destruct (game_shape_init _ _ _ _ Hinit Hob') as (_ & Hplayers0 & _).
  pose proof (reachable_players _ _ Hreach) as Hplayers.
  rewrite Hplayers0 in Hplayers.
  unfold game.state, game.board.
  destruct (game._state g) eqn:Hstate; [done| |].
  - destruct (Hwin eq_refl) as (p & Hp & Hsym & Hline).
    exists p. rewrite Hsym in Hlast. split_and!; try done.
    + rewrite Hlast. rewrite bool_decide_eq_true_2 by done.
      destruct (current_player_cases g Hidx) as (p' & Hp' & Hcase).
      rewrite Hp in Hp'. injection Hp' as <-.
      rewrite Hplayers in Hcase.
      destruct Hcase as [[_ ->]|[_ ->]]; reflexivity.
    + destruct (current_player_cases g Hidx) as (p' & Hp' & Hcase).
      rewrite Hp in Hp'. injection Hp' as <-.
      rewrite Hplayers in Hcase.
      destruct Hcase as [[_ ->]|[_ ->]]; [by left|by right].
  - destruct (Hdraw eq_refl) as [Hfull Hnl].
    rewrite bool_decide_eq_false_2 in Hlast by done. done.
Qed.

(** X24, witness: the sample session, won by Ann with the top row. *)
Lemma play_once_announces_result_witness :
  ∃ p, game.current_player game_won = Return p ∧
       last (console.stdout (main.play_once console_sample).2)
       = Some (main.WinAnnounced (player.symbol p) (player.name p)) ∧
       line_of (_grid (game.board game_won)) (player.symbol p) ∧
       (player.symbol p = "X" ∧
        player.name p = main.strip_or "Player X" "Ann" ∨
        player.symbol p = "O" ∧
        player.name p = main.strip_or "Player O" " Bob ").
Proof.
  exact (play_once_announces_result console_sample "Ann" " Bob " _ game_won
           (ascii_text_check "Ann" eq_refl) (ascii_text_check " Bob " eq_refl)
           eq_refl eq_refl).
Defined.

(** X25: every mark on the final board of [play_once] cost at least one
    line of input, after the two lines of the names; a finished game has
    at least five marks.  So [play_once] cannot return on fewer than seven
    lines of input: it ends with the [EOFError] of [input]. *)
Theorem play_once_needs_seven_lines k :
  (∀ g, (main.play_once k).1 = main.Finished g →
        (5 <= occupied_count (game.board g))%nat ∧
        (2 + occupied_count (game.board g)
           + length (console.stdin (main.play_once k).2)
         <= length (console.stdin k))%nat) ∧
  ((length (console.stdin k) < 7)%nat →
   (main.play_once k).1 = main.EOFError).
Proof.
  destruct (play_once_spec k) as (e & consumed & rest & out' & Hrun & Hin & _ & He).
  rewrite Hrun. simpl.
  assert (Hfin : ∀ g, e = main.Finished g →
                 (5 <= occupied_count (game.board g))%nat ∧
                 (2 + occupied_count (game.board g) + length rest
                  <= length (console.stdin k))%nat).
  { intros g ->.
    destruct He as (rx & ro & ls & g0 & m & _ & Hinit & Hplays & Hm & Hover & _).
    destruct (plays_count_inv _ _ _ _ _ Hinit Hplays)
      as (Hcount & _ & _ & Hwin & Hdraw).
    unfold game.board. rewrite Hcount, Hin, length_app.
    split; [|lia].
    destruct (game._state g); [done| |]; [specialize (Hwin eq_refl)
                                          |specialize (Hdraw eq_refl)]; lia. }
  split; [done|].
  intros Hshort. destruct e as [g| |]; [|done|done].
  destruct (Hfin g eq_refl) as [H5 Hlen]. lia.
Qed.

(** X25, witness: on the two names and four moves the session ends with
    [EOFError]. *)
Lemma play_once_needs_seven_lines_witness :
  (main.play_once
     (console.mkConsole ["Ann"; "Bob"; "1 1"; "2 2"; "1 2"; "2 1"] [])).1
  = main.EOFError.
Proof.
  apply (proj2 (play_once_needs_seven_lines
                  (console.mkConsole
                     ["Ann"; "Bob"; "1 1"; "2 2"; "1 2"; "2 1"] []))).
  simpl. lia.
Defined.

(** ** revised_tictactoe_onescript.py, the console prompt *)

Lemma prompt_round_in_range self line r c :
  console_game.prompt_round self line = inr (r, c) →
  0 <= r < onescript.size (onescript.board self) ∧
  0 <= c < onescript.size (onescript.board self).
Proof.
  unfold console_game.prompt_round. intros H.
  repeat case_match; try discriminate.
  all: injection H as <- <-.
  all: match goal with
       | Hn : negb _ = false |- _ =>
           apply negb_false_iff, andb_true_iff in Hn as [Hr Hc];
           apply bool_decide_eq_true_1 in Hr, Hc
       end.
  all: done.
Qed.

Lemma prompt_for_move_spec self player lines out :
  ∃ skipped,
    Forall (fun l => ∃ msg, console_game.prompt_round self l = inl msg)
      skipped ∧
    let shown :=
      (out
       ++ flat_map (fun l =>
                      [console_game.move_prompt player;
                       match console_game.prompt_round self l with
                       | inl msg => msg
                       | inr _ => ""
                       end]) skipped
       ++ [console_game.move_prompt player])%list in
    (∃ line rest rc,
       lines = (skipped ++ line :: rest)%list ∧
       console_game.prompt_round self line = inr rc ∧
       console_game._prompt_for_move self player lines out
       = (Some rc, console.mkConsole rest shown)) ∨
    (lines = skipped ∧
     console_game._prompt_for_move self player lines out
     = (None, console.mkConsole [] shown)).
Proof.
  revert out. induction lines as [|line lines IH]; intros out; simpl.
  - exists []. split; [done|]. right. done.
  - destruct (console_game.prompt_round self line) as [msg|rc] eqn:Hround.
    + destruct (IH ((out ++ [console_game.move_prompt player]) ++ [msg])%list)
        as (skipped & Hsk & Hcase).
      exists (line :: skipped). split.
      * apply Forall_cons_2; [by eexists|done].
      * simpl. rewrite Hround. cbv zeta in Hcase.
        destruct Hcase as [(l & rest & rc & -> & Hl & Hrun)|(-> & Hrun)].
        -- left. exists l, rest, rc. split_and!; [done|done|].
           rewrite Hrun. by rewrite <- !app_assoc.
        -- right. split; [done|].
           rewrite Hrun. by rewrite <- !app_assoc.
    + exists []. split; [done|]. left. exists line, lines, rc. by split_and!.
Qed.

Lemma lstrip_chars_blank lead l :
  blank lead → lstrip_chars (lead ++ l) = lstrip_chars l.
Proof. induction 1 as [|c lead Hc _ IH]; [done|]. simpl. by rewrite Hc. Qed.

Lemma strip_chars_around lead core trail c0 l0 m d :
  blank lead → blank trail →
  core = c0 :: l0 → core = (m ++ [d])%list →
  isspace c0 = false → isspace d = false →
  rev (lstrip_chars (rev (lstrip_chars (lead ++ core ++ trail)))) = core.
Proof.
  intros Hlead Htrail Hhead Hlast Hc Hd.
  rewrite lstrip_chars_blank by done.
  assert (lstrip_chars (core ++ trail) = (core ++ trail)%list) as ->
    by (rewrite Hhead; simpl; by rewrite Hc).
  rewrite rev_app_distr, lstrip_chars_blank by (by apply Forall_rev).
  rewrite Hlast at 1. rewrite rev_app_distr. simpl. rewrite Hd.
  change (d :: rev m) with (rev [d] ++ rev m)%list.
  by rewrite <- rev_app_distr, rev_involutive.
Qed.

Lemma word_ends l :
  word l →
  Forall (fun c => isspace c = false) l ∧
  (∃ c0 l0, l = c0 :: l0 ∧ isspace c0 = false) ∧
  (∃ m d, l = (m ++ [d])%list ∧ isspace d = false).
Proof.
  intros [Hne Hall].
  assert (Hs : Forall (fun c => isspace c = false) l)
    by (apply (Forall_impl _ _ _ Hall); by intros c [? ?]).
  split; [done|]. split.
  - destruct l as [|c0 l0]; [done|]. exists c0, l0. split; [done|].
    by apply Forall_cons in Hs as [? _].
  - destruct (exists_last Hne) as [m [d ->]]. exists m, d. split; [done|].
    apply Forall_app in Hs as [_ Hd]. by apply Forall_cons in Hd as [? _].
Qed.

Lemma split_strip_two lead sa sep sb trail :
  blank (list_ascii_of_string lead) →
  word (list_ascii_of_string sa) →
  blank (list_ascii_of_string sep) → sep ≠ "" →
  word (list_ascii_of_string sb) →
  blank (list_ascii_of_string trail) →
  split (strip (lead +:+ sa +:+ sep +:+ sb +:+ trail)) = [sa; sb].
Proof.
  intros Hlead Ha Hsep Hnsep Hb Htrail.
  destruct (word_ends _ Ha) as (Has & (c0 & l0 & Ha0 & Hc0) & _).
  destruct (word_ends _ Hb) as (Hbs & _ & (m & d & Hbm & Hd)).
  destruct Ha as [Hna _]. destruct Hb as [Hnb _].
  set (la := list_ascii_of_string sa) in *.
  set (ls := list_ascii_of_string sep) in *.
  set (lb := list_ascii_of_string sb) in *.
  unfold strip, split.
  rewrite !list_ascii_of_string_app. fold la ls lb.
  replace (list_ascii_of_string lead ++ la ++ ls ++ lb ++ list_ascii_of_string trail)%list
    with (list_ascii_of_string lead ++ (la ++ ls ++ lb) ++ list_ascii_of_string trail)%list
    by (by rewrite <- !app_assoc).
  rewrite (strip_chars_around _ (la ++ ls ++ lb) _ c0 (l0 ++ ls ++ lb)
             (la ++ ls ++ m) d);
    [|done|done|by rewrite Ha0|by rewrite Hbm, !app_assoc|done|done].
  rewrite list_ascii_of_string_of_list_ascii.
  rewrite split_chars_two; try done.
  - simpl. unfold la, lb. by rewrite !string_of_list_ascii_of_string.
  - unfold ls. by destruct sep.
Qed.

Lemma split_strip_one lead w trail :
  blank (list_ascii_of_string lead) →
  word (list_ascii_of_string w) →
  blank (list_ascii_of_string trail) →
  split (strip (lead +:+ w +:+ trail)) = [w].
Proof.
  intros Hlead Hw Htrail.
  destruct (word_ends _ Hw) as (Hws & (c0 & l0 & Hw0 & Hc0) & (m & d & Hwm & Hd)).
  destruct Hw as [Hnw _].
  unfold strip, split. rewrite !list_ascii_of_string_app.
  rewrite (strip_chars_around _ _ _ c0 l0 m d) by done.
  rewrite list_ascii_of_string_of_list_ascii, split_chars_one by done.
  simpl. by rewrite string_of_list_ascii_of_string.
Qed.

Lemma split_strip_blank line :
  blank (list_ascii_of_string line) → split (strip line) = [].
Proof.
  intros Hblank. unfold strip, split.
  rewrite <- (app_nil_r (list_ascii_of_string line)).
  rewrite lstrip_chars_blank by done. done.
Qed.

(** X26: what one round of [_prompt_for_move] makes of a line of ASCII
    text.  Two words separated by whitespace, with any whitespace around,
    are read by [int]: two numbers between 1 and the board size give the
    cell, shifted to 0-based; two numbers of which one is outside that
    range (0 included) are refused as coordinates; a word that is no
    integer literal is refused as not numeric.  A line holding one word,
    such as two numbers joined by a comma, or only whitespace, is refused
    for not holding two numbers. *)
Theorem prompt_round_formats self lead trail :
  blank (list_ascii_of_string lead) →
  blank (list_ascii_of_string trail) →
  (∀ sa sep sb,
     word (list_ascii_of_string sa) →
     blank (list_ascii_of_string sep) → sep ≠ "" →
     word (list_ascii_of_string sb) →
     console_game.prompt_round self (lead +:+ sa +:+ sep +:+ sb +:+ trail)
     = match int_ sa, int_ sb with
       | Some a, Some b =>
           if decide (1 <= a <= onescript.size (onescript.board self) ∧
                      1 <= b <= onescript.size (onescript.board self))
           then inr (a - 1, b - 1)
           else inl "Coordinates must be between 1 and 3. Please try again."
       | _, _ => inl "Only numeric input is accepted. Please try again."
       end) ∧
  (∀ w, word (list_ascii_of_string w) →
        console_game.prompt_round self (lead +:+ w +:+ trail)
        = inl "Please enter exactly two numbers separated by space (e.g., '1 3').") ∧
  console_game.prompt_round self (lead +:+ trail)
  = inl "Please enter exactly two numbers separated by space (e.g., '1 3').".
Proof.
  intros Hlead Htrail. split_and!.
  - intros sa sep sb Ha Hsep Hnsep Hb. unfold console_game.prompt_round.
    rewrite split_strip_two by done. simpl.
    destruct (int_ sa) as [a|]; [|done].
    destruct (int_ sb) as [b|]; [|done].
    destruct (decide _) as [[Ha3 Hb3]|Hno].
    + by rewrite !bool_decide_eq_true_2 by lia.
    + destruct (bool_decide (0 <= a - 1 < _)) eqn:E1; [|done].
      destruct (bool_decide (0 <= b - 1 < _)) eqn:E2; [|done].
      apply bool_decide_eq_true_1 in E1, E2. exfalso. apply Hno. lia.
  - intros w Hw. unfold console_game.prompt_round.
    by rewrite split_strip_one.
  - unfold console_game.prompt_round.
    rewrite split_strip_blank; [done|].
    rewrite list_ascii_of_string_app. by apply Forall_app.
Qed.

Lemma word_check l :
  l ≠ [] →
  forallb (fun c => (nat_of_ascii c <? 128)%nat && negb (isspace c)) l = true →
  word l.
Proof.
  intros Hne Hall. split; [done|].
  apply Forall_forall. intros c Hc.
  rewrite forallb_forall in Hall.
  specialize (Hall c (proj1 (list_elem_of_In _ _) Hc)).
  apply andb_true_iff in Hall as [H1 H2].
  split; [by apply Nat.ltb_lt|by apply negb_true_iff].
Qed.

Lemma blank_check l : forallb isspace l = true → blank l.
Proof.
  intros Hall. apply Forall_forall. intros c Hc.
  rewrite forallb_forall in Hall. by apply Hall, list_elem_of_In.
Qed.

(** X26, witness: on the fresh engine, a line with blanks around two
    numbers, and a line with a comma. *)
Lemma prompt_round_formats_witness :
  console_game.prompt_round script_engine_fresh " 2  3" = inr (1, 2) ∧
  console_game.prompt_round script_engine_fresh " 1,3"
  = inl "Please enter exactly two numbers separated by space (e.g., '1 3').".
Proof.
  assert (Hb0 : blank (list_ascii_of_string "")) by (by apply blank_check).
  assert (Hb1 : blank (list_ascii_of_string " ")) by (by apply blank_check).
  assert (Hb2 : blank (list_ascii_of_string "  ")) by (by apply blank_check).
  assert (Hw2 : word (list_ascii_of_string "2")) by (by apply word_check).
  assert (Hw3 : word (list_ascii_of_string "3")) by (by apply word_check).
  assert (Hw13 : word (list_ascii_of_string "1,3")) by (by apply word_check).
  assert (Hsep : "  " ≠ "") by done.
  split.
  - exact (proj1 (prompt_round_formats script_engine_fresh " " "" Hb1 Hb0)
             "2" "  " "3" Hw2 Hb2 Hsep Hw3).
  - exact (proj1 (proj2 (prompt_round_formats script_engine_fresh " " ""
                           Hb1 Hb0))
             "1,3" Hw13).
Defined.

(** X27: on lines of ASCII text [_prompt_for_move] reads until a round
    accepts a line.  It returns the move of the first accepted line, which
    lies within the board, and leaves the lines after it unread; when no
    line is accepted it ends, all lines read, with the [EOFError] of
    [input].  It writes the prompt once for every line it reads or
    attempts to read, after each refused line the refusal, and nothing
    else. *)
Theorem prompt_for_move_first_accepted self player lines out :
  Forall ascii_text lines →
  let r := console_game._prompt_for_move self player lines out in
  ∃ skipped,
    Forall (fun l => ∃ msg, console_game.prompt_round self l = inl msg)
      skipped ∧
    console.stdout r.2
    = (out
       ++ flat_map (fun l =>
                      [console_game.move_prompt player;
                       match console_game.prompt_round self l with
                       | inl msg => msg
                       | inr _ => ""
                       end]) skipped
       ++ [console_game.move_prompt player])%list ∧
    match r.1 with
    | Some rc =>
        ∃ line,
          lines = (skipped ++ line :: console.stdin r.2)%list ∧
          console_game.prompt_round self line = inr rc ∧
          0 <= rc.1 < onescript.size (onescript.board self) ∧
          0 <= rc.2 < onescript.size (onescript.board self)
    | None => lines = skipped ∧ console.stdin r.2 = []
    end.
Proof.
  intros _.
  destruct (prompt_for_move_spec self player lines out)
    as (skipped & Hsk & Hcase).
  cbv zeta in *. exists skipped. split; [done|].
  destruct Hcase as [(line & rest & [r c] & -> & Hline & ->)|(-> & ->)]; simpl.
  - split; [done|].
    destruct (prompt_round_in_range _ _ _ _ Hline) as [Hr Hc].
    exists line. split; [done|]. split; [done|]. split; [exact Hr|exact Hc].
  - done.
Qed.

(** X27, witness: on the fresh engine, a refused line, an accepted line
    and a line left unread. *)
Lemma prompt_for_move_first_accepted_witness :
  let r := console_game._prompt_for_move script_engine_fresh script_ann
             ["two three"; "2 3"; "1 1"] [] in
  ∃ skipped,
    Forall (fun l => ∃ msg,
              console_game.prompt_round script_engine_fresh l = inl msg)
      skipped ∧
    console.stdout r.2
    = ([]
       ++ flat_map (fun l =>
                      [console_game.move_prompt script_ann;
                       match console_game.prompt_round script_engine_fresh l
                       with
                       | inl msg => msg
                       | inr _ => ""
                       end]) skipped
       ++ [console_game.move_prompt script_ann])%list ∧
    match r.1 with
    | Some rc =>
        ∃ line,
          ["two three"; "2 3"; "1 1"]
          = (skipped ++ line :: console.stdin r.2)%list ∧
          console_game.prompt_round script_engine_fresh line = inr rc ∧
          0 <= rc.1 < onescript.size (onescript.board script_engine_fresh) ∧
          0 <= rc.2 < onescript.size (onescript.board script_engine_fresh)
    | None => ["two three"; "2 3"; "1 1"] = skipped ∧ console.stdin r.2 = []
    end.
Proof.
  apply (prompt_for_move_first_accepted script_engine_fresh script_ann
           ["two three"; "2 3"; "1 1"] []).
  repeat (apply Forall_cons_2; [by apply ascii_text_check|]).
  apply Forall_nil_2.
Defined.

(** X28: in a single-script game between two players built by
    [Player(...)], started by [GameEngine(p1, p2)] and in progress, a move
    that [_prompt_for_move] returns names a cell of the board, and
    [play_turn] does not raise on it: it returns [True] when the cell is
    blank, and when the cell is taken it returns [False] and leaves the
    engine as it was.  So the loop of [run] answers a human move with
    "Invalid move" only for a taken cell.  The lines read are ASCII
    text. *)
Theorem prompted_move_refused_only_when_taken
    n1 s1 n2 s2 p1 p2 e player lines out r c :
  onescript.Player_init n1 s1 = Return p1 →
  onescript.Player_init n2 s2 = Return p2 →
  script_reachable (onescript.GameEngine_init p1 p2) e →
  status e = InProgress →
  Forall ascii_text lines →
  (console_game._prompt_for_move e player lines out).1 = Some (r, c) →
  in_range (r, c) ∧
  ∃ v, cell_at (onescript.grid (onescript.board e)) (r, c) = Some v ∧
       if decide (v = " ")
       then (onescript.GameEngine_play_turn r c e).1 = Return true
       else onescript.GameEngine_play_turn r c e = (Return false, e).
Proof.
  intros H1 H2 Hreach Hst _ Hmove.
  destruct (script_reachable_inv _ _ (script_inv_init p1 p2) Hreach)
    as (Hwf & Hidx & _).
  assert (Hrc : in_range (r, c)).
  { destruct (prompt_for_move_spec e player lines out)
      as (skipped & _ & Hcase).
    cbv zeta in Hcase.
    destruct Hcase as [(line & rest & rc & _ & Hline & Hrun)|(_ & Hrun)];
      rewrite Hrun in Hmove; simpl in Hmove; [|done].
    injection Hmove as ->.
    destruct (prompt_round_in_range _ _ _ _ Hline) as [Hr Hc].
    destruct Hwf as [Hsize _]. rewrite Hsize in Hr, Hc. by split. }
  split; [done|].
  destruct (wf_rows_cell _ _ (proj2 Hwf) Hrc) as [v Hv].
  exists v. split; [done|].
  destruct (script_current_player_cases e Hidx) as (p & Hp & Hwho).
  destruct (script_reachable_players _ _ _ Hreach) as [Hone Htwo].
  assert (Hs : onescript.symbol p = "X" ∨ onescript.symbol p = "O").
  { destruct Hwho as [[_ ->]|[_ ->]].
    - rewrite Hone. by eapply script_player_init_symbol.
    - rewrite Htwo. by eapply script_player_init_symbol. }
  pose proof (script_play_turn_in_progress e r c p Hwf Hst Hp) as Hcase.
  destruct (decide (v = " ")) as [->|Hv'].
  - rewrite decide_True in Hcase by done.
    simpl in Hcase. by destruct Hcase as (won & _ & ->).
  - rewrite decide_False in Hcase; [done|].
    intros (_ & _ & Hblank). rewrite Hv in Hblank. by injection Hblank.
Qed.

(** X28, witness: on the fresh engine the line ["2 3"], read after a
    refused one, gives a move that [play_turn] accepts. *)
Lemma prompted_move_refused_only_when_taken_witness :
  in_range (1, 2) ∧
  ∃ v, cell_at (onescript.grid (onescript.board script_engine_fresh)) (1, 2)
       = Some v ∧
       if decide (v = " ")
       then (onescript.GameEngine_play_turn 1 2 script_engine_fresh).1
            = Return true
       else onescript.GameEngine_play_turn 1 2 script_engine_fresh
            = (Return false, script_engine_fresh).
Proof.
  assert (Hascii : Forall ascii_text ["two three"; "2 3"; "1 1"]).
  { repeat (apply Forall_cons_2; [by apply ascii_text_check|]).
    apply Forall_nil_2. }
  exact (prompted_move_refused_only_when_taken
           "Ann" "X" "Bob" "O" script_ann script_bob script_engine_fresh
           script_ann ["two three"; "2 3"; "1 1"] [] 1 2
           eq_refl eq_refl (script_reachable_init _) eq_refl Hascii eq_refl).
Defined.
